(** * ovaloid: a shallow embedding of the validator compiler of [src/index.ts]

    The development follows the source file top to bottom: the value
    universe the checks run on, [Result] and [VError], the path helpers,
    one compiler per validator kind, the chain compiler and [compile].

    Conventions.
    - A JavaScript exception is explicit: a check returns a [Completion],
      compilation returns a [Comp].
    - [throw new Error(printError(path, msg, details))] is modelled by the
      triple it renders, [AuthoringError path msg details]; the printer
      itself ([printError], [printPath], [printValue]) is modelled apart,
      on errors and values.
    - The recursion [compile -> compileStep -> compileObject -> compile] is
      tied by open recursion: every compiler takes the function to call
      where the source calls [compile], and [compile] closes the knot. *)

From Stdlib Require Import List String Ascii ZArith QArith Lia Bool Arith DecimalString DecimalNat.
Import ListNotations.

Close Scope Q_scope.
Open Scope string_scope.
Open Scope list_scope.

Set Implicit Arguments.
Set Warnings "-register-all".

(* ------------------------------------------------------------------ *)
(** ** JavaScript values *)

(** A JS number: the finite doubles are read as rationals (the checks only
    compare them and test them for integrality), and the two zeros are one
    value, which no operation of the source tells apart. *)
Inductive JsNumber :=
| NaN
| PosInfinity
| NegInfinity
| Finite (q : Q).

Definition ofNat (n : nat) : JsNumber := Finite (Z.of_nat n # 1).

Definition isNaN (n : JsNumber) : bool :=
  match n with NaN => true | _ => false end.

(** [a <= b] and [a < b] on numbers; every comparison with NaN is false. *)
Definition num_le (a b : JsNumber) : bool :=
  match a, b with
  | NaN, _ | _, NaN => false
  | NegInfinity, _ => true
  | _, PosInfinity => true
  | PosInfinity, _ => false
  | _, NegInfinity => false
  | Finite x, Finite y => Qle_bool x y
  end.

Definition num_lt (a b : JsNumber) : bool :=
  match a, b with
  | NaN, _ | _, NaN => false
  | PosInfinity, _ => false
  | _, NegInfinity => false
  | NegInfinity, _ => true
  | _, PosInfinity => true
  | Finite x, Finite y => negb (Qle_bool y x)
  end.

(** [a === b] on numbers. *)
Definition num_eq (a b : JsNumber) : bool :=
  match a, b with
  | PosInfinity, PosInfinity => true
  | NegInfinity, NegInfinity => true
  | Finite x, Finite y => Qeq_bool x y
  | _, _ => false
  end.

(** [Number.isInteger]. *)
Definition isInteger (n : JsNumber) : bool :=
  match n with
  | Finite q => (Qnum q mod Zpos (Qden q) =? 0)%Z
  | _ => false
  end.

Definition MAX_SAFE_INTEGER : JsNumber := Finite (9007199254740991 # 1).
Definition MIN_SAFE_INTEGER : JsNumber := Finite ((-9007199254740991) # 1).

(** The values a check is applied to: the deserialised, JSON-like values
    together with [undefined] and the functions that reading a property
    through the prototype chain can return. A string is the sequence of its
    code units, each of them below 256 here. An object is the list of its
    own enumerable properties in the order the runtime enumerates them;
    what its prototype chain holds is read through [protoGet] below. A
    function is identified by a name and has no enumerable property. *)
Inductive Value :=
| VUndefined
| VNull
| VBool (b : bool)
| VNum (n : JsNumber)
| VStr (s : string)
| VArr (items : list Value)
| VObj (props : list (string * Value))
| VFunction (name : string).

Definition typeof (v : Value) : string :=
  match v with
  | VUndefined => "undefined"
  | VBool _ => "boolean"
  | VNum _ => "number"
  | VStr _ => "string"
  | VNull | VArr _ | VObj _ => "object"
  | VFunction _ => "function"
  end.

Definition isArray (v : Value) : bool :=
  match v with VArr _ => true | _ => false end.

(** [x == null]. *)
Definition isNullish (v : Value) : bool :=
  match v with VUndefined | VNull => true | _ => false end.

(** [x === y] between a value and a number. *)
Definition strictEqNum (v : Value) (n : JsNumber) : bool :=
  match v with VNum m => num_eq m n | _ => false end.

(** The equality of [Array.prototype.includes] (SameValueZero) on primitive
    values. Arrays and objects are compared by reference in JavaScript; a
    value reaching a check is never the same reference as an option of the
    schema, hence [false]. A function is the same reference as the function
    of the same name. *)
Definition sameValueZero (x y : Value) : bool :=
  match x, y with
  | VUndefined, VUndefined => true
  | VNull, VNull => true
  | VBool a, VBool b => Bool.eqb a b
  | VNum a, VNum b => (isNaN a && isNaN b) || num_eq a b
  | VStr a, VStr b => (a =? b)
  | VFunction a, VFunction b => (a =? b)
  | _, _ => false
  end.

Definition includes (xs : list Value) (x : Value) : bool :=
  existsb (fun o => sameValueZero o x) xs.

(** [keys.includes(k)] on strings. *)
Definition includesKey (ks : list string) (k : string) : bool :=
  existsb (fun o => o =? k) ks.

(** An error object, as thrown by the runtime or by caller-supplied code. *)
Record JsError := mkJsError { ename : string; emessage : string }.

Definition TypeError (msg : string) : JsError := mkJsError "TypeError" msg.

(** The outcome of evaluating JS code: a value, or a thrown error. *)
Inductive Completion (A : Type) :=
| Normal (a : A)
| Throw (e : JsError).
Arguments Normal {A} a.
Arguments Throw {A} e.

Definition cbind {A B} (c : Completion A) (k : A -> Completion B) : Completion B :=
  match c with
  | Normal a => k a
  | Throw e => Throw e
  end.

(** What the runtime holds outside the values is left open.
    - [StringToNumber s]: the number a string converts to.
    - [ObjectToString v]: the conversion of an array, an object or a
      function to a primitive ([valueOf], then [toString]); it yields a
      string, or throws a TypeError when neither method returns a primitive
      (an object whose own [toString] is not callable).
    - [protoGet x k]: what [x[k]] reads when [k] is neither an own
      enumerable property of [x] nor the length of an array or string: a
      property that [x] owns without enumerating it or inherits from its
      prototype chain (the members of [Object.prototype] for an object),
      undefined when there is none. *)
Class JsRuntime := {
  StringToNumber : string -> JsNumber;
  ObjectToString : Value -> Completion string;
  protoGet : Value -> string -> Value
}.

(** The conversion to a number that the comparisons and [isNaN] apply. *)
Definition ToNumber {rt : JsRuntime} (v : Value) : Completion JsNumber :=
  match v with
  | VUndefined => Normal NaN
  | VNull => Normal (ofNat 0)
  | VBool b => Normal (ofNat (if b then 1 else 0))
  | VNum n => Normal n
  | VStr s => Normal (StringToNumber s)
  | VArr _ | VObj _ | VFunction _ =>
      cbind (ObjectToString v) (fun s => Normal (StringToNumber s))
  end.

(** [xs.map(f)] where [f] may throw: left to right, the first throw ends it. *)
Fixpoint cmap {A B} (f : A -> Completion B) (xs : list A) : Completion (list B) :=
  match xs with
  | [] => Normal []
  | x :: rest =>
      cbind (f x) (fun y => cbind (cmap f rest) (fun ys => Normal (y :: ys)))
  end.

Definition natToString (n : nat) : string :=
  NilEmpty.string_of_uint (Nat.to_uint n).

Fixpoint lookup {A} (k : string) (props : list (string * A)) : option A :=
  match props with
  | [] => None
  | (k', v) :: rest => if k' =? k then Some v else lookup k rest
  end.

Definition indexEntries (xs : list Value) : list (string * Value) :=
  combine (map natToString (seq 0 (List.length xs))) xs.

Definition chars (s : string) : list Value :=
  map (fun c => VStr (String c "")) (list_ascii_of_string s).

(** Own enumerable properties: those of an object, the indices of an array
    or of a string; none for the other primitives. *)
Definition ownEntries (x : Value) : list (string * Value) :=
  match x with
  | VObj props => props
  | VArr items => indexEntries items
  | VStr s => indexEntries (chars s)
  | _ => []
  end.

(** [Object.keys(x)]. *)
Definition objectKeys (x : Value) : Completion (list string) :=
  match x with
  | VUndefined | VNull =>
      Throw (TypeError "Cannot convert undefined or null to object")
  | _ => Normal (map fst (ownEntries x))
  end.

(** [x[k]]: reading a property of null or undefined throws; an own
    enumerable property is read as it is, the length of an array or of a
    string is its number of items, and any other name is looked up in what
    the value owns without enumerating it and in its prototype chain. *)
Definition getProp {rt : JsRuntime} (x : Value) (k : string) : Completion Value :=
  match x with
  | VUndefined | VNull =>
      Throw (TypeError ("Cannot read properties of " ++
                        match x with VNull => "null" | _ => "undefined" end ++
                        " (reading '" ++ k ++ "')")%string)
  | _ =>
      match lookup k (ownEntries x) with
      | Some v => Normal v
      | None =>
          match x with
          | VArr items =>
              if k =? "length" then Normal (VNum (ofNat (List.length items)))
              else Normal (protoGet x k)
          | VStr s =>
              if k =? "length" then Normal (VNum (ofNat (String.length s)))
              else Normal (protoGet x k)
          | _ => Normal (protoGet x k)
          end
      end
  end.

(** The array index a property name writes, if any: a canonical decimal
    numeral below 2^32 - 1. *)
Definition arrayIndex (k : string) : option N :=
  match NilEmpty.uint_of_string k with
  | Some d =>
      let n := N.of_uint d in
      if (NilEmpty.string_of_uint (N.to_uint n) =? k) && (n <? 4294967295)%N
      then Some n
      else None
  | None => None
  end.

(** Writing to a property that exists keeps its place. *)
Fixpoint updateProp (k : string) (v : Value) (props : list (string * Value))
  : list (string * Value) :=
  match props with
  | [] => []
  | (k', v') :: rest =>
      if k' =? k then (k', v) :: rest else (k', v') :: updateProp k v rest
  end.

(** A new array index goes before the first property that is not a smaller
    array index. *)
Fixpoint insertIndex (n : N) (k : string) (v : Value)
  (props : list (string * Value)) : list (string * Value) :=
  match props with
  | [] => [(k, v)]
  | (k', v') :: rest =>
      match arrayIndex k' with
      | Some m =>
          if (m <? n)%N then (k', v') :: insertIndex n k v rest
          else (k, v) :: props
      | None => (k, v) :: props
      end
  end.

(** Creating or writing the property [k] of an object whose properties are
    enumerated as [props]: the array indices come first, in ascending
    order, and the other names follow in the order of their creation. *)
Definition setProp (k : string) (v : Value) (props : list (string * Value))
  : list (string * Value) :=
  match lookup k props with
  | Some _ => updateProp k v props
  | None =>
      match arrayIndex k with
      | Some n => insertIndex n k v props
      | None => props ++ [(k, v)]
      end
  end.

(** [Object.fromEntries(entries)] on entries [[k, y]], taken in order. *)
Definition fromEntries (entries : Value) : Value :=
  match entries with
  | VArr es =>
      VObj (fold_left (fun props e =>
                         match e with
                         | VArr (VStr k :: y :: _) => setProp k y props
                         | _ => props
                         end) es [])
  | _ => VObj []
  end.

(* ------------------------------------------------------------------ *)
(** ** [group] *)

(** The inner [while] loop of [group]: it extends the current run while [f]
    holds between the last item taken and the next one, and returns the
    rest of the run together with the groups that follow it. *)
Fixpoint groupFrom {A} (f : A -> A -> bool) (prev : A) (rest : list A)
  : list A * list (list A) :=
  match rest with
  | [] => ([], [])
  | y :: ys =>
      let '(run, later) := groupFrom f y ys in
      if f prev y then (y :: run, later) else ([], (y :: run) :: later)
  end.

Definition group {A} (items : list A) (f : A -> A -> bool) : list (list A) :=
  match items with
  | [] => []
  | x :: xs => let '(run, later) := groupFrom f x xs in (x :: run) :: later
  end.

(* ------------------------------------------------------------------ *)
(** ** Paths, [VError] and [Result] *)

Inductive PathStep :=
| PKey (name : string)
| PIndex (ix : nat).

Definition Path := list PathStep.

Definition extendPath (path : Path) (prop : PathStep) : Path :=
  path ++ [prop].

Definition printCode (name : string) : string :=
  ("`" ++ name ++ "`")%string.

Inductive ErrorDetails :=
| found (v : Value)
| expected (v : Value)
| unexpected (v : Value)
| caught (e : JsError).

Record VError := mkVError {
  path : Path;
  message : string;
  details : option ErrorDetails
}.

(** [VError.under]. *)
Definition under (e : VError) (p : Path) : VError :=
  mkVError (p ++ path e) (message e) (details e).

(** [Result]: [ok] true with a value, or [ok] false with errors. *)
Inductive Result :=
| Success (value : Value)
| Failure (errors : list VError).

Definition isOk (r : Result) : bool :=
  match r with Success _ => true | Failure _ => false end.

(** [r.value] and [r.errors]; the field the constructor did not set reads
    as undefined, resp. is never read by the source. *)
Definition valueOf (r : Result) : Value :=
  match r with Success v => v | Failure _ => VUndefined end.

Definition errorsOf (r : Result) : list VError :=
  match r with Success _ => [] | Failure es => es end.

(** [Result.map]. *)
Definition rmap (r : Result) (f : Value -> Value) : Result :=
  match r with
  | Success v => Success (f v)
  | Failure _ => r
  end.

(** [Result.at], called by the source with a [Path] only. *)
Definition at_ (r : Result) (p : Path) : Result :=
  match p with
  | [] => r
  | _ =>
      match r with
      | Success _ => r
      | Failure es => Failure (map (fun e => under e p) es)
      end
  end.

Definition ok (value : Value) : Result := Success value.

(** [fail] with one message, the only form the compilers use. *)
Definition fail (error : string) (p : Path) (d : option ErrorDetails) : Result :=
  Failure [mkVError p error d].

Definition gather (results : list Result) : Result :=
  let errors := filter (fun r => negb (isOk r)) results in
  if (0 <? List.length errors)%nat
  then Failure (flat_map errorsOf errors)
  else Success (VArr (map valueOf results)).

Definition FnV := Value -> Completion Result.

(* ------------------------------------------------------------------ *)
(** ** Schemas *)

(** What a caller-supplied validation function returns: a [Result]
    ([result instanceof Result]) or any other value. *)
Inductive FnReturn :=
| RetResult (r : Result)
| RetOther (v : Value).

(** A validator description, [Validator] in the source. [SStr] is any
    string (the basic validators are the six known names), [SArr] a JS
    array, that is a chain, and [SOther] any other value: one that is
    neither a string, a function nor an array and has no [type]. A
    predicate built without a message has [err = None]. *)
Inductive Schema :=
| SStr (name : string)
| SFn (fn : Value -> Completion FnReturn)
| SPred (fn : Value -> Completion Value) (err : option string)
        (dt : option ErrorDetails)
| SOptional (inner : Schema) (fallback : Value)
| SEnum (options : Value)
| SObj (fields : list (string * Schema))
| SIndexed (entries : list Schema)
| SOneOf (branches : list Schema)
| SArr (items : list Schema)
| SOther (v : Value).

(** The schema constructors exported by the source. *)
Definition predicate fn (err : option string) dt : Schema := SPred fn err dt.
Definition optional (inner : Schema) (fallback : Value) : Schema :=
  SOptional inner fallback.
Definition mkEnum (options : list Value) : Schema := SEnum (VArr options).
Definition object (struct : list (string * Schema)) : Schema := SObj struct.
Definition indexed (entries : list Schema) : Schema := SIndexed entries.
Definition oneOf (branches : list Schema) : Schema := SOneOf branches.

(** The third argument of [printError] at the [throw] sites. *)
Inductive AuthoringDetails :=
| DFound (v : Schema)
| DUnexpected (v : Value)
| DErrors (es : list VError).

(** What compilation can throw: an authoring error, or whatever evaluating
    the fallback of an optional threw. *)
Inductive Exn :=
| AuthoringError (p : Path) (msg : string) (d : option AuthoringDetails)
| Raised (e : JsError).

Inductive Comp (A : Type) :=
| Done (a : A)
| Raise (e : Exn).
Arguments Done {A} a.
Arguments Raise {A} e.

Definition bind {A B} (c : Comp A) (k : A -> Comp B) : Comp B :=
  match c with
  | Done a => k a
  | Raise e => Raise e
  end.

Notation "x <- c ;; k" := (bind c (fun x => k))
  (at level 61, c at next level, right associativity).

(** [xs.map(f)] where [f] may throw an authoring error. *)
Fixpoint traverse {A B} (f : A -> Comp B) (xs : list A) : Comp (list B) :=
  match xs with
  | [] => Done []
  | x :: rest => y <- f x ;; ys <- traverse f rest ;; Done (y :: ys)
  end.

(** The items of an array paired with their indices, for [xs.map((v, ix) => ...)]. *)
Definition withIndex {A} (xs : list A) : list (nat * A) :=
  combine (seq 0 (List.length xs)) xs.

Definition Compiler := Schema -> Path -> Comp FnV.

Section Compilers.

Context {rt : JsRuntime}.

(* ------------------------------------------------------------------ *)
(** ** Basic validators *)

Definition basic (f : Value -> Completion bool) (err : string) (p : Path)
  (d : option ErrorDetails) : FnV :=
  fun x => cbind (f x) (fun b => Normal (if b then ok x else fail err p d)).

Definition isIntegerValue (x : Value) : bool :=
  match x with VNum n => isInteger n | _ => false end.

(** The operands of [&&] are evaluated from left to right, and no further
    than the first that is false. *)
Definition compileBasic (name : string) (p : Path) : Comp FnV :=
  if name =? "array" then
    Done (basic (fun x => Normal (isArray x)) "Not an array" p None)
  else if name =? "boolean" then
    Done (basic (fun x => Normal (typeof x =? "boolean")) "Not a boolean" p None)
  else if name =? "number" then
    Done (basic (fun x => if typeof x =? "number"
                          then cbind (ToNumber x) (fun n => Normal (negb (isNaN n)))
                          else Normal false)
                "Not a number" p None)
  else if name =? "integer" then
    Done (basic (fun x => cbind (ToNumber x) (fun n =>
                          if num_le MIN_SAFE_INTEGER n
                          then cbind (ToNumber x) (fun m =>
                               if num_le m MAX_SAFE_INTEGER
                               then Normal (isIntegerValue x)
                               else Normal false)
                          else Normal false))
                "Not an integer" p None)
  else if name =? "string" then
    Done (basic (fun x => Normal (typeof x =? "string")) "Not a string" p None)
  else if name =? "non-empty" then
    Done (basic (fun x => cbind (getProp x "length") (fun len =>
                          cbind (ToNumber len) (fun n =>
                          Normal (num_lt (ofNat 0) n))))
                "Is empty" p None)
  else
    Raise (AuthoringError p "Unknown basic validator" (Some (DFound (SStr name)))).

(* ------------------------------------------------------------------ *)
(** ** Predicates and functions *)

Definition predType := "pred".

Definition predicateCheck (fn : Value -> Completion Value) (err : string)
  (dt : option ErrorDetails) (p : Path) : FnV :=
  fun x =>
    match fn x with
    | Normal (VBool true) => Normal (ok x)
    | Normal _ => Normal (fail err p dt)
    | Throw e =>
        Normal (fail "Predicate function threw an error" p (Some (caught e)))
    end.

Definition compilePredicate (fn : Value -> Completion Value)
  (err : option string) (dt : option ErrorDetails) (p : Path) : Comp FnV :=
  match err with
  | Some e =>
      if (String.length e =? 0)%nat
      then Raise (AuthoringError p "Predicate validator requires an error message" None)
      else Done (predicateCheck fn e dt p)
  | None =>
      Raise (AuthoringError p "Predicate validator requires an error message" None)
  end.

Definition functionType := "fn".

Definition compileFunction (fn : Value -> Completion FnReturn) (p : Path) : FnV :=
  fun x =>
    match fn x with
    | Normal (RetResult result) => Normal (at_ result p)
    | Normal (RetOther result) =>
        Normal (fail "Validation function did not return a `Result`" p
                     (Some (found result)))
    | Throw e =>
        Normal (fail "Validation function threw an error" p (Some (caught e)))
    end.

(* ------------------------------------------------------------------ *)
(** ** Step kinds *)

Definition optionalType := "optional".
Definition enumType := "enum".
Definition objectType := "obj".
Definition indexedType := "indexed".
Definition oneOfType := "oneOf".

Definition stepType (v : Schema) (p : Path) : Comp string :=
  match v with
  | SStr name => Done name
  | SFn _ => Done functionType
  | SPred _ _ _ => Done predType
  | SOptional _ _ => Done optionalType
  | SEnum _ => Done enumType
  | SObj _ => Done objectType
  | SIndexed _ => Done indexedType
  | SOneOf _ => Done oneOfType
  | SArr _ | SOther _ =>
      Raise (AuthoringError p "Cannot determine type of validator step"
                            (Some (DFound v)))
  end.

Definition isCompatible (x y : string) : bool :=
  if (x =? predType) || (y =? predType) then true
  else if (x =? functionType) || (y =? functionType) then true
  else if x =? enumType then y =? enumType
  else if x =? objectType then y =? objectType
  else if (x =? "array") && (y =? indexedType) then true
  else if ((x =? "string") || (x =? "array")) && (y =? "non-empty") then true
  else if (x =? "number") || (y =? "integer") then true
  else false.

(* ------------------------------------------------------------------ *)
(** ** Optional *)

Definition optionalCheck (v : FnV) (validatedFallback : Value) : FnV :=
  fun x => if isNullish x then Normal (ok validatedFallback) else v x.

Definition compileOptional (compile : Compiler) (inner : Schema)
  (fallback : Value) (p : Path) : Comp FnV :=
  v <- compile inner p ;;
  match v fallback with
  | Throw e => Raise (Raised e)
  | Normal (Failure errors) =>
      Raise (AuthoringError p
               "Fallback for optional value does not meet its own requirements"
               (Some (DErrors errors)))
  | Normal (Success value) => Done (optionalCheck v value)
  end.

(** [isOptional]: on an array it looks at the first element, and [v[0]] of
    an empty array is undefined. *)
Fixpoint isOptional (v : Schema) (p : Path) : Comp bool :=
  match v with
  | SArr [] => ty <- stepType (SOther VUndefined) p ;; Done (ty =? optionalType)
  | SArr (v0 :: _) => isOptional v0 p
  | _ => ty <- stepType v p ;; Done (ty =? optionalType)
  end.

(* ------------------------------------------------------------------ *)
(** ** Enum *)

Definition isLiteral (v : Value) : bool :=
  let ty := typeof v in
  (ty =? "string") || (ty =? "number") || (ty =? "boolean").

Definition compileEnum (options : Value) (p : Path) : Comp FnV :=
  match options with
  | VArr opts =>
      let badOptions := filter (fun v => negb (isLiteral v)) opts in
      if (0 <? List.length badOptions)%nat then
        Raise (AuthoringError p "`V.enum` can only accept literal values as options"
                              (Some (DUnexpected (VArr badOptions))))
      else
        Done (basic (fun x => Normal (includes opts x)) "Unexpected value" p
                    (Some (expected options)))
  | _ =>
      Raise (AuthoringError p "`V.enum` expects an array of options as an argument"
                            (Some (DUnexpected options)))
  end.

(* ------------------------------------------------------------------ *)
(** ** Object *)

(** [xs.filter(f)] where [f] may throw an authoring error. *)
Fixpoint filterComp {A} (f : A -> Comp bool) (xs : list A) : Comp (list A) :=
  match xs with
  | [] => Done []
  | x :: rest =>
      b <- f x ;; ys <- filterComp f rest ;; Done (if b then x :: ys else ys)
  end.

(** The check [compileObject] returns. *)
Definition objectCheck (expectedKeys requiredKeys : list string)
  (propValidators : list (string * FnV)) (p : Path) : FnV :=
  fun x =>
    cbind (objectKeys x) (fun keys =>
      let missingKeys := filter (fun k => negb (includesKey keys k)) requiredKeys in
      if (0 <? List.length missingKeys)%nat then
        Normal (fail "Missing expected properties" p
                     (Some (expected (VArr (map VStr missingKeys)))))
      else
        let unexpectedKeys :=
          filter (fun k => negb (includesKey expectedKeys k)) keys in
        if (0 <? List.length unexpectedKeys)%nat then
          Normal (fail "Found unexpected properties" p
                       (Some (unexpected (VArr (map VStr unexpectedKeys)))))
        else
          cbind (cmap (fun kv : string * FnV =>
                         let (k, v) := kv in
                         cbind (getProp x k) (fun xk =>
                         cbind (v xk) (fun r =>
                         Normal (rmap r (fun y => VArr [VStr k; y])))))
                      propValidators)
                (fun results => Normal (rmap (gather results) fromEntries))).

Definition compileObject (compile : Compiler) (fields : list (string * Schema))
  (p : Path) : Comp FnV :=
  let expectedKeys := map fst fields in
  required <- filterComp (fun kv : string * Schema =>
                            b <- isOptional (snd kv) p ;; Done (negb b)) fields ;;
  let requiredKeys := map fst required in
  propValidators <- traverse (fun kv : string * Schema =>
                                let (k, v) := kv in
                                c <- compile v (extendPath p (PKey k)) ;;
                                Done (k, c)) fields ;;
  Done (objectCheck expectedKeys requiredKeys propValidators p).

(* ------------------------------------------------------------------ *)
(** ** Indexed *)

Definition indexedCheck (expectedLength : nat) (indexedValidators : list FnV)
  (err : string) (p : Path) : FnV :=
  fun x =>
    cbind (getProp x "length") (fun len =>
      if negb (strictEqNum len (ofNat expectedLength)) then
        Normal (fail err p (Some (found len)))
      else
        cbind (cmap (fun iv : nat * FnV =>
                       let (ix, v) := iv in
                       cbind (getProp x (natToString ix)) v)
                    (withIndex indexedValidators))
              (fun results => Normal (gather results))).

Definition compileIndexed (compile : Compiler) (entries : list Schema)
  (p : Path) : Comp FnV :=
  let expectedLength := List.length entries in
  indexedValidators <- traverse (fun iv : nat * Schema =>
                                   let (ix, v) := iv in
                                   compile v (extendPath p (PIndex ix)))
                                (withIndex entries) ;;
  let err := if (expectedLength =? 1)%nat
             then "Expected array with one entry"
             else ("Expected array with " ++ natToString expectedLength ++ " entries")%string in
  Done (indexedCheck expectedLength indexedValidators err p).

(* ------------------------------------------------------------------ *)
(** ** OneOf *)

(** The [for] loop of the check of [compileOneOf]: [errors] is the array
    the loop pushes to. *)
Fixpoint oneOfLoop (vs : list FnV) (errors : list VError) (x : Value)
  : Completion Result :=
  match vs with
  | [] => Normal (Failure errors)
  | v :: rest =>
      match v x with
      | Throw e => Throw e
      | Normal (Success value) => Normal (Success value)
      | Normal (Failure es) => oneOfLoop rest (errors ++ es) x
      end
  end.

Definition oneOfCheck (vs : list FnV) : FnV :=
  fun x => oneOfLoop vs [] x.

Definition branchLabel (ix : nat) : PathStep :=
  PKey ("Branch " ++ natToString ix)%string.

Definition compileOneOf (compile : Compiler) (branches : list Schema)
  (p : Path) : Comp FnV :=
  vs <- traverse (fun iv : nat * Schema =>
                    let (ix, v) := iv in
                    compile v (extendPath p (branchLabel ix)))
                 (withIndex branches) ;;
  Done (oneOfCheck vs).

(* ------------------------------------------------------------------ *)
(** ** Chains *)

(** [flatMap] over the field lists of a run of steps of kind "obj". A step
    of that kind that is not an object validator (the string "obj") has no
    [fields]: the source keeps the undefined it reads as an entry, which
    [compileObject] cannot destructure; it contributes no field here. *)
Definition objectMerger (vs : list Schema) : Schema :=
  SObj (flat_map (fun v => match v with SObj fields => fields | _ => [] end) vs).

(** [flatMap] splices an array and keeps any other value as one element:
    the options of an enum that are not an array, and the undefined that
    [v.options] reads on a step of kind "enum" that is not an enum (the
    string "enum"). *)
Definition enumMerger (vs : list Schema) : Schema :=
  SEnum (VArr (flat_map (fun v => match v with
                                  | SEnum (VArr options) => options
                                  | SEnum options => [options]
                                  | _ => [VUndefined]
                                  end) vs)).

(** [mergers[ty]] for the kinds that the table holds. The test
    [ty in mergers] of the source also holds for the names that [mergers]
    inherits from [Object.prototype]; a step of such a kind never compiles,
    and the statements that name the error a chain ends with are about the
    kinds of [ValidatorType]. *)
Definition mergers (ty : string) : option (list Schema -> Schema) :=
  if ty =? objectType then Some objectMerger
  else if ty =? enumType then Some enumMerger
  else None.

(** [v == s] for [s] one of ["non-empty"] and ["integer"]. A string is
    compared as it is. An array is converted with [join(",")]: it equals
    [s], which holds no comma, exactly when it has one element and that
    element does. A function, an object or another primitive never
    converts to [s]. *)
Fixpoint looselyEquals (v : Schema) (s : string) : bool :=
  match v with
  | SStr name => name =? s
  | SArr [x] => looselyEquals x s
  | _ => false
  end.

Definition isRefinement (v : Schema) : bool :=
  if looselyEquals v "non-empty" then true
  else if looselyEquals v "integer" then true
  else false.

Definition checkStart (v : Schema) (p : Path) : Comp unit :=
  if negb (isRefinement v) then Done tt
  else
    ty <- stepType v p ;;
    Raise (AuthoringError p
             ("Validator type " ++ printCode ty ++
              " cannot appear at the start of a chain")%string None).

Definition compileStep (compile : Compiler) (v : Schema) (p : Path) : Comp FnV :=
  match v with
  | SStr name => compileBasic name p
  | SFn fn => Done (compileFunction fn p)
  | SPred fn err dt => compilePredicate fn err dt p
  | SOptional inner fallback => compileOptional compile inner fallback p
  | SEnum options => compileEnum options p
  | SObj fields => compileObject compile fields p
  | SIndexed entries => compileIndexed compile entries p
  | SOneOf branches => compileOneOf compile branches p
  | SArr _ | SOther _ =>
      Raise (AuthoringError p "Could not compile unrecognised validator step"
                            (Some (DFound v)))
  end.

(** The callback of [mergedSteps.reduce] applied from [prev] on. *)
Fixpoint checkFollows (prev : Schema) (rest : list Schema) (p : Path)
  : Comp Schema :=
  match rest with
  | [] => Done prev
  | curr :: rest' =>
      prevType <- stepType prev p ;;
      currType <- stepType curr p ;;
      if isCompatible prevType currType then checkFollows curr rest' p
      else Raise (AuthoringError p
                    ("Validator type " ++ printCode currType ++
                     " cannot follow " ++ printCode prevType)%string None)
  end.

(** [mergedSteps.reduce(...)] without an initial value. *)
Definition checkAdjacent (mergedSteps : list Schema) (p : Path) : Comp Schema :=
  match mergedSteps with
  | [] => Raise (Raised (TypeError "Reduce of empty array with no initial value"))
  | v :: rest => checkFollows v rest p
  end.

(** The callback of [compiledSteps.reduce]; a step that threw has ended
    the evaluation, which the running [Throw] stands for. *)
Definition chainStep (result : Completion Result) (v : FnV) : Completion Result :=
  match result with
  | Normal (Success value) => v value
  | _ => result
  end.

(** The check a chain compiles to: the [reduce] over the compiled steps. *)
Definition chainCheck (compiledSteps : list FnV) : FnV :=
  fun x => fold_left chainStep compiledSteps (Normal (ok x)).

Definition groupType (g : list (string * Schema)) : string :=
  match g with
  | (ty, _) :: _ => ty
  | [] => ""
  end.

Definition mergeGroups (typed : list (string * Schema)) : list Schema :=
  let groups :=
    map (fun g => (groupType g, map snd g))
        (group typed (fun x y => fst x =? fst y)) in
  flat_map (fun g : string * list Schema =>
              match mergers (fst g) with
              | Some merger => [merger (snd g)]
              | None => snd g
              end) groups.

Definition compileChain (compile : Compiler) (vs : list Schema) (p : Path)
  : Comp FnV :=
  match vs with
  | [] => Raise (AuthoringError p "Cannot compile an empty chain" None)
  | v0 :: rest =>
      _ <- checkStart v0 p ;;
      match rest with
      | [] => compileStep compile v0 p
      | _ :: _ =>
          typed <- traverse (fun v => ty <- stepType v p ;; Done (ty, v)) vs ;;
          let mergedSteps := mergeGroups typed in
          _ <- checkAdjacent mergedSteps p ;;
          compiledSteps <- traverse (fun v => compileStep compile v p) mergedSteps ;;
          Done (chainCheck compiledSteps)
      end
  end.

(** [input.flat()]. *)
Definition flat (input : list Schema) : list Schema :=
  flat_map (fun v => match v with SArr items => items | _ => [v] end) input.

(** The body of [compile], with the function to call at the recursive
    calls as its first argument. *)
Definition compileWith (compile : Compiler) (input : Schema) (p : Path)
  : Comp FnV :=
  match input with
  | SArr items => compileChain compile (flat items) p
  | _ => _ <- checkStart input p ;; compileStep compile input p
  end.

(** Nesting depth of a schema: the recursion of [compile] descends one
    level of it at each call. *)
Fixpoint depth (s : Schema) : nat :=
  match s with
  | SOptional inner _ => S (depth inner)
  | SObj fields => S (list_max (map (fun kv : string * Schema => depth (snd kv)) fields))
  | SIndexed entries => S (list_max (map depth entries))
  | SOneOf branches => S (list_max (map depth branches))
  | SArr items => S (list_max (map depth items))
  | _ => 0
  end.

Fixpoint compileFuel (fuel : nat) (input : Schema) (p : Path) : Comp FnV :=
  match fuel with
  | O => Raise (Raised (mkJsError "RangeError" "Maximum call stack size exceeded"))
  | S fuel' => compileWith (compileFuel fuel') input p
  end.

(** [compile]: the recursion is run with more fuel than the schema is
    deep, so that it never runs out ([compile_unfold] below). *)
Definition compile (input : Schema) (p : Path) : Comp FnV :=
  compileFuel (S (depth input)) input p.

Definition publicCompile (input : Schema) : Comp FnV :=
  compile input [].

End Compilers.

(* ------------------------------------------------------------------ *)
(** ** Notions used to state the properties *)

(** The direct sub-schemas of a step: those [compileStep] passes to
    [compile]. *)
Definition children (v : Schema) : list Schema :=
  match v with
  | SOptional inner _ => [inner]
  | SObj fields => map snd fields
  | SIndexed entries => entries
  | SOneOf branches => branches
  | _ => []
  end.

(** [Array.isArray(v)] on a schema. *)
Definition isChain (v : Schema) : bool :=
  match v with SArr _ => true | _ => false end.

(** [p] is an initial segment of [q]. *)
Definition hasPrefix (p q : Path) : Prop := exists s, q = p ++ s.

(** Every error of a result is located at or below [p]. *)
Definition errorsUnder (p : Path) (r : Result) : Prop :=
  Forall (fun e => hasPrefix p (path e)) (errorsOf r).

(** The property names of [Object.prototype]. *)
Definition objectPrototypeNames : list string :=
  ["constructor"; "hasOwnProperty"; "isPrototypeOf"; "propertyIsEnumerable";
   "toLocaleString"; "toString"; "valueOf"; "__proto__";
   "__defineGetter__"; "__defineSetter__"; "__lookupGetter__"; "__lookupSetter__"].

(** A runtime whose string conversions are constant, to run the checks on
    inputs that never reach them; an object inherits the members of
    [Object.prototype], named after their property here. *)
Definition nanRuntime : JsRuntime :=
  {| StringToNumber := fun _ => NaN;
     ObjectToString := fun _ => Normal "";
     protoGet := fun x k =>
       match x with
       | VObj _ => if includesKey objectPrototypeNames k then VFunction k
                   else VUndefined
       | _ => VUndefined
       end |}.

Definition num (z : Z) : Value := VNum (Finite (z # 1)).

(** A field is required when [isOptional] returns false on its schema. *)
Definition isRequired (p : Path) (kv : string * Schema) : bool :=
  match isOptional (snd kv) p with
  | Done b => negb b
  | Raise _ => false
  end.

(** [x[k]] on an object: its own property, and what the prototype chain
    holds when it has none of that name. *)
Definition field {rt : JsRuntime} (props : list (string * Value)) (k : string)
  : Value :=
  match lookup k props with
  | Some v => v
  | None => protoGet (VObj props) k
  end.

(** The entry [[k, y]] that [compileObject] builds for a validated field. *)
Definition entry (ky : string * Value) : Value :=
  VArr [VStr (fst ky); snd ky].

(** The names that write an array index. *)
Definition isIndexName (k : string) : bool :=
  match arrayIndex k with Some _ => true | None => false end.

(** The names of a list that are not array indices. *)
Definition otherNames (ks : list string) : list string :=
  filter (fun k => negb (isIndexName k)) ks.

(** The names of a list, each at the place of its first occurrence. *)
Definition firstOccurrences (ks : list string) : list string :=
  fold_left (fun seen k => if includesKey seen k then seen else seen ++ [k]) ks [].

(** The names [ks] are array indices in strictly ascending order, all
    above [lo], followed by names that are not array indices. *)
Fixpoint enumeratedFrom (lo : option N) (ks : list string) : Prop :=
  match ks with
  | [] => True
  | k :: rest =>
      match arrayIndex k with
      | Some n =>
          match lo with Some m => (m < n)%N | None => True end
          /\ enumeratedFrom (Some n) rest
      | None => Forall (fun k' => arrayIndex k' = None) rest
      end
  end.

(** The order in which a JS object enumerates its property names: the
    array indices first, ascending, then the other names. *)
Definition enumerationOrder (ks : list string) : Prop := enumeratedFrom None ks.

(** The compatibility lattice as the specification lists it, to compare
    [isCompatible] with: predicate and function go with everything, and
    otherwise the pair is one of the six listed ones. *)
Definition latticeCompatible (x y : string) : bool :=
  (x =? predType) || (y =? predType) || (x =? functionType) || (y =? functionType)
  || ((x =? enumType) && (y =? enumType))
  || ((x =? objectType) && (y =? objectType))
  || ((x =? "array") && (y =? indexedType))
  || ((x =? "array") && (y =? "non-empty"))
  || ((x =? "string") && (y =? "non-empty"))
  || ((x =? "number") && (y =? "integer")).

(** The pairs the last test of [isCompatible] lets through: it is reached
    when [x] is neither "enum" nor "obj", and holds as soon as [x] is
    "number" or [y] is "integer". *)
Definition lastTestAccepts (x y : string) : bool :=
  negb (x =? enumType) && negb (x =? objectType)
  && ((x =? "number") || (y =? "integer")).

(** The object schema of the test suite. *)
Definition pointSchema : list (string * Schema) :=
  [("x", SStr "number"); ("y", SStr "number");
   ("polar", optional (SStr "boolean") (VBool false))].

(** Every result a check returns has its errors at or below [p]. *)
Definition checkUnder (p : Path) (f : FnV) : Prop :=
  forall x r, f x = Normal r -> errorsUnder p r.

(* ------------------------------------------------------------------ *)
(** ** Notions used to state further properties *)

(** Every two neighbours of [l] are related by [f]. *)
Fixpoint linked {A} (f : A -> A -> bool) (l : list A) : Prop :=
  match l with
  | x :: (y :: _) as rest => f x y = true /\ linked f rest
  | _ => True
  end.

Definition lastItem {A} (l : list A) : option A := hd_error (rev l).

(** From one group to the next, [f] fails between the last item of the
    first and the first item of the second. *)
Fixpoint separated {A} (f : A -> A -> bool) (gs : list (list A)) : Prop :=
  match gs with
  | g :: (h :: _) as rest =>
      (forall a b, lastItem g = Some a -> hd_error h = Some b -> f a b = false)
      /\ separated f rest
  | _ => True
  end.

(** A check that returns a result on every input. *)
Definition neverThrows (f : FnV) : Prop :=
  forall x, exists r, f x = Normal r.

(** A check that passes its input through unchanged or reports one error
    at [p]. *)
Definition passesOrFailsAt (p : Path) (f : FnV) : Prop :=
  forall x r, f x = Normal r ->
    r = Success x \/ exists msg d, r = fail msg p d.

(** The numbers ["integer"] accepts: the integers of the safe range. *)
Definition safeInteger (x : Value) : Prop :=
  exists q z, x = VNum (Finite q)
              /\ Qeq q (inject_Z z)
              /\ (-9007199254740991 <= z <= 9007199254740991)%Z.

(** The steps whose kind has a merger. *)
Definition isMergeable (v : Schema) : bool :=
  match v with
  | SObj _ | SEnum _ => true
  | SStr name => (name =? objectType) || (name =? enumType)
  | _ => false
  end.

(** [isCompatible] between the kinds of two steps. *)
Definition compatibleSteps (a b : Schema) : bool :=
  match stepType a [], stepType b [] with
  | Done x, Done y => isCompatible x y
  | _, _ => false
  end.

(** An authoring error thrown by [c] is located at or below [p]. *)
Definition raisesUnder {A} (p : Path) (c : Comp A) : Prop :=
  forall q msg d, c = Raise (AuthoringError q msg d) -> hasPrefix p q.

(** The message of the length test of an indexed check. *)
Definition arityMessage (n : nat) : string :=
  if (n =? 1)%nat then "Expected array with one entry"
  else ("Expected array with " ++ natToString n ++ " entries")%string.

(** The kinds of [ValidatorType]. *)
Definition knownKind (ty : string) : bool :=
  includesKey ["array"; "boolean"; "number"; "integer"; "string"; "non-empty";
               optionalType; enumType; predType; functionType; objectType;
               indexedType; oneOfType] ty.

(** Schemas built without object, indexed, "integer" and "non-empty" steps:
    the steps whose check reads a property of its input or converts it to
    a number. *)
Fixpoint throwFree (s : Schema) : bool :=
  match s with
  | SStr name =>
      (name =? "array") || (name =? "boolean") || (name =? "number")
      || (name =? "string")
  | SFn _ | SPred _ _ _ | SEnum _ => true
  | SOptional inner _ => throwFree inner
  | SOneOf branches => forallb throwFree branches
  | SArr items => forallb throwFree items
  | SObj _ | SIndexed _ | SOther _ => false
  end.

(* ------------------------------------------------------------------ *)
(** ** Printing errors *)

(** [JSON.stringify], which the printer calls on the values that are
    neither arrays, functions, null nor undefined, is left open, and so is
    the source text that [toString] returns for a function. *)
Class JsPrinter := {
  jsonStringify : Value -> string;
  functionToString : string -> string
}.

Definition newline : string := String (ascii_of_nat 10) "".

(** [printCode] on a path step: a property name, or an index, which the
    concatenation converts to its decimal writing. *)
Definition printStep (step : PathStep) : string :=
  match step with
  | PKey name => printCode name
  | PIndex ix => printCode (natToString ix)
  end.

Definition printPath (p : Path) : string :=
  if (0 <? List.length p)%nat
  then String.concat "" (map (fun step => "At " ++ printStep step ++ ": ")%string p)
  else "".

(** The conversion of a caught error to a string ([Error.prototype.toString]). *)
Definition errorString (e : JsError) : string :=
  if ename e =? "" then emessage e
  else if emessage e =? "" then ename e
  else (ename e ++ ": " ++ emessage e)%string.

Section Printing.

Context {pr : JsPrinter}.

(** [printValue] on the values of the model: the primitives and the plain
    objects have the class name of their prototype's constructor, so that
    they are printed by [JSON.stringify] alone. *)
Fixpoint printValue (v : Value) : string :=
  match v with
  | VArr items => ("[" ++ String.concat ", " (map printValue items) ++ "]")%string
  | VFunction name => functionToString name
  | VNull => "null"
  | VUndefined => "undefined"
  | _ => jsonStringify v
  end.

Definition printMultipleValues (vs : Value) : string :=
  match vs with
  | VArr items => String.concat ", " (map printValue items)
  | _ => printValue vs
  end.

(** The branch of [printError] for details that are not an array. *)
Definition printDetails (msg : string) (d : option ErrorDetails) : string :=
  match d with
  | Some (found v) => (msg ++ ", found: " ++ printValue v)%string
  | Some (expected vs) => (msg ++ ", expected: " ++ printMultipleValues vs)%string
  | Some (unexpected vs) => (msg ++ ", unexpected: " ++ printMultipleValues vs)%string
  | Some (caught e) => (msg ++ ", inner error: " ++ errorString e)%string
  | None => msg
  end.

(** [VError.toString]: [printError] on the fields of the error, whose
    details are never an array. *)
Definition toString (e : VError) : string :=
  printDetails (printPath (path e) ++ message e)%string (details e).

(** [printError]; its third argument is absent, details, or the array of
    errors of a failed fallback. *)
Definition printError (p : Path) (err : string)
  (d : option (ErrorDetails + list VError)) : string :=
  let msg := (printPath p ++ err)%string in
  match d with
  | Some (inr errors) =>
      if (0 <? List.length errors)%nat
      then (msg ++ ":" ++ newline ++ "  "
            ++ String.concat (newline ++ "  ") (map toString errors))%string
      else msg
  | Some (inl dt) => printDetails msg (Some dt)
  | None => msg
  end.

End Printing.

(* ------------------------------------------------------------------ *)
(** ** Relocating a compiled check *)

(** The errors of a failure after [Result.at]. *)
Definition rebase (p : Path) (es : list VError) : list VError :=
  errorsOf (at_ (Failure es) p).

(** An authoring error moved under [p], with the errors it carries. *)
Definition relocateExn (p : Path) (e : Exn) : Exn :=
  match e with
  | AuthoringError q msg d =>
      AuthoringError (p ++ q) msg
        match d with
        | Some (DErrors es) => Some (DErrors (rebase p es))
        | _ => d
        end
  | Raised _ => e
  end.

Definition relocateOutcome (p : Path) (c : Completion Result) : Completion Result :=
  match c with
  | Normal r => Normal (at_ r p)
  | Throw e => Throw e
  end.

(** [f] is [g] with its results rebased under [p]. *)
Definition relocated (p : Path) (g f : FnV) : Prop :=
  forall x, f x = relocateOutcome p (g x).

(** Two compilations that end alike: with results related by [R], or with
    the same error, the second moved under [p]. *)
Definition related {A B} (p : Path) (R : A -> B -> Prop)
  (c1 : Comp A) (c2 : Comp B) : Prop :=
  match c1, c2 with
  | Done a, Done b => R a b
  | Raise e1, Raise e2 => e2 = relocateExn p e1
  | _, _ => False
  end.

(** The steps that wrap caller code and compile: a function, or a
    predicate with a non-empty message. *)
Definition isCallerStep (v : Schema) : bool :=
  match v with
  | SFn _ => true
  | SPred _ (Some e) _ => negb (e =? "")
  | _ => false
  end.

(* ------------------------------------------------------------------ *)
(** * Properties *)

(** ** Lists, [traverse] and [group] *)

Lemma traverse_ext_in {A B} (f g : A -> Comp B) (xs : list A) :
  (forall x, In x xs -> f x = g x) -> traverse f xs = traverse g xs.
Proof.
  induction xs as [|x xs IH]; intros H; simpl; [reflexivity|].
  rewrite (H x (or_introl eq_refl)).
  rewrite IH; [reflexivity|].
  intros y Hy. apply H. now right.
Qed.

Lemma traverse_Done_map {A B} (f : A -> Comp B) (g : B -> A) (xs : list A) ys :
  (forall x y, f x = Done y -> g y = x) ->
  traverse f xs = Done ys -> map g ys = xs.
Proof.
  intros Hfg. revert ys.
  induction xs as [|x xs IH]; intros ys; simpl.
  - intros [= <-]. reflexivity.
  - destruct (f x) as [y|e] eqn:Hfx; simpl; [|discriminate].
    destruct (traverse f xs) as [ys'|e]; simpl; [|discriminate].
    intros [= <-]. simpl. rewrite (Hfg _ _ Hfx), (IH ys' eq_refl). reflexivity.
Qed.

Lemma In_withIndex {A} (xs : list A) ix x :
  In (ix, x) (withIndex xs) -> In x xs.
Proof. unfold withIndex. apply in_combine_r. Qed.

Lemma list_max_In (f : Schema -> nat) (xs : list Schema) x :
  In x xs -> f x <= list_max (map f xs).
Proof.
  induction xs as [|y ys IH]; simpl; [tauto|].
  intros [->|H]; [lia|]. specialize (IH H). lia.
Qed.

Lemma groupFrom_concat {A} (f : A -> A -> bool) (xs : list A) prev run later :
  groupFrom f prev xs = (run, later) -> run ++ List.concat later = xs.
Proof.
  revert prev run later.
  induction xs as [|y ys IH]; intros prev run later; simpl.
  - intros [= <- <-]. reflexivity.
  - destruct (groupFrom f y ys) as [run' later'] eqn:E.
    specialize (IH _ _ _ E).
    destruct (f prev y); intros [= <- <-]; simpl; now rewrite IH.
Qed.

Lemma group_concat {A} (f : A -> A -> bool) (xs : list A) :
  List.concat (group xs f) = xs.
Proof.
  destruct xs as [|x xs]; simpl; [reflexivity|].
  destruct (groupFrom f x xs) as [run later] eqn:E.
  simpl. now rewrite (groupFrom_concat _ _ _ E).
Qed.

Lemma group_In {A} (f : A -> A -> bool) (xs g : list A) x :
  In g (group xs f) -> In x g -> In x xs.
Proof.
  intros Hg Hx. rewrite <- (group_concat f xs).
  apply in_concat. now exists g.
Qed.

(** ** The recursion of [compile] *)

Lemma depth_child c v : In c (children v) -> depth c < depth v.
Proof.
  destruct v; simpl; try tauto.
  - intros [->|[]]. lia.
  - intros H. apply in_map_iff in H as [[k s] [<- H]].
    pose proof (list_max_In (fun s => depth s) (map snd fields) s) as L.
    rewrite map_map in L. simpl in *.
    assert (In s (map snd fields)) by (apply in_map_iff; now exists (k, s)).
    specialize (L H0). lia.
  - intros H. pose proof (list_max_In depth entries c H). lia.
  - intros H. pose proof (list_max_In depth branches c H). lia.
Qed.

Lemma depth_item c items : In c items -> depth c < depth (SArr items).
Proof. intros H. simpl. pose proof (list_max_In depth items c H). lia. Qed.

Lemma flat_In v items :
  In v (flat items) ->
  In v items \/ exists its, In (SArr its) items /\ In v its.
Proof.
  unfold flat. rewrite in_flat_map. intros [w [Hw Hv]].
  destruct w; simpl in Hv;
    try (destruct Hv as [<-|[]]; now left).
  right. now exists items0.
Qed.

Section Recursion.

Context {rt : JsRuntime}.
Variables compile1 compile2 : Compiler.

Lemma compileStep_ext v p :
  (forall c p', In c (children v) -> compile1 c p' = compile2 c p') ->
  compileStep compile1 v p = compileStep compile2 v p.
Proof.
  intros H. destruct v; simpl in *; try reflexivity.
  - unfold compileOptional. rewrite H by now left. reflexivity.
  - unfold compileObject.
    match goal with
    | |- context [filterComp ?f fields] => destruct (filterComp f fields)
    end; simpl; [|reflexivity].
    erewrite traverse_ext_in; [reflexivity|].
    intros [k s] Hk. rewrite H; [reflexivity|].
    apply in_map_iff. now exists (k, s).
  - unfold compileIndexed.
    erewrite traverse_ext_in; [reflexivity|].
    intros [ix s] Hs. apply H. eapply In_withIndex; eauto.
  - unfold compileOneOf.
    erewrite traverse_ext_in; [reflexivity|].
    intros [ix s] Hs. apply H. eapply In_withIndex; eauto.
Qed.

(** A child of a merged step is a child of a step of the chain. *)
Lemma mergeGroups_children typed m c :
  In m (mergeGroups typed) -> In c (children m) ->
  exists v, In v (map snd typed) /\ In c (children v).
Proof.
  unfold mergeGroups. rewrite in_flat_map.
  intros [[ty steps] [Hg Hm]] Hc. simpl in Hm.
  apply in_map_iff in Hg as [g [[= <- <-] Hg]].
  assert (Hsub : forall v, In v (map snd g) -> In v (map snd typed)).
  { intros v Hv. apply in_map_iff in Hv as [tv [<- Htv]].
    apply in_map. eapply group_In; eauto. }
  unfold mergers in Hm.
  destruct (groupType g =? objectType).
  { destruct Hm as [<-|[]]. simpl in Hc.
    apply in_map_iff in Hc as [[k s] [<- Hks]].
    apply in_flat_map in Hks as [v [Hv Hks]].
    exists v. split; [now apply Hsub|].
    destruct v; simpl in Hks; try tauto.
    simpl. apply in_map_iff. now exists (k, s). }
  destruct (groupType g =? enumType).
  { destruct Hm as [<-|[]]. simpl in Hc. tauto. }
  exists m. split; [now apply Hsub|assumption].
Qed.

Lemma typed_steps (vs : list Schema) p typed :
  traverse (fun v => ty <- stepType v p ;; Done (ty, v)) vs = Done typed ->
  map snd typed = vs.
Proof.
  apply traverse_Done_map.
  intros x [ty v]. destruct (stepType x p); simpl; [|discriminate].
  now intros [= <- <-].
Qed.

Lemma compileChain_ext vs p :
  (forall v c p', In v vs -> In c (children v) -> compile1 c p' = compile2 c p') ->
  compileChain compile1 vs p = compileChain compile2 vs p.
Proof.
  intros H. unfold compileChain.
  destruct vs as [|v0 rest]; [reflexivity|].
  destruct (checkStart v0 p); cbn [bind]; [|reflexivity].
  destruct rest as [|v1 rest].
  { apply compileStep_ext. intros c p' Hc. eapply H; eauto. now left. }
  match goal with
  | |- context [traverse ?f (v0 :: v1 :: rest)] =>
      destruct (traverse f (v0 :: v1 :: rest)) as [typed|e] eqn:Ht
  end; [|reflexivity].
  cbn [bind].
  destruct (checkAdjacent (mergeGroups typed) p); simpl; [|reflexivity].
  erewrite traverse_ext_in; [reflexivity|].
  intros m Hm. apply compileStep_ext. intros c p' Hc.
  destruct (mergeGroups_children _ _ _ Hm Hc) as [v [Hv Hcv]].
  rewrite (typed_steps _ _ Ht) in Hv. eapply H; eauto.
Qed.

Lemma compileWith_ext s p :
  (forall c p', depth c < depth s -> compile1 c p' = compile2 c p') ->
  compileWith compile1 s p = compileWith compile2 s p.
Proof.
  intros H.
  assert (Hstep : compileStep compile1 s p = compileStep compile2 s p).
  { apply compileStep_ext. intros c p' Hc. apply H. now apply depth_child. }
  destruct s; unfold compileWith; try (rewrite Hstep; reflexivity).
  apply compileChain_ext. intros v c p' Hv Hc. apply H.
  pose proof (depth_child _ _ Hc).
  apply flat_In in Hv as [Hv|[its [Hits Hv]]].
  - pose proof (depth_item _ _ Hv). lia.
  - pose proof (depth_item _ _ Hits). pose proof (depth_item _ _ Hv). lia.
Qed.

End Recursion.

Section Fixpoint_equation.

Context {rt : JsRuntime}.

Lemma compileFuel_stable n : forall m s p,
  depth s < n -> depth s < m -> compileFuel n s p = compileFuel m s p.
Proof.
  induction n as [|n IH]; intros m s p Hn Hm; [lia|].
  destruct m as [|m]; [lia|]. simpl.
  apply compileWith_ext. intros c p' Hc. apply IH; lia.
Qed.

(** [compile] satisfies the recursive equation of the source. *)
Lemma compile_unfold s p : compile s p = compileWith compile s p.
Proof.
  unfold compile at 1. simpl.
  apply compileWith_ext. intros c p' Hc.
  unfold compile. apply compileFuel_stable; lia.
Qed.

End Fixpoint_equation.

(** ** [compile] on a chain and on a single step *)

Lemma compile_chain {rt : JsRuntime} items p :
  compile (SArr items) p = compileChain compile (flat items) p.
Proof. now rewrite compile_unfold. Qed.

Lemma compile_step {rt : JsRuntime} s p :
  isChain s = false ->
  compile s p = (_ <- checkStart s p ;; compileStep compile s p).
Proof. intros H. rewrite compile_unfold. destruct s; try reflexivity. discriminate. Qed.

(** ** Refinements at the head of a chain *)

Lemma checkStart_refinement k p :
  k = "non-empty" \/ k = "integer" ->
  checkStart (SStr k) p =
  Raise (AuthoringError p
           ("Validator type `" ++ k ++ "` cannot appear at the start of a chain")%string
           None).
Proof. intros [->| ->]; reflexivity. Qed.

(** C9: a schema that is a bare refinement step ("non-empty" or "integer"),
    and a chain whose first step (after flattening) is one, never compile:
    compilation throws the authoring error that names the kind. *)
Theorem refinement_cannot_start_a_chain {rt : JsRuntime} (k : string) (p : Path) :
  k = "non-empty" \/ k = "integer" ->
  let err := AuthoringError p
               ("Validator type `" ++ k ++ "` cannot appear at the start of a chain")%string
               None in
  compile (SStr k) p = Raise err
  /\ (forall rest, compile (SArr (SStr k :: rest)) p = Raise err)
  /\ (forall items rest, flat items = SStr k :: rest ->
        compile (SArr items) p = Raise err)
  /\ (forall items rest f, flat items = SStr k :: rest ->
        compile (SArr items) p <> Done f).
Proof.
  intros Hk err.
  assert (Hflat : forall items rest, flat items = SStr k :: rest ->
                    compile (SArr items) p = Raise err).
  { intros items rest Hf. rewrite compile_chain, Hf. unfold compileChain.
    now rewrite (checkStart_refinement p Hk). }
  repeat split.
  - rewrite compile_step by reflexivity.
    now rewrite (checkStart_refinement p Hk).
  - intros rest. apply (Hflat _ (flat rest)). reflexivity.
  - exact Hflat.
  - intros items rest f Hf. rewrite (Hflat _ _ Hf). discriminate.
Qed.

Lemma refinement_cannot_start_a_chain_witness :
  ("integer" = "non-empty" \/ "integer" = "integer")
  /\ @compile nanRuntime (SArr [SStr "integer"; SStr "number"]) [] =
     Raise (AuthoringError []
              "Validator type `integer` cannot appear at the start of a chain" None).
Proof.
  split; [right; reflexivity|].
  exact (proj1 (proj2 (@refinement_cannot_start_a_chain nanRuntime "integer" []
                         (or_intror eq_refl))) [SStr "number"]).
Defined.

(** ** Flattening *)

Lemma flat_no_chain vs :
  forallb (fun v => negb (isChain v)) vs = true -> flat vs = vs.
Proof.
  induction vs as [|v vs IH]; simpl; [reflexivity|].
  intros H. apply andb_true_iff in H as [Hv Hvs].
  unfold flat in *. simpl. rewrite (IH Hvs).
  destruct v; try reflexivity. discriminate.
Qed.

Lemma flat_splice pre inner post :
  flat (pre ++ SArr inner :: post) = flat pre ++ inner ++ flat post.
Proof. unfold flat. rewrite flat_map_app. reflexivity. Qed.

Lemma flat_step v rest : isChain v = false -> flat (v :: rest) = v :: flat rest.
Proof. destruct v; try reflexivity. discriminate. Qed.

Lemma typing_a_chain_throws (vs : list Schema) p :
  existsb isChain vs = true ->
  exists e, traverse (fun v => ty <- stepType v p ;; Done (ty, v)) vs = Raise e.
Proof.
  induction vs as [|v vs IH]; simpl; [discriminate|].
  intros H. apply orb_true_iff in H as [Hv|Hvs].
  - destruct v; try discriminate. simpl. eauto.
  - destruct (IH Hvs) as [e He]. rewrite He.
    destruct (stepType v p); simpl; eauto.
Qed.

(** C10: a schema that is a sequence is flattened one level before chain
    compilation: a nested sequence is spliced in place of the element it
    was, a step stays, and compiling the sequence is compiling the chain of
    the flattened steps; a sequence left inside after that one level is not
    flattened again, and compilation rejects it. *)
Theorem chains_are_flattened_once {rt : JsRuntime} (items : list Schema) (p : Path) :
  (forall pre inner post,
     flat (pre ++ SArr inner :: post) = flat pre ++ inner ++ flat post)
  /\ (forall v rest, isChain v = false -> flat (v :: rest) = v :: flat rest)
  /\ compile (SArr items) p = compileChain compile (flat items) p
  /\ (forallb (fun v => negb (isChain v)) (flat items) = true ->
      compile (SArr items) p = compile (SArr (flat items)) p)
  /\ (existsb isChain (flat items) = true ->
      exists e, compile (SArr items) p = Raise e).
Proof.
  split; [exact flat_splice|]. split; [exact flat_step|].
  split; [apply compile_chain|]. split.
  - intros H. rewrite !compile_chain. now rewrite (flat_no_chain _ H).
  - intros H. rewrite compile_chain. unfold compileChain.
    destruct (flat items) as [|v0 rest]; [discriminate|].
    destruct (checkStart v0 p); cbn [bind]; [|eauto].
    destruct rest as [|v1 rest].
    + simpl in H. rewrite orb_false_r in H.
      destruct v0; try discriminate. simpl. eauto.
    + destruct (typing_a_chain_throws (v0 :: v1 :: rest) p H) as [e He].
      rewrite He. simpl. eauto.
Qed.

Lemma chains_are_flattened_once_witness :
  forallb (fun v => negb (isChain v))
          (flat [SStr "string"; SArr [SStr "non-empty"; SFn (fun x => Normal (RetResult (ok x)))]]) = true
  /\ @compile nanRuntime
       (SArr [SStr "string"; SArr [SStr "non-empty"; SFn (fun x => Normal (RetResult (ok x)))]]) [] =
     @compile nanRuntime
       (SArr [SStr "string"; SStr "non-empty"; SFn (fun x => Normal (RetResult (ok x)))]) []
  /\ existsb isChain (flat [SStr "string"; SArr [SArr [SStr "non-empty"]]]) = true
  /\ exists e, @compile nanRuntime
                 (SArr [SStr "string"; SArr [SArr [SStr "non-empty"]]]) [] = Raise e.
Proof.
  split; [reflexivity|]. split.
  - exact (proj1 (proj2 (proj2 (proj2 (@chains_are_flattened_once nanRuntime
             [SStr "string"; SArr [SStr "non-empty"; SFn (fun x => Normal (RetResult (ok x)))]] []))))
             eq_refl).
  - split; [reflexivity|].
    exact (proj2 (proj2 (proj2 (proj2 (@chains_are_flattened_once nanRuntime
             [SStr "string"; SArr [SArr [SStr "non-empty"]]] [])))) eq_refl).
Defined.

(** ** Optional *)



(** ** [gather] *)

Lemma filter_failures_of_successes (values : list Value) :
  filter (fun r => negb (isOk r)) (map Success values) = [].
Proof. induction values; simpl; auto. Qed.

Lemma errors_of_failures (results : list Result) :
  flat_map errorsOf (filter (fun r => negb (isOk r)) results) =
  flat_map errorsOf results.
Proof.
  induction results as [|[v|es] rs IH]; simpl; auto.
  now rewrite IH.
Qed.

Lemma failures_not_empty (results : list Result) :
  existsb (fun r => negb (isOk r)) results = true ->
  (0 <? List.length (filter (fun r => negb (isOk r)) results))%nat = true.
Proof.
  induction results as [|[v|es] rs IH]; simpl; auto; discriminate.
Qed.

Lemma gather_successes (values : list Value) :
  gather (map Success values) = Success (VArr values).
Proof.
  unfold gather. rewrite filter_failures_of_successes. simpl.
  rewrite map_map. simpl. now rewrite map_id.
Qed.

Lemma gather_failure (results : list Result) :
  existsb (fun r => negb (isOk r)) results = true ->
  gather results = Failure (flat_map errorsOf results).
Proof.
  intros H. unfold gather. rewrite (failures_not_empty _ H).
  now rewrite errors_of_failures.
Qed.

(** C6: [gather] of successes is the success of their values in order;
    as soon as one input is a failure, it is the failure whose errors are
    the errors of all the inputs, concatenated in input order, where a
    success contributes none: every failing input is collected, not only
    the first. *)
Theorem gather_collects_all (results : list Result) :
  (forall values, results = map Success values ->
     gather results = Success (VArr values))
  /\ (existsb (fun r => negb (isOk r)) results = true ->
      gather results = Failure (flat_map errorsOf results)
      /\ forall r e, In r results -> In e (errorsOf r) ->
           In e (errorsOf (gather results))).
Proof.
  split.
  - intros values ->. apply gather_successes.
  - intros H. pose proof (gather_failure _ H) as E.
    split; [exact E|].
    intros r e Hr He. rewrite E. simpl.
    apply in_flat_map. now exists r.
Qed.

Lemma gather_collects_all_witness :
  gather [Success (num 1); Success (VBool true)] = Success (VArr [num 1; VBool true])
  /\ existsb (fun r => negb (isOk r))
        [fail "a" [PIndex 0] None; Success (num 1); fail "b" [PIndex 2] None] = true
  /\ gather [fail "a" [PIndex 0] None; Success (num 1); fail "b" [PIndex 2] None] =
     Failure [mkVError [PIndex 0] "a" None; mkVError [PIndex 2] "b" None].
Proof.
  split.
  - exact (proj1 (gather_collects_all [Success (num 1); Success (VBool true)])
             [num 1; VBool true] eq_refl).
  - split; [reflexivity|].
    exact (proj1 (proj2 (gather_collects_all
             [fail "a" [PIndex 0] None; Success (num 1); fail "b" [PIndex 2] None])
             eq_refl)).
Defined.

(** ** The compatibility test as written *)

Lemma isCompatible_lattice (x y : string) :
  isCompatible x y = latticeCompatible x y || lastTestAccepts x y.
Proof.
  unfold isCompatible, latticeCompatible, lastTestAccepts,
    predType, functionType, enumType, objectType, indexedType.
  repeat match goal with
         | |- context [String.eqb ?a ?b] =>
             destruct (String.eqb_spec a b); subst; cbn
         end; congruence.
Qed.

(** C1 (the code departs from the claim): [isCompatible] accepts the pairs
    of the lattice and, besides them, every pair its last test lets
    through: any kind after "number", and "integer" after any kind but
    "enum" and "obj". So these chains, which the claim rejects, compile. *)
Theorem incompatible_chains_that_compile {rt : JsRuntime} (p : Path) :
  (forall x y, isCompatible x y = latticeCompatible x y || lastTestAccepts x y)
  /\ latticeCompatible "string" "integer" = false
  /\ latticeCompatible "number" "string" = false
  /\ latticeCompatible "number" "non-empty" = false
  /\ isCompatible "string" "integer" = true
  /\ isCompatible "number" "string" = true
  /\ isCompatible "number" "non-empty" = true
  /\ (exists f, compile (SArr [SStr "string"; SStr "integer"]) p = Done f)
  /\ (exists f, compile (SArr [SStr "number"; SStr "string"]) p = Done f)
  /\ (exists f, compile (SArr [SStr "number"; SStr "non-empty"]) p = Done f).
Proof.
  split; [exact isCompatible_lattice|].
  repeat split; try reflexivity; rewrite compile_chain; eexists; reflexivity.
Qed.

(** ** Checks that throw *)

(** C2 (the code departs from the claim): the schemas below compile, and
    the compiled object check throws on null and on undefined, as does the
    compiled indexed check: [Object.keys(x)] and [x.length] are evaluated
    with no guard. The same happens below the root, on a mapping whose
    property is null. *)
Theorem object_and_indexed_checks_throw {rt : JsRuntime} :
  (exists f, compile (object [("x", SStr "number")]) [] = Done f
             /\ f VNull = Throw (TypeError "Cannot convert undefined or null to object")
             /\ f VUndefined = Throw (TypeError "Cannot convert undefined or null to object"))
  /\ (exists f, compile (indexed [SStr "number"]) [] = Done f
                /\ f VNull = Throw (TypeError "Cannot read properties of null (reading 'length')")
                /\ f VUndefined =
                   Throw (TypeError "Cannot read properties of undefined (reading 'length')"))
  /\ (exists f, compile (object [("a", object [("b", SStr "number")])]) [] = Done f
                /\ f (VObj [("a", VNull)]) =
                   Throw (TypeError "Cannot convert undefined or null to object")).
Proof.
  split; [|split]; eexists; (split; [reflexivity|]); repeat split.
Qed.

(** ** Merging a chain of enums *)

Lemma groupFrom_same_type (t : string) (prev : string * Schema) xs :
  Forall (fun y => fst y = t) (prev :: xs) ->
  groupFrom (fun x y => fst x =? fst y) prev xs = (xs, []).
Proof.
  revert prev. induction xs as [|y ys IH]; intros prev H; simpl; [reflexivity|].
  pose proof (Forall_inv H) as Hp. pose proof (Forall_inv_tail H) as Hrest.
  rewrite (IH y Hrest).
  pose proof (Forall_inv Hrest) as Hy. simpl in Hp, Hy.
  rewrite Hp, Hy, String.eqb_refl. reflexivity.
Qed.

Lemma enums_typed (xss : list (list Value)) p :
  traverse (fun v => ty <- stepType v p ;; Done (ty, v)) (map mkEnum xss) =
  Done (map (fun xs => (enumType, mkEnum xs)) xss).
Proof.
  induction xss as [|xs xss IH]; simpl; [reflexivity|].
  now rewrite IH.
Qed.

Lemma enums_merged (xss : list (list Value)) :
  xss <> [] ->
  mergeGroups (map (fun xs => (enumType, mkEnum xs)) xss) =
  [mkEnum (List.concat xss)].
Proof.
  intros Hne. unfold mergeGroups, group.
  destruct xss as [|xs xss]; [congruence|]. cbn [map].
  rewrite (@groupFrom_same_type enumType).
  2:{ apply Forall_forall. intros y Hy.
      change (In y (map (fun xs => (enumType, mkEnum xs)) (xs :: xss))) in Hy.
      apply in_map_iff in Hy as [? [<- _]]. reflexivity. }
  cbn. unfold enumMerger, mkEnum. do 3 f_equal.
  rewrite map_map. cbn. f_equal.
  induction xss as [|ys yss IH]; simpl; [reflexivity|].
  now rewrite IH.
Qed.

Lemma flat_enums (xss : list (list Value)) :
  flat (map mkEnum xss) = map mkEnum xss.
Proof. apply flat_no_chain. induction xss; simpl; auto. Qed.

Lemma compileChain_long {rt : JsRuntime} (compile : Compiler) v0 v1 rest p :
  compileChain compile (v0 :: v1 :: rest) p =
  (_ <- checkStart v0 p ;;
   typed <- traverse (fun v => ty <- stepType v p ;; Done (ty, v)) (v0 :: v1 :: rest) ;;
   _ <- checkAdjacent (mergeGroups typed) p ;;
   compiledSteps <- traverse (fun v => compileStep compile v p) (mergeGroups typed) ;;
   Done (chainCheck compiledSteps)).
Proof. reflexivity. Qed.

(** What a chain of enums compiles to, in terms of [compileEnum] on the
    concatenated options. *)
Lemma enum_chain_compile {rt : JsRuntime} (xss : list (list Value)) p :
  xss <> [] ->
  compile (SArr (map mkEnum xss)) p =
  match xss with
  | [_] => compileEnum (VArr (List.concat xss)) p
  | _ => c <- compileEnum (VArr (List.concat xss)) p ;; Done (chainCheck [c])
  end.
Proof.
  intros Hne. rewrite compile_chain, flat_enums.
  destruct xss as [|xs [|ys xss]]; [congruence| |].
  - simpl. now rewrite app_nil_r.
  - change (map mkEnum (xs :: ys :: xss))
      with (mkEnum xs :: mkEnum ys :: map mkEnum xss).
    rewrite compileChain_long.
    change (mkEnum xs :: mkEnum ys :: map mkEnum xss)
      with (map mkEnum (xs :: ys :: xss)).
    change (checkStart (mkEnum xs) p) with (Done (A:=unit) tt).
    rewrite enums_typed. cbn [bind].
    rewrite enums_merged by discriminate.
    cbn [checkAdjacent checkFollows bind traverse compileStep mkEnum].
    destruct (compileEnum _ p); reflexivity.
Qed.

Lemma compileEnum_literals (opts : list Value) p :
  forallb isLiteral opts = true ->
  compileEnum (VArr opts) p =
  Done (basic (fun x => Normal (includes opts x)) "Unexpected value" p
              (Some (expected (VArr opts)))).
Proof.
  intros H. unfold compileEnum.
  assert (E : filter (fun v => negb (isLiteral v)) opts = []).
  { induction opts as [|o opts IH]; simpl in *; [reflexivity|].
    apply andb_true_iff in H as [Ho Ht]. rewrite Ho. simpl. auto. }
  rewrite E. reflexivity.
Qed.

(** C7: a chain of enum steps compiles exactly as the single enum of the
    concatenated option lists (kept in order, duplicates included): it
    throws the same authoring error, or it yields a check with the same
    results; when all options are literals that check returns the input
    when it is among the concatenated options and otherwise the failure
    "Unexpected value" with the concatenated options as [expected]. *)
Theorem enum_chain_is_merged_enum {rt : JsRuntime} (xss : list (list Value)) (p : Path) :
  xss <> [] ->
  (forall e, compile (mkEnum (List.concat xss)) p = Raise e ->
     compile (SArr (map mkEnum xss)) p = Raise e)
  /\ (forall g, compile (mkEnum (List.concat xss)) p = Done g ->
        exists f, compile (SArr (map mkEnum xss)) p = Done f
                  /\ forall x, f x = g x)
  /\ (forallb isLiteral (List.concat xss) = true ->
      exists f, compile (SArr (map mkEnum xss)) p = Done f
        /\ forall x,
             (includes (List.concat xss) x = true -> f x = Normal (Success x))
             /\ (includes (List.concat xss) x = false ->
                 f x = Normal (Failure [mkVError p "Unexpected value"
                                          (Some (expected (VArr (List.concat xss))))]))).
Proof.
  intros Hne.
  assert (E1 : compile (mkEnum (List.concat xss)) p =
               compileEnum (VArr (List.concat xss)) p).
  { unfold mkEnum. now rewrite compile_step. }
  rewrite E1, (enum_chain_compile p Hne).
  assert (Hsame : forall g, compileEnum (VArr (List.concat xss)) p = Done g ->
            exists f, match xss with
                      | [_] => compileEnum (VArr (List.concat xss)) p
                      | _ => c <- compileEnum (VArr (List.concat xss)) p ;;
                             Done (chainCheck [c])
                      end = Done f /\ forall x, f x = g x).
  { intros g Hg. rewrite Hg.
    destruct xss as [|xs [|ys xss]]; eexists; split; try reflexivity;
      intros x; reflexivity. }
  split; [|split].
  - intros e He. rewrite He. now destruct xss as [|xs [|ys xss]].
  - exact Hsame.
  - intros Hlit.
    destruct (Hsame _ (compileEnum_literals _ p Hlit)) as [f [Hf Hfg]].
    exists f. split; [exact Hf|].
    intros x. rewrite Hfg. unfold basic. simpl.
    split; intros ->; reflexivity.
Qed.

Lemma enum_chain_is_merged_enum_witness :
  [[num 1; num 2]; [num 3; num 4]] <> []
  /\ forallb isLiteral (List.concat [[num 1; num 2]; [num 3; num 4]]) = true
  /\ exists f, @compile nanRuntime (SArr [mkEnum [num 1; num 2]; mkEnum [num 3; num 4]]) [] = Done f
       /\ f (num 3) = Normal (Success (num 3))
       /\ f (num 5) = Normal (Failure [mkVError [] "Unexpected value"
                                        (Some (expected (VArr [num 1; num 2; num 3; num 4])))]).
Proof.
  split; [discriminate|]. split; [reflexivity|].
  destruct (proj2 (proj2 (@enum_chain_is_merged_enum nanRuntime
              [[num 1; num 2]; [num 3; num 4]] [] ltac:(discriminate))) eq_refl)
    as [f [Hf Hx]].
  exists f. split; [exact Hf|]. split.
  - exact (proj1 (Hx (num 3)) eq_refl).
  - exact (proj2 (Hx (num 5)) eq_refl).
Defined.

(** ** Threading a result through a chain *)

Lemma chainCheck_fold steps x :
  chainCheck steps x = fold_left chainStep steps (Normal (ok x)).
Proof. reflexivity. Qed.

Lemma chainCheck_app pre post x :
  chainCheck (pre ++ post) x = fold_left chainStep post (chainCheck pre x).
Proof. rewrite !chainCheck_fold. apply fold_left_app. Qed.

Lemma chainStep_stops post r :
  (forall y, r <> Normal (Success y)) -> fold_left chainStep post r = r.
Proof.
  intros H. induction post as [|v post IH]; simpl; [reflexivity|].
  destruct r as [[y|es]|e]; simpl; auto. now contradiction (H y).
Qed.

Lemma chainCheck_next pre v x y :
  chainCheck pre x = Normal (Success y) -> chainCheck (pre ++ [v]) x = v y.
Proof. intros H. rewrite chainCheck_app, H. reflexivity. Qed.

Lemma chainCheck_short_circuit pre v post x y es :
  chainCheck pre x = Normal (Success y) ->
  v y = Normal (Failure es) ->
  chainCheck (pre ++ v :: post) x = Normal (Failure es).
Proof.
  intros Hpre Hv. rewrite chainCheck_app, Hpre. simpl. rewrite Hv.
  apply chainStep_stops. discriminate.
Qed.

(** C8: a chain that compiles yields the check that starts from the
    success of the input and applies the compiled (merged) steps from left
    to right: the next step is applied to the running value while the
    running result is a success, and the first failing step gives the
    result of the chain whatever the steps after it are. *)
Theorem chain_threads_and_short_circuits {rt : JsRuntime}
  (items : list Schema) (p : Path) (f : FnV) :
  compile (SArr items) p = Done f ->
  exists steps compiledSteps,
    ((exists v, flat items = [v] /\ steps = [v])
     \/ (exists typed,
           2 <= List.length (flat items)
           /\ traverse (fun v => ty <- stepType v p ;; Done (ty, v)) (flat items)
              = Done typed
           /\ steps = mergeGroups typed))
    /\ traverse (fun v => compileStep compile v p) steps = Done compiledSteps
    /\ (forall x, f x = chainCheck compiledSteps x)
    /\ (forall x, chainCheck [] x = Normal (Success x))
    /\ (forall x pre v y,
          chainCheck pre x = Normal (Success y) ->
          chainCheck (pre ++ [v]) x = v y)
    /\ (forall x pre v post y es,
          chainCheck pre x = Normal (Success y) ->
          v y = Normal (Failure es) ->
          chainCheck (pre ++ v :: post) x = Normal (Failure es))
    /\ (forall x pre v post y es,
          compiledSteps = pre ++ v :: post ->
          chainCheck pre x = Normal (Success y) ->
          v y = Normal (Failure es) ->
          f x = Normal (Failure es)).
Proof.
  intros Hc. rewrite compile_chain in Hc.
  assert (Hsem : forall compiledSteps,
            (forall x, f x = chainCheck compiledSteps x) ->
            (forall x, f x = chainCheck compiledSteps x)
            /\ (forall x, chainCheck [] x = Normal (Success x))
            /\ (forall x pre v y,
                  chainCheck pre x = Normal (Success y) ->
                  chainCheck (pre ++ [v]) x = v y)
            /\ (forall x pre v post y es,
                  chainCheck pre x = Normal (Success y) ->
                  v y = Normal (Failure es) ->
                  chainCheck (pre ++ v :: post) x = Normal (Failure es))
            /\ (forall x pre v post y es,
                  compiledSteps = pre ++ v :: post ->
                  chainCheck pre x = Normal (Success y) ->
                  v y = Normal (Failure es) ->
                  f x = Normal (Failure es))).
  { intros cs Hf. split; [exact Hf|]. split; [reflexivity|].
    split; [intros; now apply chainCheck_next|].
    split; [intros; eapply chainCheck_short_circuit; eauto|].
    intros x pre v post y es -> Hpre Hv. rewrite Hf.
    eapply chainCheck_short_circuit; eauto. }
  destruct (flat items) as [|v0 [|v1 rest]] eqn:Hflat.
  - discriminate.
  - unfold compileChain in Hc.
    destruct (checkStart v0 p); cbn [bind] in Hc; [|discriminate].
    exists [v0], [f]. split; [left; eauto|].
    split; [simpl; now rewrite Hc|].
    apply Hsem. reflexivity.
  - rewrite compileChain_long in Hc.
    destruct (checkStart v0 p); cbn [bind] in Hc; [|discriminate].
    destruct (traverse _ (v0 :: v1 :: rest)) as [typed|] eqn:Ht;
      cbn [bind] in Hc; [|discriminate].
    destruct (checkAdjacent (mergeGroups typed) p); cbn [bind] in Hc; [|discriminate].
    destruct (traverse _ (mergeGroups typed)) as [compiledSteps|] eqn:Hs;
      cbn [bind] in Hc; [|discriminate].
    injection Hc as <-.
    exists (mergeGroups typed), compiledSteps.
    split; [right; exists typed; repeat split; auto; simpl; lia|].
    split; [exact Hs|].
    apply Hsem. reflexivity.
Qed.

Lemma chain_threads_and_short_circuits_witness :
  exists f,
    @compile nanRuntime (SArr [SStr "string"; SStr "non-empty";
                               SFn (fun _ => Throw (mkJsError "Error" "unreachable"))]) []
      = Done f
    /\ f (VStr "") = Normal (Failure [mkVError [] "Is empty" None])
    /\ f (num 2) = Normal (Failure [mkVError [] "Not a string" None]).
Proof.
  eexists. split; [reflexivity|].
  destruct (@chain_threads_and_short_circuits nanRuntime
              [SStr "string"; SStr "non-empty";
               SFn (fun _ => Throw (mkJsError "Error" "unreachable"))] [] _ eq_refl)
    as [steps [compiledSteps [Hsteps [Hcs [_ [_ [_ [_ Hfail]]]]]]]].
  destruct Hsteps as [[v [Hv _]]|[typed [_ [Ht ->]]]]; [discriminate Hv|].
  injection Ht as <-. injection Hcs as <-.
  split.
  - apply (Hfail (VStr "") [_] _ [_] (VStr "") _ eq_refl eq_refl eq_refl).
  - apply (Hfail (num 2) [] _ [_; _] (num 2) _ eq_refl eq_refl eq_refl).
Defined.

(** ** The object check *)

Lemma traverse_Forall2 {A B} (f : A -> Comp B) (xs : list A) ys :
  traverse f xs = Done ys -> Forall2 (fun x y => f x = Done y) xs ys.
Proof.
  revert ys. induction xs as [|x xs IH]; intros ys; simpl.
  - intros [= <-]. constructor.
  - destruct (f x) as [y|e] eqn:Hfx; simpl; [|discriminate].
    destruct (traverse f xs) as [ys'|e]; simpl; [|discriminate].
    intros [= <-]. constructor; auto.
Qed.

Lemma filterComp_Done {A} (f : A -> Comp bool) (xs : list A) ys :
  filterComp f xs = Done ys ->
  ys = filter (fun x => match f x with Done b => b | Raise _ => false end) xs.
Proof.
  revert ys. induction xs as [|x xs IH]; intros ys; simpl.
  - now intros [= <-].
  - destruct (f x) as [b|e]; simpl; [|discriminate].
    destruct (filterComp f xs) as [ys'|e]; simpl; [|discriminate].
    intros [= <-]. now rewrite (IH ys' eq_refl).
Qed.

Lemma not_empty_length {A} (l : list A) :
  l <> [] -> (0 <? List.length l)%nat = true.
Proof. destruct l; [congruence|reflexivity]. Qed.

Lemma getProp_object {rt : JsRuntime} props k :
  getProp (VObj props) k = Normal (field props k).
Proof.
  unfold getProp, field. simpl.
  now destruct (lookup k props).
Qed.

Lemma lookup_absent {A} k (props : list (string * A)) :
  ~ In k (map fst props) -> lookup k props = None.
Proof.
  induction props as [|[k' v'] props IH]; simpl; intros H; [reflexivity|].
  destruct (String.eqb_spec k' k) as [->|_]; [tauto|].
  apply IH. tauto.
Qed.

Lemma lookup_app {A} k (l1 l2 : list (string * A)) :
  lookup k (l1 ++ l2) =
  match lookup k l1 with Some v => Some v | None => lookup k l2 end.
Proof.
  induction l1 as [|[k' v'] l1 IH]; simpl; [reflexivity|].
  now destruct (k' =? k).
Qed.

Lemma lookup_updateProp k v props k' :
  lookup k props <> None ->
  lookup k' (updateProp k v props) = if k =? k' then Some v else lookup k' props.
Proof.
  induction props as [|[k0 v0] props IH]; simpl; intros H; [congruence|].
  destruct (String.eqb_spec k0 k) as [->|Hk0]; simpl.
  - now destruct (k =? k').
  - rewrite (IH H).
    destruct (String.eqb_spec k0 k') as [->|_]; [|reflexivity].
    destruct (String.eqb_spec k k') as [->|_]; [congruence|reflexivity].
Qed.

Lemma lookup_insertIndex n k v props k' :
  lookup k props = None ->
  lookup k' (insertIndex n k v props) = if k =? k' then Some v else lookup k' props.
Proof.
  induction props as [|[k0 v0] props IH]; simpl; intros H; [reflexivity|].
  destruct (String.eqb_spec k0 k) as [->|Hk0]; [discriminate|].
  destruct (arrayIndex k0) as [m|]; [destruct (m <? n)%N|]; simpl;
    try reflexivity.
  rewrite (IH H).
  destruct (String.eqb_spec k0 k') as [->|_]; [|reflexivity].
  destruct (String.eqb_spec k k') as [->|_]; [congruence|reflexivity].
Qed.

(** Writing a property changes what that name reads, and nothing else. *)
Lemma lookup_setProp k v props k' :
  lookup k' (setProp k v props) = if k =? k' then Some v else lookup k' props.
Proof.
  unfold setProp. destruct (lookup k props) as [v0|] eqn:Hk.
  - apply lookup_updateProp. congruence.
  - destruct (arrayIndex k) as [n|].
    + now apply lookup_insertIndex.
    + rewrite lookup_app. simpl.
      destruct (String.eqb_spec k k') as [<-|_].
      * now rewrite Hk.
      * now destruct (lookup k' props).
Qed.

Lemma setProp_fresh k y acc :
  ~ In k (map fst acc) -> arrayIndex k = None -> setProp k y acc = acc ++ [(k, y)].
Proof.
  intros H Hix. unfold setProp. now rewrite (lookup_absent _ _ H), Hix.
Qed.

Lemma fromEntries_fresh kys : forall acc,
  NoDup (map fst acc ++ map fst kys) ->
  Forall (fun k => arrayIndex k = None) (map fst kys) ->
  fold_left (fun props e =>
               match e with
               | VArr (VStr k :: y :: _) => setProp k y props
               | _ => props
               end) (map entry kys) acc = acc ++ kys.
Proof.
  induction kys as [|[k y] kys IH]; intros acc H Hix; simpl.
  - now rewrite app_nil_r.
  - simpl in Hix. inversion Hix as [|? ? Hk Hks]; subst.
    rewrite setProp_fresh.
    + rewrite IH.
      * now rewrite <- app_assoc.
      * rewrite map_app. simpl. now rewrite <- app_assoc.
      * exact Hks.
    + simpl in H. apply NoDup_remove_2 in H.
      intros Hin. apply H. apply in_or_app. now left.
    + exact Hk.
Qed.

Lemma fromEntries_NoDup kys :
  NoDup (map fst kys) -> Forall (fun k => arrayIndex k = None) (map fst kys) ->
  fromEntries (VArr (map entry kys)) = VObj kys.
Proof.
  intros H Hix. unfold fromEntries. now rewrite fromEntries_fresh.
Qed.

(** What a name reads in the object built from entries: the value of its
    last entry. *)
Lemma fromEntries_lookup kys k : forall acc,
  lookup k (fold_left (fun props e =>
                         match e with
                         | VArr (VStr k :: y :: _) => setProp k y props
                         | _ => props
                         end) (map entry kys) acc) =
  match lookup k (rev kys) with Some v => Some v | None => lookup k acc end.
Proof.
  induction kys as [|[k0 y0] kys IH]; intros acc; simpl; [reflexivity|].
  rewrite IH, lookup_app, lookup_setProp. simpl.
  destruct (lookup k (rev kys)); [reflexivity|].
  now destruct (k0 =? k).
Qed.


Lemma arrayIndex_inj a b n :
  arrayIndex a = Some n -> arrayIndex b = Some n -> a = b.
Proof.
  unfold arrayIndex.
  destruct (NilEmpty.uint_of_string a) as [da|]; [|discriminate].
  destruct (NilEmpty.uint_of_string b) as [db|]; [|discriminate].
  destruct (String.eqb_spec (NilEmpty.string_of_uint (N.to_uint (N.of_uint da))) a)
    as [Ea|_]; [|discriminate].
  destruct (String.eqb_spec (NilEmpty.string_of_uint (N.to_uint (N.of_uint db))) b)
    as [Eb|_]; [|discriminate].
  simpl. destruct (_ <? _)%N; [|discriminate].
  destruct (_ <? _)%N; [|discriminate].
  intros [= Ha] [= Hb]. rewrite <- Ea, <- Eb. congruence.
Qed.

Lemma keys_updateProp k v props :
  map fst (updateProp k v props) = map fst props.
Proof.
  induction props as [|[k0 v0] props IH]; simpl; [reflexivity|].
  destruct (k0 =? k); simpl; [reflexivity|]. now rewrite IH.
Qed.

Lemma lookup_present {A} k (props : list (string * A)) :
  includesKey (map fst props) k = match lookup k props with
                                  | Some _ => true
                                  | None => false
                                  end.
Proof.
  induction props as [|[k0 v0] props IH]; simpl; [reflexivity|].
  now destruct (k0 =? k).
Qed.

Lemma enumerated_append lo ks k :
  enumeratedFrom lo ks -> arrayIndex k = None -> enumeratedFrom lo (ks ++ [k]).
Proof.
  revert lo. induction ks as [|k0 ks IH]; intros lo H Hk; simpl in *.
  - now rewrite Hk.
  - destruct (arrayIndex k0) as [n|].
    + destruct H as [Hlo H]. split; [exact Hlo|]. now apply IH.
    + apply Forall_app. split; [exact H|]. now constructor.
Qed.

Lemma enumerated_insert n k v props : forall lo,
  enumeratedFrom lo (map fst props) ->
  arrayIndex k = Some n ->
  lookup k props = None ->
  match lo with Some m => (m < n)%N | None => True end ->
  enumeratedFrom lo (map fst (insertIndex n k v props)).
Proof.
  induction props as [|[k0 v0] props IH]; intros lo H Hk Hnew Hlo; simpl in *.
  - rewrite Hk. auto.
  - destruct (String.eqb_spec k0 k) as [->|Hne]; [discriminate|].
    destruct (arrayIndex k0) as [m|] eqn:Hk0.
    + destruct H as [Hm H].
      destruct (N.ltb_spec m n) as [Hlt|Hge]; simpl.
      * rewrite Hk0. split; [exact Hm|]. now apply IH.
      * rewrite Hk, Hk0. split; [exact Hlo|]. split; [|exact H].
        assert (m <> n).
        { intros ->. apply Hne. eapply arrayIndex_inj; eauto. }
        lia.
    + simpl. rewrite Hk, Hk0. auto.
Qed.

(** Writing a property keeps the names in enumeration order. *)
Lemma enumerated_setProp k v props :
  enumerationOrder (map fst props) ->
  enumerationOrder (map fst (setProp k v props)).
Proof.
  unfold enumerationOrder, setProp. intros H.
  destruct (lookup k props) as [v0|] eqn:Hk.
  - now rewrite keys_updateProp.
  - destruct (arrayIndex k) as [n|] eqn:Hix.
    + now apply enumerated_insert.
    + rewrite map_app. now apply enumerated_append.
Qed.

Lemma otherNames_insertIndex n k v props :
  arrayIndex k = Some n ->
  otherNames (map fst (insertIndex n k v props)) = otherNames (map fst props).
Proof.
  intros Hk.
  assert (E : isIndexName k = true) by (unfold isIndexName; now rewrite Hk).
  induction props as [|[k0 v0] props IH]; simpl.
  - unfold otherNames. simpl. now rewrite E.
  - destruct (arrayIndex k0) as [m|] eqn:Hk0; [destruct (m <? n)%N|];
      unfold otherNames in *; simpl; rewrite ?E; simpl; try reflexivity.
    unfold isIndexName at 1. rewrite Hk0. simpl.
    unfold isIndexName at 2. rewrite Hk0. simpl. exact IH.
Qed.

Lemma includesKey_otherNames ks k :
  isIndexName k = false ->
  includesKey (otherNames ks) k = includesKey ks k.
Proof.
  intros Hk. unfold otherNames.
  induction ks as [|k0 ks IH]; simpl; [reflexivity|].
  destruct (String.eqb_spec k0 k) as [->|Hne].
  - rewrite Hk. simpl. now rewrite String.eqb_refl.
  - destruct (isIndexName k0); simpl; [exact IH|].
    destruct (String.eqb_spec k0 k); [contradiction|exact IH].
Qed.

(** What writing a property does to the names that are not array
    indices: a new one is added at the end. *)
Lemma otherNames_setProp k v props :
  otherNames (map fst (setProp k v props)) =
  if isIndexName k then otherNames (map fst props)
  else if includesKey (otherNames (map fst props)) k
       then otherNames (map fst props)
       else otherNames (map fst props) ++ [k].
Proof.
  unfold setProp.
  destruct (isIndexName k) eqn:Hix.
  - destruct (lookup k props); [now rewrite keys_updateProp|].
    unfold isIndexName in Hix. destruct (arrayIndex k) as [n|] eqn:Hk;
      [|discriminate].
    now apply otherNames_insertIndex.
  - rewrite (includesKey_otherNames _ _ Hix), lookup_present.
    destruct (lookup k props); [now rewrite keys_updateProp|].
    assert (Hk : arrayIndex k = None).
    { unfold isIndexName in Hix. now destruct (arrayIndex k). }
    rewrite Hk, map_app. unfold otherNames. rewrite filter_app. simpl.
    now rewrite Hix.
Qed.

(** The names of the object built from entries are in enumeration order,
    and those that are not array indices are in the order of their first
    entry. *)
Lemma fromEntries_order kys : forall acc,
  enumerationOrder (map fst acc) ->
  let out := fold_left (fun props e =>
                          match e with
                          | VArr (VStr k :: y :: _) => setProp k y props
                          | _ => props
                          end) (map entry kys) acc in
  enumerationOrder (map fst out)
  /\ otherNames (map fst out) =
     fold_left (fun seen k => if includesKey seen k then seen else seen ++ [k])
               (otherNames (map fst kys)) (otherNames (map fst acc)).
Proof.
  induction kys as [|[k y] kys IH]; intros acc H; simpl.
  - split; [exact H|reflexivity].
  - destruct (IH (setProp k y acc) (enumerated_setProp k y acc H)) as [Ho Hn].
    split; [exact Ho|]. rewrite Hn, otherNames_setProp.
    unfold otherNames at 4. simpl. fold (otherNames (map fst kys)).
    destruct (isIndexName k); reflexivity.
Qed.

Lemma combine_fst {A} (ks : list string) (ys : list A) :
  List.length ks = List.length ys -> map fst (combine ks ys) = ks.
Proof.
  revert ys. induction ks as [|k ks IH]; intros [|y ys] H; simpl in *;
    try discriminate; [reflexivity|].
  injection H as H. now rewrite IH.
Qed.

Lemma fromEntries_object kys :
  exists out, fromEntries (VArr (map entry kys)) = VObj out
              /\ (forall k, lookup k out = lookup k (rev kys))
              /\ enumerationOrder (map fst out)
              /\ otherNames (map fst out) = firstOccurrences (otherNames (map fst kys)).
Proof.
  unfold fromEntries. eexists. split; [reflexivity|]. split.
  - intros k. rewrite fromEntries_lookup. simpl.
    now destruct (lookup k (rev kys)).
  - apply (fromEntries_order kys []). exact I.
Qed.

Lemma combine_fst_subset {A} (ks : list string) (ys : list A) (P : string -> Prop) :
  Forall P ks -> Forall P (map fst (combine ks ys)).
Proof.
  revert ys. induction ks as [|k ks IH]; intros ys H; simpl; [constructor|].
  destruct ys as [|y ys]; simpl; [constructor|].
  inversion H; subst. constructor; auto.
Qed.

Lemma NoDup_combine_fst {A} (ks : list string) (ys : list A) :
  NoDup ks -> NoDup (map fst (combine ks ys)).
Proof.
  revert ys. induction ks as [|k ks IH]; intros ys H; simpl; [constructor|].
  destruct ys as [|y ys]; simpl; [constructor|].
  inversion H; subst. constructor; auto.
  intros Hin. apply in_map_iff in Hin as [[k' y'] [Hk Hin]].
  simpl in Hk. subst k'. apply in_combine_l in Hin. tauto.
Qed.

(** The per-field part of the object check, given what each field check
    returns. *)
Lemma cmap_fields {rt : JsRuntime} props (pvs : list (string * FnV)) results :
  Forall2 (fun kc r => snd kc (field props (fst kc)) = Normal r) pvs results ->
  cmap (fun kv : string * FnV =>
          let (k, v) := kv in
          cbind (getProp (VObj props) k) (fun xk =>
          cbind (v xk) (fun r =>
          Normal (rmap r (fun y => VArr [VStr k; y]))))) pvs =
  Normal (map (fun kr => rmap (snd kr) (fun y => entry (fst kr, y)))
              (combine (map fst pvs) results)).
Proof.
  induction 1 as [|[k v] r pvs results Hv _ IH]; [reflexivity|].
  cbn [cmap]. rewrite getProp_object. cbn [cbind snd fst] in *. rewrite Hv.
  cbn [cbind]. rewrite IH. reflexivity.
Qed.

Lemma tagged_failures (ks : list string) results :
  List.length ks = List.length results ->
  existsb (fun r => negb (isOk r)) results = true ->
  gather (map (fun kr => rmap (snd kr) (fun y => entry (fst kr, y)))
              (combine ks results)) =
  Failure (flat_map errorsOf results).
Proof.
  intros Hlen Hex. rewrite gather_failure.
  - f_equal. revert results Hlen Hex.
    induction ks as [|k ks IH]; intros [|r rs] Hlen Hex; simpl in *;
      try discriminate.
    injection Hlen as Hlen.
    destruct r as [y|es]; simpl in *.
    + now apply IH.
    + f_equal. clear Hex IH. revert rs Hlen.
      induction ks as [|k' ks IH]; intros [|r rs] Hlen; simpl in *;
        try discriminate; [reflexivity|].
      injection Hlen as Hlen. rewrite (IH _ Hlen). now destruct r.
  - revert results Hlen Hex.
    induction ks as [|k ks IH]; intros [|r rs] Hlen Hex; simpl in *;
      try discriminate.
    injection Hlen as Hlen. destruct r as [y|es]; simpl in *; auto.
Qed.

Lemma tagged_successes (ks : list string) ys :
  map (fun kr => rmap (snd kr) (fun y => entry (fst kr, y)))
      (combine ks (map Success ys)) =
  map Success (map entry (combine ks ys)).
Proof.
  revert ys. induction ks as [|k ks IH]; intros [|y ys]; simpl; auto.
  now rewrite IH.
Qed.

Lemma compile_object {rt : JsRuntime} fields p :
  compile (object fields) p = compileObject compile fields p.
Proof. unfold object. now rewrite compile_step. Qed.

Lemma field_validators_keys {rt : JsRuntime} (fields : list (string * Schema)) p
  (pvs : list (string * FnV)) :
  Forall2 (fun kv kc =>
             fst kc = fst kv
             /\ compile (snd kv) (extendPath p (PKey (fst kv))) = Done (snd kc))
          fields pvs ->
  map fst pvs = map fst fields.
Proof.
  induction 1 as [|kv kc fields pvs [Hk _] _ IH]; simpl; [reflexivity|].
  now rewrite Hk, IH.
Qed.

(** C3: the check of a compiled object, on an input mapping, first
    reports the required fields that are absent, then the present keys
    that are not declared, both without consulting the field checks (the
    result is the same whatever they are); only otherwise it runs every
    field check on the property of its name, and returns the failure
    collecting the errors of all failing fields, or the object that
    [Object.fromEntries] builds from the declared field names and the
    validated values, taken in declared order. That object maps every
    declared name to its validated value, the last one for a name declared
    twice. Its names are enumerated as in every object: the array indices
    first, in ascending order, then the other names, which are in declared
    order, each at the place of its first declaration. The object is the
    declared-order mapping when the names are distinct and none of them is
    an array index. *)
Theorem object_check_order {rt : JsRuntime}
  (fields : list (string * Schema)) (p : Path) (f : FnV) :
  compile (object fields) p = Done f ->
  let expectedKeys := map fst fields in
  let requiredKeys := map fst (filter (isRequired p) fields) in
  exists propValidators,
    Forall2 (fun kv kc =>
               fst kc = fst kv
               /\ compile (snd kv) (extendPath p (PKey (fst kv))) = Done (snd kc))
            fields propValidators
    /\ f = objectCheck expectedKeys requiredKeys propValidators p
    /\ forall props,
         let keys := map fst props in
         let missingKeys :=
           filter (fun k => negb (includesKey keys k)) requiredKeys in
         let unexpectedKeys :=
           filter (fun k => negb (includesKey expectedKeys k)) keys in
         (missingKeys <> [] ->
          forall pvs,
            objectCheck expectedKeys requiredKeys pvs p (VObj props) =
            Normal (fail "Missing expected properties" p
                         (Some (expected (VArr (map VStr missingKeys))))))
         /\ (missingKeys = [] -> unexpectedKeys <> [] ->
             forall pvs,
               objectCheck expectedKeys requiredKeys pvs p (VObj props) =
               Normal (fail "Found unexpected properties" p
                            (Some (unexpected (VArr (map VStr unexpectedKeys))))))
         /\ (missingKeys = [] -> unexpectedKeys = [] ->
             forall results,
               Forall2 (fun kc r => snd kc (field props (fst kc)) = Normal r)
                       propValidators results ->
               (existsb (fun r => negb (isOk r)) results = true ->
                f (VObj props) = Normal (Failure (flat_map errorsOf results)))
               /\ (forall ys, results = map Success ys ->
                     exists out,
                       f (VObj props) = Normal (Success (VObj out))
                       /\ VObj out =
                          fromEntries (VArr (map entry (combine expectedKeys ys)))
                       /\ (forall k, lookup k out =
                                     lookup k (rev (combine expectedKeys ys)))
                       /\ enumerationOrder (map fst out)
                       /\ otherNames (map fst out) =
                          firstOccurrences (otherNames expectedKeys)
                       /\ (NoDup expectedKeys ->
                           Forall (fun k => arrayIndex k = None) expectedKeys ->
                           out = combine expectedKeys ys))).
Proof.
  intros Hc expectedKeys requiredKeys. subst expectedKeys requiredKeys.
  rewrite compile_object in Hc. unfold compileObject in Hc.
  match type of Hc with
  | context [filterComp ?g fields] =>
      destruct (filterComp g fields) as [required|] eqn:Hreq
  end; cbn [bind] in Hc; [|discriminate].
  match type of Hc with
  | context [traverse ?g fields] =>
      destruct (traverse g fields) as [pvs|] eqn:Hpv
  end; cbn [bind] in Hc; [|discriminate].
  injection Hc as <-.
  assert (Hrk : map fst required = map fst (filter (isRequired p) fields)).
  { rewrite (filterComp_Done _ _ Hreq). f_equal.
    apply filter_ext. intros kv. unfold isRequired.
    now destruct (isOptional (snd kv) p). }
  assert (Hpvs : Forall2 (fun kv kc =>
                  fst kc = fst kv
                  /\ compile (snd kv) (extendPath p (PKey (fst kv))) = Done (snd kc))
                fields pvs).
  { apply traverse_Forall2 in Hpv.
    eapply Forall2_impl; [|exact Hpv].
    intros [k v] kc. simpl.
    destruct (compile v (extendPath p (PKey k))); simpl; [|discriminate].
    now intros [= <-]. }
  rewrite Hrk. exists pvs. split; [exact Hpvs|]. split; [reflexivity|].
  intros props keys missingKeys unexpectedKeys.
  split; [|split].
  - intros Hm pvs'. unfold objectCheck. cbn [objectKeys ownEntries cbind].
    fold keys. fold missingKeys. now rewrite (not_empty_length Hm).
  - intros Hm Hu pvs'. unfold objectCheck. cbn [objectKeys ownEntries cbind].
    fold keys. fold missingKeys. fold unexpectedKeys.
    rewrite Hm, (not_empty_length Hu). reflexivity.
  - intros Hm Hu results Hres.
    assert (Hf : objectCheck (map fst fields)
                             (map fst (filter (isRequired p) fields)) pvs p
                             (VObj props) =
                 Normal (rmap (gather (map (fun kr => rmap (snd kr)
                                                       (fun y => entry (fst kr, y)))
                                           (combine (map fst fields) results)))
                              fromEntries)).
    { unfold objectCheck. cbn [objectKeys ownEntries cbind].
      fold keys. fold missingKeys. fold unexpectedKeys.
      rewrite Hm, Hu, (cmap_fields _ Hres).
      rewrite (@field_validators_keys _ _ _ _ Hpvs). reflexivity. }
    rewrite Hf. split.
    + intros Hex. rewrite tagged_failures; [reflexivity| |exact Hex].
      rewrite length_map.
      rewrite (Forall2_length Hpvs). apply (Forall2_length Hres).
    + intros ys ->. rewrite tagged_successes, gather_successes. cbn [rmap].
      destruct (fromEntries_object (combine (map fst fields) ys))
        as [out [Hout [Hlook [Hord Hoth]]]].
      exists out. rewrite Hout.
      split; [reflexivity|]. split; [reflexivity|]. split; [exact Hlook|].
      split; [exact Hord|]. split.
      { rewrite Hoth, combine_fst; [reflexivity|].
        rewrite length_map, (Forall2_length Hpvs).
        apply Forall2_length in Hres. now rewrite length_map in Hres. }
      intros Hnd Hix.
      rewrite fromEntries_NoDup in Hout.
      * now injection Hout.
      * now apply NoDup_combine_fst.
      * now apply combine_fst_subset.
Qed.

Lemma object_check_order_witness :
  exists f,
    @compile nanRuntime (object pointSchema) [] = Done f
    /\ f (VObj [("x", num 0)]) =
       Normal (fail "Missing expected properties" []
                    (Some (expected (VArr [VStr "y"]))))
    /\ f (VObj [("x", num 0); ("y", num 0); ("polar", VBool false);
                ("extra", VStr "extra"); ("evenMore", VBool true)]) =
       Normal (fail "Found unexpected properties" []
                    (Some (unexpected (VArr [VStr "extra"; VStr "evenMore"]))))
    /\ f (VObj [("x", num 0); ("y", num 1)]) =
       Normal (Success (VObj [("x", num 0); ("y", num 1); ("polar", VBool false)])).
Proof.
  eexists. split; [reflexivity|].
  destruct (@object_check_order nanRuntime pointSchema [] _ eq_refl)
    as [pvs [Hpvs [Hf Hprops]]].
  split; [|split].
  - rewrite Hf.
    apply (proj1 (Hprops [("x", num 0)])). discriminate.
  - rewrite Hf.
    apply (proj1 (proj2 (Hprops [("x", num 0); ("y", num 0); ("polar", VBool false);
                                 ("extra", VStr "extra"); ("evenMore", VBool true)])));
      [reflexivity|discriminate].
  - inversion Hpvs as [|kv1 [k1 c1] l1 l1' [Hk1 Hc1] Hpvs1]; subst.
    inversion Hpvs1 as [|kv2 [k2 c2] l2 l2' [Hk2 Hc2] Hpvs2]; subst.
    inversion Hpvs2 as [|kv3 [k3 c3] l3 l3' [Hk3 Hc3] Hpvs3]; subst.
    inversion Hpvs3; subst.
    simpl in Hk1, Hk2, Hk3. subst k1 k2 k3.
    injection Hc1 as <-. injection Hc2 as <-. injection Hc3 as <-.
    destruct (proj2 (proj2 (proj2 (Hprops [("x", num 0); ("y", num 1)]))
                             eq_refl eq_refl
                             [Success (num 0); Success (num 1); Success (VBool false)]
                             ltac:(repeat constructor))
                    [num 0; num 1; VBool false] eq_refl)
      as [out [Hres [_ [_ [_ [_ Hord]]]]]].
    rewrite Hres, Hord; [reflexivity| |].
    + repeat constructor; simpl; intuition discriminate.
    + repeat constructor.
Defined.

(** A declared field that the input does not own is read through the
    prototype chain: on the object without properties, the optional field
    ["constructor"] is checked against the function that the object
    inherits, not replaced by its fallback. *)
Example inherited_property_is_checked :
  exists f,
    @compile nanRuntime
      (object [("constructor", optional (SStr "string") (VStr "d"))]) [] = Done f
    /\ f (VObj []) = Normal (fail "Not a string" [PKey "constructor"] None).
Proof. eexists. split; reflexivity. Qed.

(** The declared order is not the order of the result when a declared
    name is an array index: with the fields ["b"] and ["1"] declared in
    this order, as a field list or as a chain of two objects, the check
    returns the object whose names are ["1"] and ["b"], in this order. *)
Lemma declared_order_is_not_kept :
  let x := VObj [("1", num 0); ("b", num 1)] in
  exists f g,
    @compile nanRuntime (object [("b", SStr "number"); ("1", SStr "number")]) []
    = Done f
    /\ @compile nanRuntime (SArr [object [("b", SStr "number")];
                                  object [("1", SStr "number")]]) [] = Done g
    /\ f x = Normal (Success (VObj [("1", num 0); ("b", num 1)]))
    /\ g x = Normal (Success (VObj [("1", num 0); ("b", num 1)]))
    /\ f x <> Normal (Success (VObj (combine ["b"; "1"] [num 1; num 0])))
    /\ g x <> Normal (Success (VObj (combine ["b"; "1"] [num 1; num 0]))).
Proof.
  do 2 eexists. split; [reflexivity|]. split; [reflexivity|].
  split; [reflexivity|]. split; [reflexivity|].
  split; discriminate.
Qed.

(** ** Where the errors of a compiled check are located *)

Lemma hasPrefix_refl p : hasPrefix p p.
Proof. exists []. now rewrite app_nil_r. Qed.

Lemma hasPrefix_extend p s q : hasPrefix (p ++ s) q -> hasPrefix p q.
Proof. intros [t ->]. exists (s ++ t). now rewrite app_assoc. Qed.

Lemma errorsUnder_ok p v : errorsUnder p (ok v).
Proof. constructor. Qed.

Lemma errorsUnder_fail p err d : errorsUnder p (fail err p d).
Proof. repeat constructor. apply hasPrefix_refl. Qed.

Lemma errorsUnder_extend p s r : errorsUnder (p ++ s) r -> errorsUnder p r.
Proof.
  unfold errorsUnder. apply Forall_impl. intros e. apply hasPrefix_extend.
Qed.

Lemma errorsUnder_rmap p r g : errorsUnder p r -> errorsUnder p (rmap r g).
Proof. now destruct r. Qed.

Lemma errorsUnder_at p r : errorsUnder p (at_ r p).
Proof.
  destruct p as [|s p]; simpl.
  - unfold errorsUnder. apply Forall_forall. intros e _. now exists (path e).
  - destruct r as [v|es]; [constructor|].
    unfold errorsUnder. simpl. apply Forall_forall. intros e He.
    apply in_map_iff in He as [e' [<- _]]. now exists (path e').
Qed.

Lemma errorsUnder_gather p results :
  Forall (errorsUnder p) results -> errorsUnder p (gather results).
Proof.
  intros H. unfold gather.
  destruct (0 <? _)%nat; [|constructor].
  unfold errorsUnder. simpl. apply Forall_forall. intros e He.
  apply in_flat_map in He as [r [Hr He]].
  apply filter_In in Hr as [Hr _].
  rewrite Forall_forall in H. specialize (H r Hr).
  unfold errorsUnder in H. rewrite Forall_forall in H. now apply H.
Qed.

Lemma checkUnder_extend p s f : checkUnder (p ++ s) f -> checkUnder p f.
Proof. intros H x r Hr. eapply errorsUnder_extend, H, Hr. Qed.

Lemma checkUnder_basic g err p d : checkUnder p (basic g err p d).
Proof.
  intros x r. unfold basic. destruct (g x) as [[|]|]; simpl; try discriminate;
    intros [= <-]; [apply errorsUnder_ok|apply errorsUnder_fail].
Qed.

Lemma compileBasic_under {rt : JsRuntime} name p f :
  compileBasic name p = Done f -> checkUnder p f.
Proof.
  unfold compileBasic.
  repeat match goal with
         | |- context [if ?c then _ else _] => destruct c
         end; try discriminate; intros [= <-]; apply checkUnder_basic.
Qed.

Lemma compilePredicate_under fn err dt p f :
  compilePredicate fn err dt p = Done f -> checkUnder p f.
Proof.
  unfold compilePredicate. destruct err as [e|]; [|discriminate].
  destruct (String.length e =? 0)%nat; [discriminate|].
  intros [= <-] x r. unfold predicateCheck.
  destruct (fn x) as [[ | |[|]| | | | | ]|]; intros [= <-];
    first [apply errorsUnder_ok|apply errorsUnder_fail].
Qed.

Lemma compileFunction_under fn p : checkUnder p (compileFunction fn p).
Proof.
  intros x r. unfold compileFunction.
  destruct (fn x) as [[res|v]|e]; intros [= <-];
    first [apply errorsUnder_at|apply errorsUnder_fail].
Qed.

Lemma compileEnum_under options p f :
  compileEnum options p = Done f -> checkUnder p f.
Proof.
  unfold compileEnum. destruct options; try discriminate.
  destruct (0 <? _)%nat; [discriminate|].
  intros [= <-]. apply checkUnder_basic.
Qed.

Lemma optionalCheck_under p v value :
  checkUnder p v -> checkUnder p (optionalCheck v value).
Proof.
  intros H x r. unfold optionalCheck. destruct (isNullish x).
  - intros [= <-]. apply errorsUnder_ok.
  - apply H.
Qed.

Lemma cmap_Forall2 {A B} (g : A -> Completion B) (xs : list A) ys :
  cmap g xs = Normal ys -> Forall2 (fun x y => g x = Normal y) xs ys.
Proof.
  revert ys. induction xs as [|x xs IH]; intros ys; simpl.
  - intros [= <-]. constructor.
  - destruct (g x) as [y|e] eqn:Hgx; simpl; [|discriminate].
    destruct (cmap g xs) as [ys'|e]; simpl; [|discriminate].
    intros [= <-]. constructor; auto.
Qed.

Lemma Forall2_Forall_r {A B} (R : A -> B -> Prop) (P : B -> Prop) xs ys :
  Forall2 R xs ys ->
  (forall x y, In x xs -> R x y -> P y) ->
  Forall P ys.
Proof.
  induction 1 as [|x y xs ys HR _ IH]; intros H; constructor.
  - apply (H x y); [now left|assumption].
  - apply IH. intros x' y' Hin. apply H. now right.
Qed.

Lemma objectCheck_under {rt : JsRuntime} ek rk (pvs : list (string * FnV)) p :
  Forall (fun kc => checkUnder (extendPath p (PKey (fst kc))) (snd kc)) pvs ->
  checkUnder p (objectCheck ek rk pvs p).
Proof.
  intros H x r. unfold objectCheck.
  destruct (objectKeys x) as [keys|]; simpl; [|discriminate].
  destruct (0 <? _)%nat; [intros [= <-]; apply errorsUnder_fail|].
  destruct (0 <? _)%nat; [intros [= <-]; apply errorsUnder_fail|].
  match goal with
  | |- context [cmap ?g pvs] => destruct (cmap g pvs) as [results|] eqn:Hc
  end; simpl; [|discriminate].
  intros [= <-]. apply errorsUnder_rmap, errorsUnder_gather.
  apply cmap_Forall2 in Hc.
  eapply Forall2_Forall_r; [exact Hc|].
  intros [k v] res Hin. simpl.
  destruct (getProp x k) as [xk|]; simpl; [|discriminate].
  destruct (v xk) as [r0|] eqn:Hv; simpl; [|discriminate].
  intros [= <-]. apply errorsUnder_rmap.
  rewrite Forall_forall in H. specialize (H _ Hin). simpl in H.
  eapply errorsUnder_extend, H, Hv.
Qed.

Lemma indexedCheck_under {rt : JsRuntime} n (ivs : list FnV) err p :
  Forall (fun iv => checkUnder (extendPath p (PIndex (fst iv))) (snd iv))
         (withIndex ivs) ->
  checkUnder p (indexedCheck n ivs err p).
Proof.
  intros H x r. unfold indexedCheck.
  destruct (getProp x "length") as [len|]; simpl; [|discriminate].
  destruct (negb _); [intros [= <-]; apply errorsUnder_fail|].
  match goal with
  | |- context [cmap ?g ?l] => destruct (cmap g l) as [results|] eqn:Hc
  end; simpl; [|discriminate].
  intros [= <-]. apply errorsUnder_gather.
  apply cmap_Forall2 in Hc.
  eapply Forall2_Forall_r; [exact Hc|].
  intros [ix v] res Hin. simpl.
  destruct (getProp x (natToString ix)) as [xk|]; simpl; [|discriminate].
  intros Hv.
  rewrite Forall_forall in H. specialize (H _ Hin). simpl in H.
  eapply errorsUnder_extend, H, Hv.
Qed.

Lemma oneOfLoop_under p (vs : list FnV) x : forall errors r,
  Forall (checkUnder p) vs ->
  Forall (fun e => hasPrefix p (path e)) errors ->
  oneOfLoop vs errors x = Normal r -> errorsUnder p r.
Proof.
  induction vs as [|v vs IH]; intros errors r Hvs Herr; simpl.
  - intros [= <-]. exact Herr.
  - inversion Hvs as [|? ? Hv Hrest]; subst.
    destruct (v x) as [[value|es]|] eqn:Hvx; try discriminate.
    + intros [= <-]. constructor.
    + apply IH; [assumption|].
      apply Forall_app. split; [assumption|]. apply (Hv _ _ Hvx).
Qed.

Lemma chainCheck_under p (steps : list FnV) :
  Forall (checkUnder p) steps -> checkUnder p (chainCheck steps).
Proof.
  intros H x r. unfold chainCheck.
  assert (G : forall acc,
            (forall r0, acc = Normal r0 -> errorsUnder p r0) ->
            fold_left chainStep steps acc = Normal r -> errorsUnder p r).
  { induction H as [|v steps Hv _ IH]; intros acc Hacc; simpl.
    - apply Hacc.
    - apply IH. intros r0. destruct acc as [[value|es]|]; simpl.
      + apply Hv.
      + apply Hacc.
      + discriminate. }
  apply G. intros r0 [= <-]. apply errorsUnder_ok.
Qed.

Section Located.

Context {rt : JsRuntime}.
Variable compile0 : Compiler.

Lemma compileStep_under v p f :
  (forall c q g, In c (children v) -> compile0 c q = Done g -> checkUnder q g) ->
  compileStep compile0 v p = Done f -> checkUnder p f.
Proof.
  intros H. destruct v; simpl.
  - apply compileBasic_under.
  - intros [= <-]. apply compileFunction_under.
  - apply compilePredicate_under.
  - unfold compileOptional.
    destruct (compile0 v p) as [g|] eqn:Hg; simpl; [|discriminate].
    destruct (g fallback) as [[value|es]|]; try discriminate.
    intros [= <-]. apply optionalCheck_under.
    eapply H; [|exact Hg]. now left.
  - apply compileEnum_under.
  - unfold compileObject.
    match goal with
    | |- context [filterComp ?g fields] => destruct (filterComp g fields)
    end; simpl; [|discriminate].
    match goal with
    | |- context [traverse ?g fields] =>
        destruct (traverse g fields) as [pvs|] eqn:Hpv
    end; simpl; [|discriminate].
    intros [= <-]. apply objectCheck_under.
    apply traverse_Forall2 in Hpv.
    eapply Forall2_Forall_r; [exact Hpv|].
    intros [k s] kc Hin. simpl.
    destruct (compile0 s (extendPath p (PKey k))) as [g|] eqn:Hg; simpl;
      [|discriminate].
    intros [= <-]. simpl. eapply H; [|exact Hg].
    simpl. apply in_map_iff. now exists (k, s).
  - unfold compileIndexed.
    match goal with
    | |- context [traverse ?g ?l] => destruct (traverse g l) as [ivs|] eqn:Hiv
    end; simpl; [|discriminate].
    intros [= <-]. apply indexedCheck_under.
    apply traverse_Forall2 in Hiv.
    assert (Hgen : forall (ss : list Schema) (ivs : list FnV) n,
              (forall c, In c ss -> In c entries) ->
              Forall2 (fun (x : nat * Schema) (y : FnV) =>
                         (let (ix, v) := x in compile0 v (extendPath p (PIndex ix)))
                         = Done y)
                      (combine (seq n (List.length ss)) ss) ivs ->
              Forall (fun iv => checkUnder (extendPath p (PIndex (fst iv))) (snd iv))
                     (combine (seq n (List.length ivs)) ivs)).
    { clear Hiv ivs. induction ss as [|s ss IH]; intros ivs n Hsub Hf; simpl in Hf.
      - inversion Hf; subst. constructor.
      - inversion Hf as [|? g ? ivs' Hg Hrest]; subst. simpl. constructor.
        + simpl. eapply H; [|exact Hg]. simpl. apply Hsub. now left.
        + apply IH; [|exact Hrest]. intros c Hc. apply Hsub. now right. }
    apply (Hgen entries ivs 0); [auto|exact Hiv].
  - unfold compileOneOf.
    match goal with
    | |- context [traverse ?g ?l] => destruct (traverse g l) as [vs|] eqn:Hvs
    end; simpl; [|discriminate].
    intros [= <-] x r. unfold oneOfCheck. apply oneOfLoop_under; [|constructor].
    apply traverse_Forall2 in Hvs.
    eapply Forall2_Forall_r; [exact Hvs|].
    intros [ix s] g Hin Hg. simpl in Hg.
    eapply checkUnder_extend. eapply H; [|exact Hg].
    simpl. eapply In_withIndex; eauto.
  - discriminate.
  - discriminate.
Qed.

Lemma compileChain_under vs p f :
  (forall v c q g, In v vs -> In c (children v) ->
                   compile0 c q = Done g -> checkUnder q g) ->
  compileChain compile0 vs p = Done f -> checkUnder p f.
Proof.
  intros H. unfold compileChain.
  destruct vs as [|v0 rest]; [discriminate|].
  destruct (checkStart v0 p); cbn [bind]; [|discriminate].
  destruct rest as [|v1 rest].
  { apply compileStep_under. intros c q g Hc. eapply H; eauto. now left. }
  match goal with
  | |- context [traverse ?g (v0 :: v1 :: rest)] =>
      destruct (traverse g (v0 :: v1 :: rest)) as [typed|] eqn:Ht
  end; cbn [bind]; [|discriminate].
  destruct (checkAdjacent (mergeGroups typed) p); cbn [bind]; [|discriminate].
  match goal with
  | |- context [traverse ?g (mergeGroups typed)] =>
      destruct (traverse g (mergeGroups typed)) as [compiledSteps|] eqn:Hs
  end; cbn [bind]; [|discriminate].
  intros [= <-]. apply chainCheck_under.
  apply traverse_Forall2 in Hs.
  eapply Forall2_Forall_r; [exact Hs|].
  intros m g Hm Hg. eapply compileStep_under; [|exact Hg].
  intros c q g' Hc.
  destruct (mergeGroups_children _ _ _ Hm Hc) as [v [Hv Hcv]].
  rewrite (typed_steps _ _ Ht) in Hv. eapply H; eauto.
Qed.

Lemma compileWith_under s p f :
  (forall c q g, depth c < depth s -> compile0 c q = Done g -> checkUnder q g) ->
  compileWith compile0 s p = Done f -> checkUnder p f.
Proof.
  intros H.
  assert (Hstep : compileStep compile0 s p = Done f -> checkUnder p f).
  { apply compileStep_under. intros c q g Hc. apply H. now apply depth_child. }
  destruct s; unfold compileWith;
    try (destruct (checkStart _ p); cbn [bind]; [exact Hstep|discriminate]).
  apply compileChain_under. intros v c q g Hv Hc. apply H.
  pose proof (depth_child _ _ Hc).
  apply flat_In in Hv as [Hv|[its [Hits Hv]]].
  - pose proof (depth_item _ _ Hv). lia.
  - pose proof (depth_item _ _ Hits). pose proof (depth_item _ _ Hv). lia.
Qed.

End Located.

(** Every error of a check compiled at [p] is located at or below [p]. *)
Lemma compile_under {rt : JsRuntime} s : forall p f,
  compile s p = Done f -> checkUnder p f.
Proof.
  remember (depth s) as n eqn:Hn.
  revert s Hn. induction n as [n IH] using lt_wf_ind.
  intros s -> p f Hc. rewrite compile_unfold in Hc.
  eapply compileWith_under; [|exact Hc].
  intros c q g Hd. eapply IH; eauto.
Qed.

(** ** OneOf *)

Lemma oneOfLoop_all_fail (vs : list FnV) x errs :
  Forall2 (fun v es => v x = Normal (Failure es)) vs errs ->
  forall errors,
    oneOfLoop vs errors x = Normal (Failure (errors ++ List.concat errs)).
Proof.
  induction 1 as [|v es vs errs Hv _ IH]; intros errors; simpl.
  - now rewrite app_nil_r.
  - rewrite Hv, IH. now rewrite app_assoc.
Qed.

Lemma oneOfLoop_first_success (pre : list FnV) v post x errs value :
  Forall2 (fun u es => u x = Normal (Failure es)) pre errs ->
  v x = Normal (Success value) ->
  forall errors,
    oneOfLoop (pre ++ v :: post) errors x = Normal (Success value).
Proof.
  intros Hpre Hv.
  induction Hpre as [|u es pre errs Hu _ IH]; intros errors; simpl.
  - now rewrite Hv.
  - rewrite Hu. apply IH.
Qed.

Lemma Forall2_compose {A B C} (R : A -> B -> Prop) (S : B -> C -> Prop)
  (T : A -> C -> Prop) xs ys zs :
  (forall x y z, R x y -> S y z -> T x z) ->
  Forall2 R xs ys -> Forall2 S ys zs -> Forall2 T xs zs.
Proof.
  intros H HR. revert zs.
  induction HR as [|x y xs ys Hxy _ IH]; intros zs HS;
    inversion HS; subst; constructor; eauto.
Qed.

Lemma compile_oneOf {rt : JsRuntime} branches p :
  compile (oneOf branches) p = compileOneOf compile branches p.
Proof. unfold oneOf. now rewrite compile_step. Qed.

(** C4: the check of a compiled oneOf runs the branch checks in declared
    order, each compiled under the path extended with its label
    [Branch <index>]. The first branch that succeeds, all the branches
    before it having failed, gives the result unchanged. When every branch
    fails the result is the failure whose errors are the errors of all the
    branches, concatenated in branch order, and the errors of a branch lie
    under the path extended with the label of that branch. *)
Theorem oneOf_tries_branches_in_order {rt : JsRuntime}
  (branches : list Schema) (p : Path) (f : FnV) :
  compile (oneOf branches) p = Done f ->
  exists vs,
    Forall2 (fun ib v =>
               compile (snd ib) (extendPath p (branchLabel (fst ib))) = Done v)
            (withIndex branches) vs
    /\ f = oneOfCheck vs
    /\ forall x,
         (forall pre v post errs value,
            vs = pre ++ v :: post ->
            Forall2 (fun u es => u x = Normal (Failure es)) pre errs ->
            v x = Normal (Success value) ->
            f x = Normal (Success value))
         /\ (forall errs,
               Forall2 (fun u es => u x = Normal (Failure es)) vs errs ->
               f x = Normal (Failure (List.concat errs))
               /\ Forall2 (fun ib es =>
                             Forall (fun e =>
                                       hasPrefix (extendPath p (branchLabel (fst ib)))
                                                 (path e)) es)
                          (withIndex branches) errs).
Proof.
  intros Hc. rewrite compile_oneOf in Hc. unfold compileOneOf in Hc.
  match type of Hc with
  | context [traverse ?g ?l] => destruct (traverse g l) as [vs|] eqn:Hvs
  end; cbn [bind] in Hc; [|discriminate].
  injection Hc as <-.
  assert (Hcomp : Forall2 (fun ib v =>
                    compile (snd ib) (extendPath p (branchLabel (fst ib))) = Done v)
                  (withIndex branches) vs).
  { apply traverse_Forall2 in Hvs.
    eapply Forall2_impl; [|exact Hvs]. now intros [ix s] v. }
  exists vs. split; [exact Hcomp|]. split; [reflexivity|].
  intros x. split.
  - intros pre v post errs value -> Hpre Hv. unfold oneOfCheck.
    eapply oneOfLoop_first_success; eauto.
  - intros errs Herrs. split.
    + unfold oneOfCheck. now rewrite (oneOfLoop_all_fail Herrs).
    + eapply Forall2_compose; [|exact Hcomp|exact Herrs].
      intros ib v es Hv Hes. simpl in *.
      apply (compile_under _ _ Hv _ Hes).
Qed.

Lemma oneOf_tries_branches_in_order_witness :
  exists f,
    @compile nanRuntime (oneOf [SStr "string"; SStr "number"]) [] = Done f
    /\ f (VBool true) =
       Normal (Failure [mkVError [PKey "Branch 0"] "Not a string" None;
                        mkVError [PKey "Branch 1"] "Not a number" None])
    /\ f (num 3) = Normal (Success (num 3)).
Proof.
  eexists. split; [reflexivity|].
  destruct (@oneOf_tries_branches_in_order nanRuntime
              [SStr "string"; SStr "number"] [] _ eq_refl)
    as [vs [Hvs [Hf Hx]]].
  inversion Hvs as [|ib1 v1 l1 l1' Hc1 Hvs1]; subst.
  inversion Hvs1 as [|ib2 v2 l2 l2' Hc2 Hvs2]; subst.
  inversion Hvs2; subst.
  injection Hc1 as <-. injection Hc2 as <-.
  split.
  - apply (proj1 (proj2 (Hx (VBool true))
                    [[mkVError [PKey "Branch 0"] "Not a string" None];
                     [mkVError [PKey "Branch 1"] "Not a number" None]]
                    ltac:(repeat constructor))).
  - apply (proj1 (Hx (num 3)) [_] _ []
                 [[mkVError [PKey "Branch 0"] "Not a string" None]] (num 3)
                 eq_refl ltac:(repeat constructor) eq_refl).
Defined.

(* ------------------------------------------------------------------ *)
(** * Further properties of the source *)

(** ** [group] *)

Lemma lastItem_cons {A} (x : A) (l : list A) :
  l <> [] -> lastItem (x :: l) = lastItem l.
Proof.
  unfold lastItem. simpl. intros H.
  destruct (rev l) eqn:E; [|reflexivity].
  apply (f_equal (@rev A)) in E. rewrite rev_involutive in E. now subst.
Qed.

Lemma groupFrom_runs {A} (f : A -> A -> bool) (xs : list A) :
  forall prev run later,
    groupFrom f prev xs = (run, later) ->
    linked f (prev :: run)
    /\ Forall (fun g => g <> [] /\ linked f g) later
    /\ separated f ((prev :: run) :: later).
Proof.
  induction xs as [|y ys IH]; intros prev run later; simpl.
  - intros [= <- <-]. simpl. auto.
  - destruct (groupFrom f y ys) as [run' later'] eqn:E.
    destruct (IH _ _ _ E) as [Hl [Hf Hs]].
    destruct (f prev y) eqn:Hfy; intros [= <- <-].
    + split; [simpl; auto|]. split; [exact Hf|].
      destruct later' as [|h later']; [exact I|].
      destruct Hs as [Hb Hs]. split; [|exact Hs].
      intros a b Ha. apply Hb. rewrite <- Ha.
      symmetry. now apply lastItem_cons.
    + split; [exact I|]. split.
      * constructor; [split; [discriminate|exact Hl]|exact Hf].
      * split; [|exact Hs].
        intros a b [= <-] [= <-]. exact Hfy.
Qed.

(** X1: [group] cuts its input into consecutive groups: concatenating the
    groups gives the input back, and no group is empty (the empty input
    has no group). *)
Theorem group_partitions {A} (f : A -> A -> bool) (xs : list A) :
  List.concat (group xs f) = xs
  /\ Forall (fun g => g <> []) (group xs f)
  /\ (group xs f = [] <-> xs = []).
Proof.
  split; [apply group_concat|].
  destruct xs as [|x xs]; simpl.
  - split; [constructor|tauto].
  - destruct (groupFrom f x xs) as [run later] eqn:E.
    destruct (groupFrom_runs _ _ _ E) as [_ [Hf _]].
    split; [|split; discriminate].
    constructor; [discriminate|].
    eapply Forall_impl; [|exact Hf]. now intros g [Hg _].
Qed.

(** X2: the groups of [group] are the maximal runs: inside a group every
    item is related by [f] to the next one, and [f] fails between the last
    item of a group and the first item of the group after it. *)
Theorem group_maximal_runs {A} (f : A -> A -> bool) (xs : list A) :
  Forall (linked f) (group xs f) /\ separated f (group xs f).
Proof.
  destruct xs as [|x xs]; simpl; [split; [constructor|exact I]|].
  destruct (groupFrom f x xs) as [run later] eqn:E.
  destruct (groupFrom_runs _ _ _ E) as [Hl [Hf Hs]].
  split; [|exact Hs].
  constructor; [exact Hl|].
  eapply Forall_impl; [|exact Hf]. now intros g [_ Hg].
Qed.

(** ** [Result.at], [Result.map] and [gather] *)

Lemma under_under e q p : under (under e q) p = under e (p ++ q).
Proof. unfold under. simpl. now rewrite app_assoc. Qed.

(** X3: rebasing twice is rebasing once under the concatenated path;
    rebasing leaves a success as it is, and changes neither the outcome,
    nor the number, the messages and the details of the errors, only
    their paths, which all start with the given path afterwards. *)
Theorem at_composes (r : Result) (p q : Path) :
  at_ (at_ r q) p = at_ r (p ++ q)
  /\ isOk (at_ r p) = isOk r
  /\ valueOf (at_ r p) = valueOf r
  /\ map message (errorsOf (at_ r p)) = map message (errorsOf r)
  /\ map details (errorsOf (at_ r p)) = map details (errorsOf r)
  /\ map path (errorsOf (at_ r p)) = map (fun e => p ++ path e) (errorsOf r).
Proof.
  split.
  - destruct p as [|s p]; [reflexivity|].
    destruct q as [|t q]; [now rewrite app_nil_r|].
    destruct r as [v|es]; [reflexivity|]. simpl. f_equal.
    rewrite map_map. apply map_ext. intros e.
    apply (under_under e (t :: q) (s :: p)).
  - destruct p as [|s p]; [repeat split; now rewrite ?map_id|].
    destruct r as [v|es]; [repeat split|].
    simpl. rewrite !map_map. repeat split.
Qed.

(** [Result.map] never touches a failure, composes, and commutes with
    rebasing. *)
Lemma rmap_composes (r : Result) (g h : Value -> Value) (p : Path) :
  rmap (rmap r g) h = rmap r (fun v => h (g v))
  /\ errorsOf (rmap r g) = errorsOf r
  /\ isOk (rmap r g) = isOk r
  /\ rmap (at_ r p) g = at_ (rmap r g) p.
Proof.
  destruct r as [v|es]; repeat split; destruct p; reflexivity.
Qed.

Lemma isOk_gather (results : list Result) :
  isOk (gather results) = forallb isOk results.
Proof.
  unfold gather.
  destruct (existsb (fun r => negb (isOk r)) results) eqn:E.
  - rewrite (failures_not_empty _ E). simpl. symmetry.
    apply not_true_is_false. intros H. rewrite forallb_forall in H.
    apply existsb_exists in E as [r [Hr Hn]]. rewrite (H r Hr) in Hn. discriminate.
  - assert (F : filter (fun r => negb (isOk r)) results = []).
    { induction results as [|r rs IH]; [reflexivity|]. simpl in *.
      apply orb_false_iff in E as [E1 E2]. rewrite E1. auto. }
    rewrite F. simpl. symmetry. apply forallb_forall. intros r Hr.
    destruct (isOk r) eqn:Hk; [reflexivity|].
    assert (existsb (fun r => negb (isOk r)) results = true)
      by (apply existsb_exists; exists r; now rewrite Hk).
    congruence.
Qed.

(** X4: [gather] succeeds exactly when every input does, its success
    holds one value per input, and it turns the empty list into the
    success of the empty sequence. *)
Theorem gather_succeeds_iff_all (results : list Result) :
  isOk (gather results) = forallb isOk results
  /\ (forall v, gather results = Success v ->
        v = VArr (map valueOf results)
        /\ List.length (map valueOf results) = List.length results)
  /\ gather [] = Success (VArr []).
Proof.
  split; [apply isOk_gather|]. split; [|reflexivity].
  intros v H. split; [|apply length_map].
  unfold gather in H. destruct (0 <? _)%nat; [discriminate|]. congruence.
Qed.

(** ** Basic validators *)

Lemma compileBasic_cases {rt : JsRuntime} name p :
  (exists f, compileBasic name p = Done f
             /\ (name = "array" \/ name = "boolean" \/ name = "number"
                 \/ name = "integer" \/ name = "string" \/ name = "non-empty"))
  \/ (compileBasic name p =
      Raise (AuthoringError p "Unknown basic validator" (Some (DFound (SStr name))))
      /\ name <> "array" /\ name <> "boolean" /\ name <> "number"
      /\ name <> "integer" /\ name <> "string" /\ name <> "non-empty").
Proof.
  unfold compileBasic.
  repeat match goal with
         | |- context [String.eqb name ?c] =>
             destruct (String.eqb_spec name c);
             [left; eexists; split; [reflexivity|tauto]|]
         end.
  right. tauto.
Qed.

(** X5: a schema that is a bare string compiles exactly when it names one
    of the four base kinds; the two refinements are refused as the start
    of a chain, and any other string is an unknown basic validator,
    reported at the path with the string found. *)
Theorem bare_string_compiles_iff_base_kind {rt : JsRuntime} (name : string) (p : Path) :
  ((exists f, compile (SStr name) p = Done f) <->
   (name = "array" \/ name = "boolean" \/ name = "number" \/ name = "string"))
  /\ (name <> "array" -> name <> "boolean" -> name <> "number" ->
      name <> "string" -> name <> "integer" -> name <> "non-empty" ->
      compile (SStr name) p =
      Raise (AuthoringError p "Unknown basic validator" (Some (DFound (SStr name))))).
Proof.
  rewrite compile_step by reflexivity.
  destruct (String.eqb_spec name "non-empty") as [->|Hne].
  { split; [|congruence]. split.
    - intros [f Hf]. discriminate Hf.
    - intros [H|[H|[H|H]]]; discriminate H. }
  destruct (String.eqb_spec name "integer") as [->|Hni].
  { split; [|congruence]. split.
    - intros [f Hf]. discriminate Hf.
    - intros [H|[H|[H|H]]]; discriminate H. }
  assert (Hs : checkStart (SStr name) p = Done tt).
  { unfold checkStart, isRefinement. simpl.
    destruct (String.eqb_spec name "non-empty"); [contradiction|].
    destruct (String.eqb_spec name "integer"); [contradiction|]. reflexivity. }
  rewrite Hs. cbn [bind compileStep].
  destruct (compileBasic_cases name p) as [[f [Hf Hn]]|[Hr Hn]].
  - rewrite Hf. split.
    + split; [intros _; tauto|eauto].
    + intros. tauto.
  - rewrite Hr. split.
    + split; [intros [f Hf]; discriminate|tauto].
    + reflexivity.
Qed.

Lemma bare_string_compiles_iff_base_kind_witness :
  "strung" <> "array" /\ "strung" <> "boolean" /\ "strung" <> "number"
  /\ "strung" <> "string" /\ "strung" <> "integer" /\ "strung" <> "non-empty"
  /\ @compile nanRuntime (SStr "strung") [] =
     Raise (AuthoringError [] "Unknown basic validator"
                           (Some (DFound (SStr "strung")))).
Proof.
  repeat (split; [discriminate|]).
  apply (proj2 (@bare_string_compiles_iff_base_kind nanRuntime "strung" []));
    discriminate.
Defined.

(** ** Steps that do not transform the value *)

Lemma basic_passes_or_fails g err p d : passesOrFailsAt p (basic g err p d).
Proof.
  intros x r. unfold basic.
  destruct (g x) as [[|]|]; simpl; try discriminate; intros [= <-];
    [now left|right; eauto].
Qed.

(** X6: the check of a basic validator, of a predicate and of an enum
    never transforms the value: whenever it returns, the result is the
    success of the very input or a single error located exactly at the
    path the step was compiled at. *)
Theorem plain_steps_pass_or_fail {rt : JsRuntime} (v : Schema) (p : Path) (f : FnV) :
  match v with
  | SStr _ | SPred _ _ _ | SEnum _ => True
  | _ => False
  end ->
  compileStep compile v p = Done f ->
  passesOrFailsAt p f.
Proof.
  destruct v; try contradiction; intros _; simpl.
  - unfold compileBasic.
    repeat match goal with
           | |- context [if ?c then _ else _] => destruct c
           end; try discriminate; intros [= <-]; apply basic_passes_or_fails.
  - unfold compilePredicate. destruct err as [e|]; [|discriminate].
    destruct (String.length e =? 0)%nat; [discriminate|].
    intros [= <-] x r. unfold predicateCheck.
    destruct (fn x) as [[ | |[|]| | | | | ]|]; intros [= <-];
      first [now left|right; eauto].
  - unfold compileEnum. destruct options; try discriminate.
    destruct (0 <? _)%nat; [discriminate|].
    intros [= <-]. apply basic_passes_or_fails.
Qed.

Lemma plain_steps_pass_or_fail_witness :
  exists f, @compileStep nanRuntime (@compile nanRuntime) (mkEnum [num 1; VStr "two"]) [PKey "k"] = Done f
            /\ passesOrFailsAt [PKey "k"] f.
Proof.
  eexists. split; [reflexivity|].
  apply (@plain_steps_pass_or_fail nanRuntime (mkEnum [num 1; VStr "two"])
           [PKey "k"] _ I eq_refl).
Defined.

(** ** The refinements after their base kind *)

Lemma safe_range_iff (q : Q) :
  (Qle_bool ((-9007199254740991) # 1) q && Qle_bool q (9007199254740991 # 1)
   && (Qnum q mod Zpos (Qden q) =? 0)%Z) = true
  <-> exists z, Qeq q (inject_Z z)
                /\ (-9007199254740991 <= z <= 9007199254740991)%Z.
Proof.
  destruct q as [n d]. rewrite !andb_true_iff, !Qle_bool_iff, Z.eqb_eq.
  unfold Qle, Qeq, inject_Z. simpl. split.
  - intros [[Hlo Hhi] Hmod].
    apply Z.mod_divide in Hmod; [|discriminate].
    destruct Hmod as [z Hz]. exists z. subst n. split; [ring|]. nia.
  - intros [z [Hq Hz]]. assert (Hn : n = (z * Zpos d)%Z) by lia.
    subst n. repeat split; try nia.
    apply Z.mod_mul. discriminate.
Qed.

(** X7: the chain ["number", "integer"] compiles to a check that never
    throws, never changes the value, and accepts exactly the integers of
    the safe range (NaN, the infinities, the fractions and the integers
    beyond 2^53 - 1 are refused, like every value that is not a number). *)
Theorem number_integer_accepts_safe_integers {rt : JsRuntime} (p : Path) :
  exists f,
    compile (SArr [SStr "number"; SStr "integer"]) p = Done f
    /\ neverThrows f
    /\ forall x,
         (f x = Normal (Success x) <-> safeInteger x)
         /\ (forall y, f x = Normal (Success y) -> y = x)
         /\ (~ safeInteger x ->
             f x = Normal (fail "Not a number" p None)
             \/ f x = Normal (fail "Not an integer" p None)).
Proof.
  eexists. split; [rewrite compile_chain; reflexivity|].
  assert (E : forall x,
            chainCheck
              [basic (fun x => if typeof x =? "number"
                               then cbind (ToNumber x)
                                          (fun n => Normal (negb (isNaN n)))
                               else Normal false)
                     "Not a number" p None;
               basic (fun x => cbind (ToNumber x) (fun n =>
                               if num_le MIN_SAFE_INTEGER n
                               then cbind (ToNumber x) (fun m =>
                                    if num_le m MAX_SAFE_INTEGER
                                    then Normal (isIntegerValue x)
                                    else Normal false)
                               else Normal false))
                     "Not an integer" p None] x =
            Normal (match x with
                    | VNum NaN => fail "Not a number" p None
                    | VNum (Finite q) =>
                        if Qle_bool ((-9007199254740991) # 1) q
                           && Qle_bool q (9007199254740991 # 1)
                           && (Qnum q mod Zpos (Qden q) =? 0)%Z
                        then Success x else fail "Not an integer" p None
                    | VNum _ => fail "Not an integer" p None
                    | _ => fail "Not a number" p None
                    end)).
  { intros [ | | b | [ | | | q] | s | xs | ps | fn]; try reflexivity.
    unfold chainCheck, basic. simpl.
    destruct (Qle_bool _ q); [|reflexivity]. simpl.
    destruct (Qle_bool q _); reflexivity. }
  split.
  - intros x. rewrite E. eauto.
  - intros x. rewrite E.
    assert (Hsafe : safeInteger x <->
                    exists q, x = VNum (Finite q)
                              /\ (Qle_bool ((-9007199254740991) # 1) q
                                  && Qle_bool q (9007199254740991 # 1)
                                  && (Qnum q mod Zpos (Qden q) =? 0)%Z) = true).
    { unfold safeInteger. split.
      - intros [q [z [-> H]]]. exists q. split; [reflexivity|].
        apply safe_range_iff. now exists z.
      - intros [q [-> H]]. apply safe_range_iff in H as [z H].
        now exists q, z. }
    rewrite Hsafe.
    destruct x as [ | | b | [ | | | q] | s | xs | ps | fn];
      try (split; [split; [discriminate|intros [q [H _]]; discriminate]|];
           split; [discriminate|intros _; auto]).
    destruct (_ && _ && _) eqn:B.
    + split; [split; eauto|]. split; [now intros y [= <-]|].
      intros H. exfalso. apply H. eauto.
    + split; [split; [discriminate|]|].
      * intros [q' [[= <-] H]]. congruence.
      * split; [discriminate|]. intros _. now right.
Qed.

Lemma natToString_not_length i : natToString i <> "length".
Proof.
  intros H. pose proof (NilEmpty.usu (Nat.to_uint i)) as U.
  unfold natToString in H. rewrite H in U. discriminate U.
Qed.

Lemma natToString_inj a b : natToString a = natToString b -> a = b.
Proof.
  intros H. unfold natToString in H.
  apply (f_equal NilEmpty.uint_of_string) in H.
  rewrite !NilEmpty.usu in H. injection H as H.
  apply (f_equal Nat.of_uint) in H. now rewrite !Unsigned.of_to in H.
Qed.

Lemma lookup_not_an_index (k : string) (xs : list Value) : forall n,
  (forall i, natToString i <> k) ->
  lookup k (combine (map natToString (seq n (List.length xs))) xs) = None.
Proof.
  induction xs as [|x xs IH]; intros n H; simpl; [reflexivity|].
  destruct (String.eqb_spec (natToString n) k) as [E|_]; [now apply H in E|].
  now apply IH.
Qed.

Lemma length_of_array {rt : JsRuntime} (xs : list Value) :
  getProp (VArr xs) "length" = Normal (VNum (ofNat (List.length xs))).
Proof.
  unfold getProp, ownEntries, indexEntries.
  now rewrite (lookup_not_an_index _ 0 natToString_not_length).
Qed.

Lemma length_of_string {rt : JsRuntime} (s : string) :
  getProp (VStr s) "length" = Normal (VNum (ofNat (String.length s))).
Proof.
  unfold getProp, ownEntries, indexEntries.
  now rewrite (lookup_not_an_index _ 0 natToString_not_length).
Qed.

Lemma positive_length (n : nat) : num_lt (ofNat 0) (ofNat n) = (0 <? n)%nat.
Proof.
  unfold num_lt, ofNat, Qle_bool. simpl. destruct n; [reflexivity|].
  rewrite Z.mul_1_r. simpl. reflexivity.
Qed.

Lemma nonempty_check {rt : JsRuntime} (x : Value) (n : nat) p :
  getProp x "length" = Normal (VNum (ofNat n)) ->
  basic (fun x => cbind (getProp x "length") (fun len =>
                  cbind (ToNumber len) (fun n =>
                  Normal (num_lt (ofNat 0) n))))
        "Is empty" p None x =
  Normal (if (0 <? n)%nat then Success x else fail "Is empty" p None).
Proof.
  intros H. unfold basic. rewrite H. cbn [cbind ToNumber].
  now rewrite positive_length.
Qed.

(** X8: the chains ["string", "non-empty"] and ["array", "non-empty"]
    compile to checks that never throw and accept, unchanged, exactly the
    strings, resp. the arrays, that are not empty; the empty string and
    the empty array fail with "Is empty". *)
Theorem nonempty_after_string_or_array {rt : JsRuntime} (p : Path) :
  (exists f,
     compile (SArr [SStr "string"; SStr "non-empty"]) p = Done f
     /\ neverThrows f
     /\ (forall x, f x = Normal (Success x) <-> exists s, x = VStr s /\ s <> "")
     /\ (forall x y, f x = Normal (Success y) -> y = x)
     /\ f (VStr "") = Normal (fail "Is empty" p None))
  /\ (exists f,
        compile (SArr [SStr "array"; SStr "non-empty"]) p = Done f
        /\ neverThrows f
        /\ (forall x, f x = Normal (Success x) <-> exists xs, x = VArr xs /\ xs <> [])
        /\ (forall x y, f x = Normal (Success y) -> y = x)
        /\ f (VArr []) = Normal (fail "Is empty" p None)).
Proof.
  split.
  - eexists. split; [rewrite compile_chain; reflexivity|].
    assert (E : forall x,
              chainCheck
                [basic (fun x => Normal (typeof x =? "string")) "Not a string" p None;
                 basic (fun x => cbind (getProp x "length") (fun len =>
                                 cbind (ToNumber len) (fun n =>
                                 Normal (num_lt (ofNat 0) n))))
                       "Is empty" p None] x =
              Normal (match x with
                      | VStr s => if (0 <? String.length s)%nat
                                  then Success x else fail "Is empty" p None
                      | _ => fail "Not a string" p None
                      end)).
    { intros [ | | b | n | s | xs | ps | fn]; try reflexivity.
      unfold chainCheck. cbn [fold_left chainStep ok].
      change (basic (fun x => Normal (typeof x =? "string")) "Not a string" p None (VStr s))
        with (Normal (Success (VStr s))).
      cbn [chainStep]. apply nonempty_check, length_of_string. }
    split; [intros x; rewrite E; eauto|].
    split; [|split; [|apply E]].
    + intros x. rewrite E. split.
      * destruct x as [ | | b | n | s | xs | ps | fn]; try discriminate.
        destruct s; [discriminate|]. intros _. eexists. split; [reflexivity|discriminate].
      * intros [s [-> Hs]]. destruct s; [contradiction|reflexivity].
    + intros x y. rewrite E.
      destruct x as [ | | b | n | s | xs | ps | fn]; try discriminate.
      destruct (0 <? _)%nat; [now intros [= <-]|discriminate].
  - eexists. split; [rewrite compile_chain; reflexivity|].
    assert (E : forall x,
              chainCheck
                [basic (fun x => Normal (isArray x)) "Not an array" p None;
                 basic (fun x => cbind (getProp x "length") (fun len =>
                                 cbind (ToNumber len) (fun n =>
                                 Normal (num_lt (ofNat 0) n))))
                       "Is empty" p None] x =
              Normal (match x with
                      | VArr xs => if (0 <? List.length xs)%nat
                                   then Success x else fail "Is empty" p None
                      | _ => fail "Not an array" p None
                      end)).
    { intros [ | | b | n | s | xs | ps | fn]; try reflexivity.
      unfold chainCheck. cbn [fold_left chainStep ok].
      change (basic (fun x => Normal (isArray x)) "Not an array" p None (VArr xs))
        with (Normal (Success (VArr xs))).
      cbn [chainStep]. apply nonempty_check, length_of_array. }
    split; [intros x; rewrite E; eauto|].
    split; [|split; [|apply E]].
    + intros x. rewrite E. split.
      * destruct x as [ | | b | n | s | xs | ps | fn]; try discriminate.
        destruct xs; [discriminate|]. intros _. eexists. split; [reflexivity|discriminate].
      * intros [xs [-> Hs]]. destruct xs; [contradiction|reflexivity].
    + intros x y. rewrite E.
      destruct x as [ | | b | n | s | xs | ps | fn]; try discriminate.
      destruct (0 <? _)%nat; [now intros [= <-]|discriminate].
Qed.

(** ** Enum options *)

Lemma filter_nil_forallb {A} (g : A -> bool) (l : list A) :
  filter (fun v => negb (g v)) l = [] <-> forallb g l = true.
Proof.
  induction l as [|a l IH]; simpl; [tauto|].
  destruct (g a); simpl; [exact IH|]. split; discriminate.
Qed.

(** X9: an enum compiles exactly when its options are an array of
    literals (strings, numbers, booleans). A value that is not an array is
    reported as it is; otherwise the error lists the options that are not
    literals, in their order, and there is at least one. *)
Theorem enum_compiles_iff_literals {rt : JsRuntime} (options : Value) (p : Path) :
  ((exists f, compile (SEnum options) p = Done f) <->
   (exists opts, options = VArr opts /\ forallb isLiteral opts = true))
  /\ (isArray options = false ->
      compile (SEnum options) p =
      Raise (AuthoringError p "`V.enum` expects an array of options as an argument"
                            (Some (DUnexpected options))))
  /\ (forall opts, options = VArr opts -> forallb isLiteral opts = false ->
        filter (fun v => negb (isLiteral v)) opts <> []
        /\ compile (SEnum options) p =
           Raise (AuthoringError p "`V.enum` can only accept literal values as options"
                    (Some (DUnexpected (VArr (filter (fun v => negb (isLiteral v)) opts)))))).
Proof.
  assert (E : compile (SEnum options) p = compileEnum options p)
    by now rewrite compile_step.
  rewrite E. split; [|split].
  - split.
    + intros [f Hf]. unfold compileEnum in Hf.
      destruct options; try discriminate.
      exists items. split; [reflexivity|].
      apply filter_nil_forallb.
      destruct (filter _ items); [reflexivity|discriminate].
    + intros [opts [-> H]]. rewrite (compileEnum_literals _ p H). eauto.
  - destruct options; try reflexivity. discriminate.
  - intros opts -> H.
    assert (Hne : filter (fun v => negb (isLiteral v)) opts <> []).
    { intros Hnil. apply filter_nil_forallb in Hnil. congruence. }
    split; [exact Hne|]. unfold compileEnum.
    now rewrite (not_empty_length Hne).
Qed.

Lemma enum_compiles_iff_literals_witness :
  isArray (VBool true) = false
  /\ @compile nanRuntime (SEnum (VBool true)) [] =
     Raise (AuthoringError [] "`V.enum` expects an array of options as an argument"
                           (Some (DUnexpected (VBool true))))
  /\ forallb isLiteral [num 1; VArr []; VStr "a"; VNull] = false
  /\ @compile nanRuntime (mkEnum [num 1; VArr []; VStr "a"; VNull]) [] =
     Raise (AuthoringError [] "`V.enum` can only accept literal values as options"
                           (Some (DUnexpected (VArr [VArr []; VNull])))).
Proof.
  split; [reflexivity|]. split.
  - exact (proj1 (proj2 (@enum_compiles_iff_literals nanRuntime (VBool true) []))
             eq_refl).
  - split; [reflexivity|].
    exact (proj2 (proj2 (proj2 (@enum_compiles_iff_literals nanRuntime
                                  (VArr [num 1; VArr []; VStr "a"; VNull]) []))
                        _ eq_refl eq_refl)).
Defined.

(** ** Caller-supplied code *)

(** X10: a predicate compiles exactly when it has a non-empty message, and
    a function always compiles. Their checks never throw, whatever the
    caller's function does: what it throws is turned into a failure at the
    path of the step that carries it as [caught]; a predicate passes the
    input unchanged only on the value [true]; a function result is
    rebased under the path of the step, and a returned value that is not
    a [Result] is reported as [found]. *)
Theorem caller_code_is_contained {rt : JsRuntime} (p : Path) :
  (forall fn err dt,
     ((exists f, compile (SPred fn err dt) p = Done f) <->
      (exists e, err = Some e /\ e <> ""))
     /\ (forall f, compile (SPred fn err dt) p = Done f ->
           neverThrows f
           /\ (forall x, fn x = Normal (VBool true) -> f x = Normal (Success x))
           /\ (forall x e, fn x = Throw e ->
                 f x = Normal (fail "Predicate function threw an error" p
                                    (Some (caught e))))))
  /\ (forall fn,
        exists f, compile (SFn fn) p = Done f
          /\ neverThrows f
          /\ (forall x r, fn x = Normal (RetResult r) -> f x = Normal (at_ r p))
          /\ (forall x v, fn x = Normal (RetOther v) ->
                f x = Normal (fail "Validation function did not return a `Result`" p
                                   (Some (found v))))
          /\ (forall x e, fn x = Throw e ->
                f x = Normal (fail "Validation function threw an error" p
                                   (Some (caught e))))).
Proof.
  split.
  - intros fn err dt.
    assert (E : compile (SPred fn err dt) p = compilePredicate fn err dt p)
      by now rewrite compile_step.
    rewrite E. unfold compilePredicate. split.
    + split.
      * intros [f Hf]. destruct err as [e|]; [|discriminate].
        exists e. split; [reflexivity|]. intros ->. discriminate.
      * intros [e [-> He]]. destruct e; [contradiction|]. simpl. eauto.
    + intros f Hf. destruct err as [e|]; [|discriminate].
      destruct (String.length e =? 0)%nat; [discriminate|].
      injection Hf as <-. unfold predicateCheck. repeat split.
      * intros x. destruct (fn x) as [[ | |[|]| | | | | ]|]; eauto.
      * intros x ->. reflexivity.
      * intros x e' ->. reflexivity.
  - intros fn. exists (compileFunction fn p).
    split; [now rewrite compile_step|]. unfold compileFunction. repeat split.
    + intros x. destruct (fn x) as [[r|v]|e]; eauto.
    + intros x r ->. reflexivity.
    + intros x v ->. reflexivity.
    + intros x e ->. reflexivity.
Qed.

Lemma caller_code_is_contained_witness :
  exists f,
    @compile nanRuntime
      (predicate (fun _ => Throw (mkJsError "Error" "oops")) (Some "Unreachable") None)
      [] = Done f
    /\ f (num 2) = Normal (fail "Predicate function threw an error" []
                                (Some (caught (mkJsError "Error" "oops")))).
Proof.
  eexists. split; [reflexivity|].
  exact (proj2 (proj2 (proj2 (proj1 (@caller_code_is_contained nanRuntime [])
                                (fun _ => Throw (mkJsError "Error" "oops"))
                                (Some "Unreachable") None) _ eq_refl))
               (num 2) _ eq_refl).
Defined.

(** ** Merging a chain of objects *)

Lemma objects_typed (fss : list (list (string * Schema))) p :
  traverse (fun v => ty <- stepType v p ;; Done (ty, v)) (map object fss) =
  Done (map (fun fs => (objectType, object fs)) fss).
Proof.
  induction fss as [|fs fss IH]; simpl; [reflexivity|].
  now rewrite IH.
Qed.

Lemma objects_merged (fss : list (list (string * Schema))) :
  fss <> [] ->
  mergeGroups (map (fun fs => (objectType, object fs)) fss) =
  [object (List.concat fss)].
Proof.
  intros Hne. unfold mergeGroups, group.
  destruct fss as [|fs fss]; [congruence|]. cbn [map].
  rewrite (@groupFrom_same_type objectType).
  2:{ apply Forall_forall. intros y Hy.
      change (In y (map (fun fs => (objectType, object fs)) (fs :: fss))) in Hy.
      apply in_map_iff in Hy as [? [<- _]]. reflexivity. }
  cbn. unfold objectMerger, object. do 2 f_equal.
  rewrite map_map. cbn. f_equal.
  induction fss as [|gs gss IH]; simpl; [reflexivity|].
  now rewrite IH.
Qed.

Lemma flat_objects (fss : list (list (string * Schema))) :
  flat (map object fss) = map object fss.
Proof. apply flat_no_chain. induction fss; simpl; auto. Qed.

Lemma object_chain_compile {rt : JsRuntime} (fss : list (list (string * Schema))) p :
  fss <> [] ->
  compile (SArr (map object fss)) p =
  match fss with
  | [_] => compileObject compile (List.concat fss) p
  | _ => c <- compileObject compile (List.concat fss) p ;; Done (chainCheck [c])
  end.
Proof.
  intros Hne. rewrite compile_chain, flat_objects.
  destruct fss as [|fs [|gs fss]]; [congruence| |].
  - simpl. now rewrite app_nil_r.
  - change (map object (fs :: gs :: fss))
      with (object fs :: object gs :: map object fss).
    rewrite compileChain_long.
    change (object fs :: object gs :: map object fss)
      with (map object (fs :: gs :: fss)).
    change (checkStart (object fs) p) with (Done (A:=unit) tt).
    rewrite objects_typed. cbn [bind].
    rewrite objects_merged by discriminate.
    cbn [checkAdjacent checkFollows bind traverse compileStep object].
    destruct (compileObject _ _ p); reflexivity.
Qed.

(** X11: a chain of object steps compiles exactly as the single object
    whose fields are the field lists of the steps, concatenated in order:
    it throws the same error, or it yields a check with the same results
    on every input. *)
Theorem object_chain_is_merged_object {rt : JsRuntime}
  (fss : list (list (string * Schema))) (p : Path) :
  fss <> [] ->
  (forall e, compile (object (List.concat fss)) p = Raise e ->
     compile (SArr (map object fss)) p = Raise e)
  /\ (forall g, compile (object (List.concat fss)) p = Done g ->
        exists f, compile (SArr (map object fss)) p = Done f
                  /\ forall x, f x = g x).
Proof.
  intros Hne. rewrite compile_object, (object_chain_compile p Hne). split.
  - intros e He. rewrite He. now destruct fss as [|fs [|gs fss]].
  - intros g Hg. rewrite Hg.
    destruct fss as [|fs [|gs fss]]; eexists; split; try reflexivity;
      intros x; reflexivity.
Qed.

Lemma object_chain_is_merged_object_witness :
  [[("a", SStr "boolean")]; [("b", SStr "string")]] <> []
  /\ exists f g,
       @compile nanRuntime (SArr [object [("a", SStr "boolean")];
                                  object [("b", SStr "string")]]) [] = Done f
       /\ @compile nanRuntime (object [("a", SStr "boolean"); ("b", SStr "string")]) []
          = Done g
       /\ forall x, f x = g x.
Proof.
  split; [discriminate|].
  destruct (proj2 (@object_chain_is_merged_object nanRuntime
                     [[("a", SStr "boolean")]; [("b", SStr "string")]] []
                     ltac:(discriminate)) _ eq_refl) as [f [Hf Hfg]].
  exists f. eexists. split; [exact Hf|]. split; [reflexivity|exact Hfg].
Defined.

(** ** Short and empty chains *)

(** X12: a chain of one step compiles exactly as that step alone, and a
    chain that is empty once flattened never compiles: it throws "Cannot
    compile an empty chain" at the path. *)
Theorem short_chains {rt : JsRuntime} (p : Path) :
  (forall v, isChain v = false -> compile (SArr [v]) p = compile v p)
  /\ (forall v, isChain v = false -> compile (SArr [SArr [v]]) p = compile v p)
  /\ (forall items, flat items = [] ->
        compile (SArr items) p =
        Raise (AuthoringError p "Cannot compile an empty chain" None)).
Proof.
  assert (H : forall items v, isChain v = false -> flat items = [v] ->
                compile (SArr items) p = compile v p).
  { intros items v Hv Hf. rewrite compile_chain, Hf, (compile_step _ p Hv).
    reflexivity. }
  split; [|split].
  - intros v Hv. apply H; [exact Hv|]. now rewrite flat_step.
  - intros v Hv. apply H; [exact Hv|]. unfold flat. simpl. reflexivity.
  - intros items Hf. now rewrite compile_chain, Hf.
Qed.

Lemma short_chains_witness :
  flat [SArr []; SArr []] = []
  /\ @compile nanRuntime (SArr [SArr []; SArr []]) [PKey "k"] =
     Raise (AuthoringError [PKey "k"] "Cannot compile an empty chain" None)
  /\ isChain (SStr "number") = false
  /\ @compile nanRuntime (SArr [SStr "number"]) [] = @compile nanRuntime (SStr "number") [].
Proof.
  split; [reflexivity|]. split.
  - exact (proj2 (proj2 (@short_chains nanRuntime [PKey "k"]))
             [SArr []; SArr []] eq_refl).
  - split; [reflexivity|].
    exact (proj1 (@short_chains nanRuntime []) (SStr "number") eq_refl).
Defined.

(** ** Adjacent steps *)

Lemma stepType_path v p q t : stepType v p = Done t -> stepType v q = Done t.
Proof. destruct v; simpl; auto; discriminate. Qed.

Lemma stepType_not_chain v p t : stepType v p = Done t -> isChain v = false.
Proof. destruct v; simpl; auto; discriminate. Qed.

Lemma merge_single (t : string) (v : Schema) p :
  stepType v p = Done t ->
  exists m,
    match mergers t with Some merger => [merger [v]] | None => [v] end = [m]
    /\ stepType m p = Done t.
Proof.
  intros Hv. unfold mergers.
  destruct (String.eqb_spec t objectType) as [->|_]; [eexists; split; reflexivity|].
  destruct (String.eqb_spec t enumType) as [->|_]; [eexists; split; reflexivity|].
  eauto.
Qed.

Lemma mergers_compatible t m : mergers t = Some m -> isCompatible t t = true.
Proof.
  unfold mergers.
  destruct (String.eqb_spec t objectType) as [->|_]; [reflexivity|].
  destruct (String.eqb_spec t enumType) as [->|_]; [reflexivity|discriminate].
Qed.

(** X13: a chain of two steps whose kinds are kinds of [ValidatorType]
    that [isCompatible] refuses never compiles: once the first step has
    passed the start test, compilation throws, at the path, the error
    naming the second kind and then the first. *)
Theorem incompatible_pair_is_refused {rt : JsRuntime}
  (v0 v1 : Schema) (t0 t1 : string) (p : Path) :
  checkStart v0 p = Done tt ->
  stepType v0 p = Done t0 ->
  stepType v1 p = Done t1 ->
  knownKind t0 = true ->
  knownKind t1 = true ->
  isCompatible t0 t1 = false ->
  compile (SArr [v0; v1]) p =
  Raise (AuthoringError p
           ("Validator type " ++ printCode t1 ++
            " cannot follow " ++ printCode t0)%string None).
Proof.
  intros Hs H0 H1 _ _ Hc. rewrite compile_chain.
  assert (Hf : flat [v0; v1] = [v0; v1]).
  { rewrite flat_step by (eapply stepType_not_chain; eauto).
    now rewrite flat_step by (eapply stepType_not_chain; eauto). }
  rewrite Hf, compileChain_long, Hs. cbn [bind traverse].
  rewrite H0, H1. cbn [bind].
  assert (Hm : exists m0 m1 rest,
            mergeGroups [(t0, v0); (t1, v1)] = m0 :: m1 :: rest
            /\ stepType m0 p = Done t0 /\ stepType m1 p = Done t1).
  { unfold mergeGroups, group. cbn [groupFrom fst].
    destruct (String.eqb_spec t0 t1) as [->|Hne].
    - cbn [map flat_map groupType fst snd].
      destruct (mergers t1) as [m|] eqn:Em.
      + apply mergers_compatible in Em. congruence.
      + exists v0, v1, []. auto.
    - cbn [map flat_map groupType fst snd].
      destruct (merge_single v0 p H0) as [m0 [E0 T0]].
      destruct (merge_single v1 p H1) as [m1 [E1 T1]].
      rewrite E0, E1. exists m0, m1, []. auto. }
  destruct Hm as [m0 [m1 [rest [-> [T0 T1]]]]].
  cbn [checkAdjacent checkFollows]. rewrite T0, T1. cbn [bind].
  rewrite Hc. cbn [bind]. reflexivity.
Qed.

Lemma incompatible_pair_is_refused_witness :
  checkStart (SStr "array") [] = Done tt
  /\ knownKind "array" = true
  /\ isCompatible "array" "array" = false
  /\ @compile nanRuntime (SArr [SStr "array"; SStr "array"]) [] =
     Raise (AuthoringError [] "Validator type `array` cannot follow `array`" None).
Proof.
  split; [reflexivity|]. split; [reflexivity|]. split; [reflexivity|].
  exact (@incompatible_pair_is_refused nanRuntime (SStr "array") (SStr "array")
           "array" "array" [] eq_refl eq_refl eq_refl eq_refl eq_refl eq_refl).
Defined.

(** ** Chains without mergeable steps *)

Lemma group_nonempty {A} (f : A -> A -> bool) (xs : list A) :
  Forall (fun g => g <> []) (group xs f).
Proof.
  destruct xs as [|x xs]; simpl; [constructor|].
  destruct (groupFrom f x xs) as [run later] eqn:E.
  destruct (groupFrom_runs _ _ _ E) as [_ [Hf _]].
  constructor; [discriminate|].
  eapply Forall_impl; [|exact Hf]. now intros g [Hg _].
Qed.

Lemma mergeGroups_plain (typed : list (string * Schema)) :
  Forall (fun tv => mergers (fst tv) = None) typed ->
  mergeGroups typed = map snd typed.
Proof.
  intros H. unfold mergeGroups.
  set (f := fun x y : string * Schema => fst x =? fst y).
  assert (G : forall gs : list (list (string * Schema)),
            Forall (fun g => g <> []
                             /\ Forall (fun tv => mergers (fst tv) = None) g) gs ->
            flat_map (fun g : string * list Schema =>
                        match mergers (fst g) with
                        | Some merger => [merger (snd g)]
                        | None => snd g
                        end)
                     (map (fun g => (groupType g, map snd g)) gs) =
            map snd (List.concat gs)).
  { induction 1 as [|g gs [Hne Hg] _ IH]; [reflexivity|].
    cbn [map flat_map List.concat]. rewrite IH, map_app. f_equal.
    destruct g as [|[t v] g]; [congruence|]. cbn [groupType fst snd].
    pose proof (Forall_inv Hg) as Ht. simpl in Ht. now rewrite Ht. }
  rewrite G; [now rewrite group_concat|].
  apply Forall_forall. intros g Hg. split.
  - pose proof (group_nonempty f typed) as N.
    rewrite Forall_forall in N. now apply N.
  - apply Forall_forall. intros tv Htv.
    rewrite Forall_forall in H. apply H. eapply group_In; eauto.
Qed.

Lemma not_mergeable_kind v p t :
  stepType v p = Done t -> isMergeable v = false -> mergers t = None.
Proof.
  unfold mergers. destruct v; simpl; try discriminate; intros [= <-];
    try reflexivity.
  intros H. apply orb_false_iff in H as [-> ->]. reflexivity.
Qed.

Lemma checkFollows_linked prev rest p last :
  checkFollows prev rest p = Done last -> linked compatibleSteps (prev :: rest).
Proof.
  revert prev. induction rest as [|curr rest IH]; intros prev; simpl; [auto|].
  destruct (stepType prev p) as [x|] eqn:Hx; simpl; [|discriminate].
  destruct (stepType curr p) as [y|] eqn:Hy; simpl; [|discriminate].
  destruct (isCompatible x y) eqn:Hc; [|discriminate].
  intros H. split; [|now apply IH].
  unfold compatibleSteps.
  now rewrite (@stepType_path _ _ [] _ Hx), (@stepType_path _ _ [] _ Hy).
Qed.

(** X14: in a chain that holds no object or enum step, merging changes
    nothing: when the chain compiles, every step of the flattened chain
    compiles on its own at the path, the check of the chain runs those
    compiled steps in order, and [isCompatible] holds between the kinds of
    every two neighbouring steps. *)
Theorem unmerged_chain_compiles_stepwise {rt : JsRuntime}
  (items : list Schema) (p : Path) (f : FnV) :
  forallb (fun v => negb (isMergeable v)) (flat items) = true ->
  compile (SArr items) p = Done f ->
  exists compiledSteps,
    Forall2 (fun v c => compileStep compile v p = Done c) (flat items) compiledSteps
    /\ (forall x, f x = chainCheck compiledSteps x)
    /\ linked compatibleSteps (flat items).
Proof.
  intros Hm Hc. rewrite compile_chain in Hc.
  destruct (flat items) as [|v0 [|v1 rest]] eqn:Hflat.
  - discriminate.
  - unfold compileChain in Hc.
    destruct (checkStart v0 p); cbn [bind] in Hc; [|discriminate].
    exists [f]. split; [repeat constructor; exact Hc|].
    split; [reflexivity|exact I].
  - rewrite compileChain_long in Hc.
    destruct (checkStart v0 p); cbn [bind] in Hc; [|discriminate].
    destruct (traverse _ (v0 :: v1 :: rest)) as [typed|] eqn:Ht;
      cbn [bind] in Hc; [|discriminate].
    assert (Hplain : mergeGroups typed = v0 :: v1 :: rest).
    { rewrite mergeGroups_plain; [apply (typed_steps _ _ Ht)|].
      apply traverse_Forall2 in Ht.
      eapply Forall2_Forall_r; [exact Ht|].
      intros v [t v'] Hin. simpl.
      destruct (stepType v p) as [t'|] eqn:Hv; simpl; [|discriminate].
      intros [= <- <-]. eapply not_mergeable_kind; [exact Hv|].
      rewrite forallb_forall in Hm. specialize (Hm _ Hin).
      now apply negb_true_iff in Hm. }
    rewrite Hplain in Hc.
    destruct (checkAdjacent (v0 :: v1 :: rest) p) as [last|] eqn:Ha;
      cbn [bind] in Hc; [|discriminate].
    destruct (traverse (fun v => compileStep compile v p) (v0 :: v1 :: rest))
      as [compiledSteps|] eqn:Hs; cbn [bind] in Hc; [|discriminate].
    injection Hc as <-. exists compiledSteps.
    split; [now apply traverse_Forall2|].
    split; [reflexivity|].
    eapply checkFollows_linked. exact Ha.
Qed.

Lemma unmerged_chain_compiles_stepwise_witness :
  forallb (fun v => negb (isMergeable v))
          (flat [SStr "string"; SArr [SStr "non-empty"]]) = true
  /\ exists f compiledSteps,
       @compile nanRuntime (SArr [SStr "string"; SArr [SStr "non-empty"]]) [] = Done f
       /\ Forall2 (fun v c => @compileStep nanRuntime (@compile nanRuntime) v [] = Done c)
                  [SStr "string"; SStr "non-empty"] compiledSteps
       /\ forall x, f x = chainCheck compiledSteps x.
Proof.
  split; [reflexivity|]. eexists.
  destruct (@unmerged_chain_compiles_stepwise nanRuntime
              [SStr "string"; SArr [SStr "non-empty"]] [] _ eq_refl eq_refl)
    as [cs [H2 [Hf _]]].
  exists cs. split; [reflexivity|]. split; [exact H2|exact Hf].
Defined.

(** ** Where authoring errors are located *)

Lemma traverse_Raise {A B} (g : A -> Comp B) (xs : list A) e :
  traverse g xs = Raise e -> exists x, In x xs /\ g x = Raise e.
Proof.
  induction xs as [|x xs IH]; simpl; [discriminate|].
  destruct (g x) as [y|e'] eqn:Hg; simpl.
  - destruct (traverse g xs) as [ys|e']; simpl; [discriminate|].
    intros [= <-]. destruct (IH eq_refl) as [x' [Hin Hx']]. eauto.
  - intros [= <-]. eauto.
Qed.

Lemma filterComp_Raise {A} (g : A -> Comp bool) (xs : list A) e :
  filterComp g xs = Raise e -> exists x, In x xs /\ g x = Raise e.
Proof.
  induction xs as [|x xs IH]; simpl; [discriminate|].
  destruct (g x) as [y|e'] eqn:Hg; simpl.
  - destruct (filterComp g xs) as [ys|e']; simpl; [discriminate|].
    intros [= <-]. destruct (IH eq_refl) as [x' [Hin Hx']]. eauto.
  - intros [= <-]. eauto.
Qed.

Lemma raisesUnder_extend {A} p s (c : Comp A) :
  raisesUnder (p ++ s) c -> raisesUnder p c.
Proof. intros H q msg d Hc. eapply hasPrefix_extend, H, Hc. Qed.

Lemma raisesUnder_here {A} p msg d : raisesUnder p (@Raise A (AuthoringError p msg d)).
Proof. intros q msg' d' [= <- _ _]. apply hasPrefix_refl. Qed.

Lemma raisesUnder_Done {A} p (a : A) : raisesUnder p (Done a).
Proof. intros q msg d H. discriminate. Qed.

Lemma raisesUnder_bind {A B} p (c : Comp A) (k : A -> Comp B) :
  raisesUnder p c -> (forall a, c = Done a -> raisesUnder p (k a)) ->
  raisesUnder p (bind c k).
Proof.
  intros Hc Hk. destruct c as [a|e]; simpl; [now apply Hk|].
  intros q msg d [= ->]. exact (Hc q msg d eq_refl).
Qed.

Lemma stepType_raises v p : raisesUnder p (stepType v p).
Proof.
  destruct v; simpl; first [apply raisesUnder_Done|apply raisesUnder_here].
Qed.

Lemma isOptional_raises v p : raisesUnder p (isOptional v p).
Proof.
  assert (G : forall w, raisesUnder p (ty <- stepType w p ;; Done (ty =? optionalType))).
  { intros w. apply raisesUnder_bind; [apply stepType_raises|].
    intros. apply raisesUnder_Done. }
  revert v. fix IH 1. intros v.
  destruct v; try apply (G _).
  destruct items as [|v0 items]; [apply (G (SOther VUndefined))|].
  simpl. apply IH.
Qed.

Lemma checkStart_raises v p : raisesUnder p (checkStart v p).
Proof.
  unfold checkStart. destruct (negb _); [apply raisesUnder_Done|].
  apply raisesUnder_bind; [apply stepType_raises|].
  intros. apply raisesUnder_here.
Qed.

Lemma checkFollows_raises rest : forall prev p, raisesUnder p (checkFollows prev rest p).
Proof.
  induction rest as [|curr rest IH]; intros prev p; simpl;
    [apply raisesUnder_Done|].
  apply raisesUnder_bind; [apply stepType_raises|]. intros x _.
  apply raisesUnder_bind; [apply stepType_raises|]. intros y _.
  destruct (isCompatible x y); [apply IH|apply raisesUnder_here].
Qed.

Lemma raisesUnder_traverse {A B} p (g : A -> Comp B) (xs : list A) :
  (forall x, In x xs -> raisesUnder p (g x)) -> raisesUnder p (traverse g xs).
Proof.
  intros H q msg d Hr. apply traverse_Raise in Hr as [x [Hin Hx]].
  exact (H x Hin q msg d Hx).
Qed.

Section Authoring.

Context {rt : JsRuntime}.
Variable compile0 : Compiler.

Lemma compileStep_raises v p :
  (forall c q, In c (children v) -> raisesUnder q (compile0 c q)) ->
  raisesUnder p (compileStep compile0 v p).
Proof.
  intros H. destruct v; simpl.
  - unfold compileBasic.
    repeat match goal with
           | |- context [if ?c then _ else _] => destruct c
           end; first [apply raisesUnder_Done|apply raisesUnder_here].
  - apply raisesUnder_Done.
  - unfold compilePredicate. destruct err as [e|]; [|apply raisesUnder_here].
    destruct (String.length e =? 0)%nat;
      [apply raisesUnder_here|apply raisesUnder_Done].
  - unfold compileOptional.
    apply raisesUnder_bind; [apply H; now left|].
    intros g _. destruct (g fallback) as [[value|es]|].
    + apply raisesUnder_Done.
    + apply raisesUnder_here.
    + intros q msg d Hr. discriminate.
  - unfold compileEnum. destruct options; try apply raisesUnder_here.
    destruct (0 <? _)%nat; [apply raisesUnder_here|apply raisesUnder_Done].
  - unfold compileObject.
    apply raisesUnder_bind.
    { intros q msg d Hr. apply filterComp_Raise in Hr as [[k s] [_ Hr]].
      simpl in Hr. pose proof (isOptional_raises s p) as Ho.
      destruct (isOptional s p); simpl in Hr; [discriminate|].
      exact (Ho q msg d Hr). }
    intros required _. apply raisesUnder_bind; [|intros; apply raisesUnder_Done].
    apply raisesUnder_traverse. intros [k s] Hin.
    apply raisesUnder_bind; [|intros; apply raisesUnder_Done].
    eapply raisesUnder_extend. apply H. simpl.
    apply in_map_iff. now exists (k, s).
  - unfold compileIndexed.
    apply raisesUnder_bind; [|intros; apply raisesUnder_Done].
    apply raisesUnder_traverse. intros [ix s] Hin.
    eapply raisesUnder_extend. apply H. eapply In_withIndex; eauto.
  - unfold compileOneOf.
    apply raisesUnder_bind; [|intros; apply raisesUnder_Done].
    apply raisesUnder_traverse. intros [ix s] Hin.
    eapply raisesUnder_extend. apply H. eapply In_withIndex; eauto.
  - apply raisesUnder_here.
  - apply raisesUnder_here.
Qed.

Lemma compileChain_raises vs p :
  (forall v c q, In v vs -> In c (children v) -> raisesUnder q (compile0 c q)) ->
  raisesUnder p (compileChain compile0 vs p).
Proof.
  intros H. unfold compileChain.
  destruct vs as [|v0 rest]; [apply raisesUnder_here|].
  apply raisesUnder_bind; [apply checkStart_raises|]. intros _ _.
  destruct rest as [|v1 rest].
  { apply compileStep_raises. intros c q Hc. eapply H; eauto. now left. }
  apply raisesUnder_bind.
  { apply raisesUnder_traverse. intros v _.
    apply raisesUnder_bind; [apply stepType_raises|].
    intros. apply raisesUnder_Done. }
  intros typed Ht.
  apply raisesUnder_bind.
  { unfold checkAdjacent. destruct (mergeGroups typed).
    - intros q msg d Hr. discriminate.
    - apply checkFollows_raises. }
  intros _ _.
  apply raisesUnder_bind; [|intros; apply raisesUnder_Done].
  apply raisesUnder_traverse. intros m Hm.
  apply compileStep_raises. intros c q Hc.
  destruct (mergeGroups_children _ _ _ Hm Hc) as [v [Hv Hcv]].
  rewrite (typed_steps _ _ Ht) in Hv. eapply H; eauto.
Qed.

Lemma compileWith_raises s p :
  (forall c q, depth c < depth s -> raisesUnder q (compile0 c q)) ->
  raisesUnder p (compileWith compile0 s p).
Proof.
  intros H.
  assert (Hstep : raisesUnder p (compileStep compile0 s p)).
  { apply compileStep_raises. intros c q Hc. apply H. now apply depth_child. }
  destruct s; unfold compileWith;
    try (apply raisesUnder_bind; [apply checkStart_raises|intros; exact Hstep]).
  apply compileChain_raises. intros v c q Hv Hc. apply H.
  pose proof (depth_child _ _ Hc).
  apply flat_In in Hv as [Hv|[its [Hits Hv]]].
  - pose proof (depth_item _ _ Hv). lia.
  - pose proof (depth_item _ _ Hits). pose proof (depth_item _ _ Hv). lia.
Qed.

End Authoring.

Lemma compile_raises {rt : JsRuntime} s : forall p, raisesUnder p (compile s p).
Proof.
  remember (depth s) as n eqn:Hn.
  revert s Hn. induction n as [n IH] using lt_wf_ind.
  intros s -> p. rewrite compile_unfold.
  apply compileWith_raises. intros c q Hd. eapply IH; eauto.
Qed.

(** X15: an authoring error thrown while compiling a schema at a path is
    located at that path or below it: its path starts with the path
    compilation was started at (the root, for the public entry point). *)
Theorem authoring_errors_are_located {rt : JsRuntime}
  (s : Schema) (p q : Path) (msg : string) (d : option AuthoringDetails) :
  compile s p = Raise (AuthoringError q msg d) -> hasPrefix p q.
Proof. apply compile_raises. Qed.

Lemma authoring_errors_are_located_witness :
  @compile nanRuntime
    (object [("p", indexed [SStr "string"; SOther (VObj [])])]) [PKey "root"] =
  Raise (AuthoringError [PKey "root"; PKey "p"; PIndex 1]
           "Could not compile unrecognised validator step"
           (Some (DFound (SOther (VObj [])))))
  /\ hasPrefix [PKey "root"] [PKey "root"; PKey "p"; PIndex 1].
Proof.
  split; [reflexivity|].
  exact (@authoring_errors_are_located nanRuntime
           (object [("p", indexed [SStr "string"; SOther (VObj [])])])
           [PKey "root"] _ _ _ eq_refl).
Defined.

(** ** The indexed check *)

Lemma lookup_index (xs : list Value) : forall n j,
  lookup (natToString (n + j))
         (combine (map natToString (seq n (List.length xs))) xs) =
  nth_error xs j.
Proof.
  induction xs as [|x xs IH]; intros n j; simpl.
  - now destruct j.
  - destruct j as [|j].
    + rewrite Nat.add_0_r, String.eqb_refl. reflexivity.
    + destruct (String.eqb_spec (natToString n) (natToString (n + S j))) as [E|_].
      * apply natToString_inj in E. lia.
      * replace (n + S j) with (S n + j) by lia. apply IH.
Qed.

Lemma getProp_index {rt : JsRuntime} (xs : list Value) (i : nat) :
  i < List.length xs ->
  getProp (VArr xs) (natToString i) = Normal (nth i xs VUndefined).
Proof.
  intros Hi. unfold getProp, ownEntries, indexEntries.
  pose proof (lookup_index xs 0 i) as L. simpl in L. rewrite L.
  destruct (nth_error xs i) as [v|] eqn:E.
  - now rewrite (nth_error_nth _ _ _ E).
  - apply nth_error_None in E. lia.
Qed.

Lemma Forall2_impl_in {A B} (R Q : A -> B -> Prop) xs ys :
  Forall2 R xs ys ->
  (forall x y, In x xs -> R x y -> Q x y) ->
  Forall2 Q xs ys.
Proof.
  induction 1 as [|x y xs ys HR _ IH]; intros H; constructor.
  - apply H; [now left|assumption].
  - apply IH. intros x' y' Hin. apply H. now right.
Qed.

Lemma withIndex_bound {A} (xs : list A) ix v :
  In (ix, v) (withIndex xs) -> ix < List.length xs.
Proof.
  intros H. apply in_combine_l, in_seq in H. lia.
Qed.

Lemma withIndex_length {A} (xs : list A) :
  List.length (withIndex xs) = List.length xs.
Proof.
  unfold withIndex. rewrite length_combine, length_seq. lia.
Qed.

Lemma strictEqNum_length (a b : nat) :
  strictEqNum (VNum (ofNat a)) (ofNat b) = (a =? b)%nat.
Proof.
  unfold strictEqNum, num_eq, ofNat, Qeq_bool. simpl.
  rewrite !Z.mul_1_r.
  destruct (Nat.eqb_spec a b) as [->|H]; [apply Z.eqb_refl|].
  apply Z.eqb_neq. lia.
Qed.

Lemma Forall2_cmap {A B} (g : A -> Completion B) (xs : list A) ys :
  Forall2 (fun x y => g x = Normal y) xs ys -> cmap g xs = Normal ys.
Proof.
  induction 1 as [|x y xs ys Hg _ IH]; simpl; [reflexivity|].
  now rewrite Hg, IH.
Qed.

Lemma compile_indexed {rt : JsRuntime} entries p :
  compile (indexed entries) p = compileIndexed compile entries p.
Proof. unfold indexed. now rewrite compile_step. Qed.

(** X16: the check of a compiled indexed validator, on an array, first
    compares the length with the number of entries: on a different length
    it returns the single failure with the arity message (singular for one
    entry) and the actual length as [found], whatever the entry checks
    are. On the right length it runs every entry check on the element at
    its index and gathers: all the errors of the failing entries in
    order, or the array of the validated elements. *)
Theorem indexed_check_order {rt : JsRuntime}
  (entries : list Schema) (p : Path) (f : FnV) :
  compile (indexed entries) p = Done f ->
  exists indexedValidators,
    Forall2 (fun iv v => compile (snd iv) (extendPath p (PIndex (fst iv))) = Done v)
            (withIndex entries) indexedValidators
    /\ f = indexedCheck (List.length entries) indexedValidators
                        (arityMessage (List.length entries)) p
    /\ forall xs : list Value,
         (List.length xs <> List.length entries ->
          forall ivs,
            indexedCheck (List.length entries) ivs
                         (arityMessage (List.length entries)) p (VArr xs) =
            Normal (fail (arityMessage (List.length entries)) p
                         (Some (found (VNum (ofNat (List.length xs)))))))
         /\ (List.length xs = List.length entries ->
             forall results,
               Forall2 (fun iv r => snd iv (nth (fst iv) xs VUndefined) = Normal r)
                       (withIndex indexedValidators) results ->
               f (VArr xs) = Normal (gather results)
               /\ (existsb (fun r => negb (isOk r)) results = true ->
                   f (VArr xs) = Normal (Failure (flat_map errorsOf results)))
               /\ (forall ys, results = map Success ys ->
                     f (VArr xs) = Normal (Success (VArr ys)))).
Proof.
  intros Hc. rewrite compile_indexed in Hc. unfold compileIndexed in Hc.
  match type of Hc with
  | context [traverse ?g ?l] => destruct (traverse g l) as [ivs|] eqn:Hiv
  end; cbn [bind] in Hc; [|discriminate].
  injection Hc as Hc.
  assert (Hf : f = indexedCheck (List.length entries) ivs
                                (arityMessage (List.length entries)) p)
    by (symmetry; exact Hc).
  clear Hc. exists ivs.
  assert (Hn : List.length ivs = List.length entries).
  { apply traverse_Forall2, Forall2_length in Hiv.
    now rewrite withIndex_length in Hiv. }
  split.
  { apply traverse_Forall2 in Hiv.
    eapply Forall2_impl; [|exact Hiv]. now intros [ix s] v. }
  split; [exact Hf|].
  intros xs. split.
  - intros Hlen ivs'. unfold indexedCheck.
    rewrite length_of_array. cbn [cbind].
    rewrite strictEqNum_length.
    destruct (Nat.eqb_spec (List.length xs) (List.length entries)); [contradiction|].
    reflexivity.
  - intros Hlen results Hres.
    assert (E : f (VArr xs) = Normal (gather results)).
    { rewrite Hf. unfold indexedCheck. rewrite length_of_array. cbn [cbind].
      rewrite strictEqNum_length, Hlen, Nat.eqb_refl. cbn [negb].
      erewrite Forall2_cmap; [reflexivity|].
      eapply Forall2_impl_in; [exact Hres|].
      intros [ix v] r Hin Hv. simpl in Hv.
      apply withIndex_bound in Hin.
      rewrite getProp_index; [exact Hv|lia]. }
    rewrite E. split; [reflexivity|]. split.
    + intros Hex. now rewrite gather_failure.
    + intros ys ->. now rewrite gather_successes.
Qed.

Lemma indexed_check_order_witness :
  exists f,
    @compile nanRuntime (indexed [SStr "number"; SStr "boolean"]) [] = Done f
    /\ f (VArr [num 0]) =
       Normal (fail "Expected array with 2 entries" [] (Some (found (num 1))))
    /\ f (VArr [VStr "0"; num 5]) =
       Normal (Failure [mkVError [PIndex 0] "Not a number" None;
                        mkVError [PIndex 1] "Not a boolean" None])
    /\ f (VArr [num 1; VBool true]) = Normal (Success (VArr [num 1; VBool true])).
Proof.
  eexists. split; [reflexivity|].
  destruct (@indexed_check_order nanRuntime [SStr "number"; SStr "boolean"] [] _ eq_refl)
    as [ivs [Hivs [Hf Hxs]]].
  inversion Hivs as [|iv1 v1 l1 l1' Hc1 Hivs1]; subst.
  inversion Hivs1 as [|iv2 v2 l2 l2' Hc2 Hivs2]; subst.
  inversion Hivs2; subst.
  injection Hc1 as <-. injection Hc2 as <-.
  split; [|split].
  - rewrite Hf. apply (proj1 (Hxs [num 0])). discriminate.
  - apply (proj1 (proj2 (proj2 (Hxs [VStr "0"; num 5]) eq_refl
             [fail "Not a number" [PIndex 0] None; fail "Not a boolean" [PIndex 1] None]
             ltac:(repeat constructor))) eq_refl).
  - apply (proj2 (proj2 (proj2 (Hxs [num 1; VBool true]) eq_refl
             [Success (num 1); Success (VBool true)]
             ltac:(repeat constructor))) [num 1; VBool true] eq_refl).
Defined.

(** ** Checks that never throw *)

Lemma neverThrows_basic g err p d :
  (forall x, exists b, g x = Normal b) -> neverThrows (basic g err p d).
Proof.
  intros H x. unfold basic. destruct (H x) as [b ->]. simpl. eauto.
Qed.

Lemma neverThrows_chainCheck (steps : list FnV) :
  Forall neverThrows steps -> neverThrows (chainCheck steps).
Proof.
  intros H x. unfold chainCheck.
  assert (G : forall acc, (exists r, acc = Normal r) ->
                          exists r, fold_left chainStep steps acc = Normal r).
  { induction H as [|v steps Hv _ IH]; intros acc [r ->]; simpl; [eauto|].
    apply IH. destruct r as [value|es]; simpl; [apply Hv|eauto]. }
  apply G. eauto.
Qed.

Lemma neverThrows_oneOfLoop (vs : list FnV) x :
  Forall neverThrows vs -> forall errors, exists r, oneOfLoop vs errors x = Normal r.
Proof.
  induction 1 as [|v vs Hv _ IH]; intros errors; simpl; [eauto|].
  destruct (Hv x) as [[value|es] ->]; eauto.
Qed.

Lemma throwFree_child v c : throwFree v = true -> In c (children v) -> throwFree c = true.
Proof.
  destruct v; simpl; try tauto; try discriminate.
  - intros H [<-|[]]. exact H.
  - intros H Hc. rewrite forallb_forall in H. now apply H.
Qed.

Lemma throwFree_flat items v :
  forallb throwFree items = true -> In v (flat items) -> throwFree v = true.
Proof.
  intros H Hv. rewrite forallb_forall in H.
  apply flat_In in Hv as [Hv|[its [Hits Hv]]]; [now apply H|].
  specialize (H _ Hits). simpl in H. rewrite forallb_forall in H. now apply H.
Qed.

Lemma throwFree_not_object v p : throwFree v = true -> stepType v p <> Done objectType.
Proof.
  destruct v; simpl; try discriminate.
  intros H [= ->]. discriminate H.
Qed.

(** A merged step of a chain of throw-free steps is throw-free. *)
Lemma mergeGroups_throwFree (vs : list Schema) p typed m :
  traverse (fun v => ty <- stepType v p ;; Done (ty, v)) vs = Done typed ->
  (forall v, In v vs -> throwFree v = true) ->
  In m (mergeGroups typed) -> throwFree m = true.
Proof.
  intros Ht Hvs. unfold mergeGroups. rewrite in_flat_map.
  intros [[ty steps] [Hg Hm]]. simpl in Hm.
  apply in_map_iff in Hg as [g [[= <- <-] Hg]].
  assert (Hin : forall tv, In tv g -> In tv typed)
    by (intros tv Htv; eapply group_In; eauto).
  assert (Htyped : forall tv, In tv typed ->
                     In (snd tv) vs /\ stepType (snd tv) p = Done (fst tv)).
  { clear - Ht. revert typed Ht.
    induction vs as [|v vs IH]; intros typed; simpl.
    - intros [= <-] tv [].
    - destruct (stepType v p) as [t|] eqn:Hv; simpl; [|discriminate].
      destruct (traverse _ vs) as [typed'|]; simpl; [|discriminate].
      intros [= <-] tv [<-|Htv]; simpl; [auto|].
      destruct (IH _ eq_refl tv Htv). auto. }
  unfold mergers in Hm.
  destruct (String.eqb_spec (groupType g) objectType) as [Eo|_].
  { exfalso.
    pose proof (group_nonempty (fun x y : string * Schema => fst x =? fst y) typed) as N.
    rewrite Forall_forall in N. specialize (N g Hg).
    destruct g as [|[t v] g]; [congruence|]. simpl in Eo. subst t.
    destruct (Htyped (objectType, v) (Hin _ (or_introl eq_refl))) as [Hv Hs].
    simpl in Hv, Hs. exact (@throwFree_not_object v p (Hvs v Hv) Hs). }
  destruct (groupType g =? enumType).
  { destruct Hm as [<-|[]]. reflexivity. }
  apply in_map_iff in Hm as [tv [<- Htv]].
  apply Hvs. apply Htyped. now apply Hin.
Qed.

Section Total.

Context {rt : JsRuntime}.
Variable compile0 : Compiler.

Lemma compileStep_total v p f :
  throwFree v = true ->
  (forall c q g, In c (children v) -> compile0 c q = Done g -> neverThrows g) ->
  compileStep compile0 v p = Done f -> neverThrows f.
Proof.
  intros Hv H. destruct v; simpl in *; try discriminate.
  - unfold compileBasic.
    repeat match goal with
           | |- context [String.eqb name ?c] =>
               destruct (String.eqb_spec name c);
               [try (subst name; discriminate Hv);
                intros [= <-]; apply neverThrows_basic; intros x;
                destruct x; simpl; eauto|]
           end.
    discriminate.
  - intros [= <-] x. unfold compileFunction. destruct (fn x) as [[r|w]|e]; eauto.
  - unfold compilePredicate. destruct err as [e|]; [|discriminate].
    destruct (String.length e =? 0)%nat; [discriminate|].
    intros [= <-] x. unfold predicateCheck.
    destruct (fn x) as [[ | |[|]| | | | | ]|]; eauto.
  - unfold compileOptional.
    destruct (compile0 v p) as [g|] eqn:Hg; simpl; [|discriminate].
    destruct (g fallback) as [[value|es]|]; try discriminate.
    intros [= <-] x. unfold optionalCheck.
    destruct (isNullish x); [eauto|].
    eapply H; [|exact Hg]. now left.
  - unfold compileEnum. destruct options; try discriminate.
    destruct (0 <? _)%nat; [discriminate|].
    intros [= <-]. apply neverThrows_basic. intros x. eauto.
  - unfold compileOneOf.
    match goal with
    | |- context [traverse ?g ?l] => destruct (traverse g l) as [vs|] eqn:Hvs
    end; simpl; [|discriminate].
    intros [= <-] x. unfold oneOfCheck. apply neverThrows_oneOfLoop.
    apply traverse_Forall2 in Hvs.
    eapply Forall2_Forall_r; [exact Hvs|].
    intros [ix s] g Hin Hg. simpl in Hg.
    eapply H; [|exact Hg]. eapply In_withIndex; eauto.
Qed.

Lemma compileChain_total vs p f :
  (forall v, In v vs -> throwFree v = true) ->
  (forall v c q g, In v vs -> In c (children v) ->
                   compile0 c q = Done g -> neverThrows g) ->
  compileChain compile0 vs p = Done f -> neverThrows f.
Proof.
  intros Hvs H. unfold compileChain.
  destruct vs as [|v0 rest]; [discriminate|].
  destruct (checkStart v0 p); cbn [bind]; [|discriminate].
  destruct rest as [|v1 rest].
  { apply compileStep_total; [apply Hvs; now left|].
    intros c q g Hc. eapply H; eauto. now left. }
  match goal with
  | |- context [traverse ?g (v0 :: v1 :: rest)] =>
      destruct (traverse g (v0 :: v1 :: rest)) as [typed|] eqn:Ht
  end; cbn [bind]; [|discriminate].
  destruct (checkAdjacent (mergeGroups typed) p); cbn [bind]; [|discriminate].
  match goal with
  | |- context [traverse ?g (mergeGroups typed)] =>
      destruct (traverse g (mergeGroups typed)) as [compiledSteps|] eqn:Hs
  end; cbn [bind]; [|discriminate].
  intros [= <-]. apply neverThrows_chainCheck.
  apply traverse_Forall2 in Hs.
  eapply Forall2_Forall_r; [exact Hs|].
  intros m g Hm Hg. eapply compileStep_total; [| |exact Hg].
  - eapply mergeGroups_throwFree; eauto.
  - intros c q g' Hc.
    destruct (mergeGroups_children _ _ _ Hm Hc) as [v [Hv Hcv]].
    rewrite (typed_steps _ _ Ht) in Hv. eapply H; eauto.
Qed.

Lemma compileWith_total s p f :
  throwFree s = true ->
  (forall c q g, depth c < depth s -> throwFree c = true ->
                 compile0 c q = Done g -> neverThrows g) ->
  compileWith compile0 s p = Done f -> neverThrows f.
Proof.
  intros Hs H.
  assert (Hstep : compileStep compile0 s p = Done f -> neverThrows f).
  { apply compileStep_total; [exact Hs|]. intros c q g Hc.
    apply H; [now apply depth_child|eapply throwFree_child; eauto]. }
  destruct s; unfold compileWith;
    try (destruct (checkStart _ p); cbn [bind]; [exact Hstep|discriminate]).
  simpl in Hs. apply compileChain_total.
  - intros v Hv. eapply throwFree_flat; eauto.
  - intros v c q g Hv Hc. apply H.
    + pose proof (depth_child _ _ Hc).
      apply flat_In in Hv as [Hv|[its [Hits Hv]]].
      * pose proof (depth_item _ _ Hv). lia.
      * pose proof (depth_item _ _ Hits). pose proof (depth_item _ _ Hv). lia.
    + eapply throwFree_child; [|exact Hc]. eapply throwFree_flat; eauto.
Qed.

End Total.

Lemma compile_total {rt : JsRuntime} s : forall p f,
  throwFree s = true -> compile s p = Done f -> neverThrows f.
Proof.
  remember (depth s) as n eqn:Hn.
  revert s Hn. induction n as [n IH] using lt_wf_ind.
  intros s -> p f Hs Hc. rewrite compile_unfold in Hc.
  eapply compileWith_total; [exact Hs| |exact Hc].
  intros c q g Hd Hcf. eapply IH; eauto.
Qed.

(** X17: a schema built from the four base kinds "array", "boolean",
    "number" and "string", enums, predicates, functions, optionals, oneOfs
    and chains of these (no object, no indexed, no "integer" and no
    "non-empty" step, whose checks read a property of the input or convert
    it to a number) compiles to a check that never throws: it returns a
    result on every input, whatever the caller-supplied functions do. *)
Theorem checks_without_objects_never_throw {rt : JsRuntime}
  (s : Schema) (p : Path) (f : FnV) :
  throwFree s = true -> compile s p = Done f ->
  forall x, exists r, f x = Normal r.
Proof. apply compile_total. Qed.

Lemma checks_without_objects_never_throw_witness :
  throwFree (oneOf [SArr [SStr "number"; mkEnum [num 1; num 2]];
                    optional (mkEnum [VStr "a"]) (VStr "a");
                    SFn (fun _ => Throw (mkJsError "Error" "oops"))]) = true
  /\ exists f,
       @compile nanRuntime
         (oneOf [SArr [SStr "number"; mkEnum [num 1; num 2]];
                 optional (mkEnum [VStr "a"]) (VStr "a");
                 SFn (fun _ => Throw (mkJsError "Error" "oops"))]) [] = Done f
       /\ exists r, f VNull = Normal r.
Proof.
  split; [reflexivity|]. eexists. split; [reflexivity|].
  exact (@checks_without_objects_never_throw nanRuntime
           (oneOf [SArr [SStr "number"; mkEnum [num 1; num 2]];
                   optional (mkEnum [VStr "a"]) (VStr "a");
                   SFn (fun _ => Throw (mkJsError "Error" "oops"))])
           [] _ eq_refl eq_refl VNull).
Defined.

(** ** Printing *)

Lemma string_app_assoc (a b c : string) :
  ((a ++ b) ++ c = a ++ (b ++ c))%string.
Proof. induction a as [|ch a IH]; simpl; [reflexivity|]. now rewrite IH. Qed.

Lemma concat_empty_app (xs ys : list string) :
  String.concat "" (xs ++ ys) = (String.concat "" xs ++ String.concat "" ys)%string.
Proof.
  induction xs as [|x xs IH]; [reflexivity|].
  destruct xs as [|x' xs].
  - simpl. destruct ys as [|y ys]; simpl.
    + clear. induction x as [|ch x IHx]; simpl; [reflexivity|]. now rewrite <- IHx.
    + reflexivity.
  - change (String.concat "" ((x :: x' :: xs) ++ ys))
      with (x ++ "" ++ String.concat "" ((x' :: xs) ++ ys))%string.
    rewrite IH.
    change (String.concat "" (x :: x' :: xs))
      with (x ++ "" ++ String.concat "" (x' :: xs))%string.
    simpl. now rewrite string_app_assoc.
Qed.

Lemma printPath_concat (p : Path) :
  printPath p =
  String.concat "" (map (fun step => "At " ++ printStep step ++ ": ")%string p).
Proof. now destruct p. Qed.

Lemma printPath_app (p q : Path) :
  printPath (p ++ q) = (printPath p ++ printPath q)%string.
Proof. rewrite !printPath_concat, map_app. apply concat_empty_app. Qed.

Lemma printDetails_app {pr : JsPrinter} (a msg : string) d :
  printDetails (a ++ msg) d = (a ++ printDetails msg d)%string.
Proof.
  destruct d as [[v|v|v|e]|]; simpl; try reflexivity; apply string_app_assoc.
Qed.

(** X18: the rendering of a path is the concatenation of the renderings
    of its steps, so the rendering of a path in two parts is that of the
    first followed by that of the second; rebasing an error under a path
    prepends the rendering of that path to the rendering of the error; an
    error without details renders as its path followed by its message;
    and an empty array of errors prints like no details. *)
Theorem rendering_follows_the_path {pr : JsPrinter} (e : VError) (p q : Path) :
  printPath (p ++ q) = (printPath p ++ printPath q)%string
  /\ printPath [] = ""
  /\ toString (under e p) = (printPath p ++ toString e)%string
  /\ (details e = None -> toString e = (printPath (path e) ++ message e)%string)
  /\ (forall msg, printError p msg (Some (inr [])) = printError p msg None)
  /\ printError (path e) (message e)
                match details e with Some d => Some (inl d) | None => None end
     = toString e.
Proof.
  split; [apply printPath_app|]. split; [reflexivity|]. split.
  - unfold toString, under. simpl.
    now rewrite printPath_app, string_app_assoc, printDetails_app.
  - split; [unfold toString; now intros ->|].
    split; [reflexivity|].
    unfold printError, toString. now destruct (details e).
Qed.

Lemma rendering_follows_the_path_witness :
  details (mkVError [PKey "a"; PIndex 0] "Not a string" None) = None
  /\ @toString {| jsonStringify := fun _ => ""; functionToString := fun _ => "" |}
       (mkVError [PKey "a"; PIndex 0] "Not a string" None) =
     "At `a`: At `0`: Not a string"
  /\ @toString {| jsonStringify := fun _ => "1"; functionToString := fun _ => "" |}
       (under (mkVError [PIndex 0] "Not a string" (Some (found (num 1)))) [PKey "a"]) =
     "At `a`: At `0`: Not a string, found: 1".
Proof.
  split; [reflexivity|]. split.
  - exact (proj1 (proj2 (proj2 (proj2 (@rendering_follows_the_path
                                         {| jsonStringify := fun _ => ""; functionToString := fun _ => "" |}
                                         (mkVError [PKey "a"; PIndex 0] "Not a string" None)
                                         [] [])))) eq_refl).
  - exact (proj1 (proj2 (proj2 (@rendering_follows_the_path
                                  {| jsonStringify := fun _ => "1"; functionToString := fun _ => "" |}
                                  (mkVError [PIndex 0] "Not a string" (Some (found (num 1))))
                                  [PKey "a"] [])))).
Defined.

(** ** The path of compilation only relocates *)

Lemma at_ok v p : at_ (Success v) p = Success v.
Proof. now destruct p. Qed.

Lemma at_fail err q d p : at_ (fail err q d) p = fail err (p ++ q) d.
Proof. now destruct p. Qed.

Lemma at_Failure es p : at_ (Failure es) p = Failure (rebase p es).
Proof. now destruct p. Qed.

Lemma at_at r q p : at_ (at_ r q) p = at_ r (p ++ q).
Proof.
  destruct p as [|s p]; [reflexivity|].
  destruct q as [|t q]; [now rewrite app_nil_r|].
  destruct r as [v|es]; [reflexivity|]. simpl. f_equal.
  rewrite map_map. apply map_ext. intros e.
  apply (under_under e (t :: q) (s :: p)).
Qed.

Lemma at_rmap r g p : rmap (at_ r p) g = at_ (rmap r g) p.
Proof. destruct r; destruct p; reflexivity. Qed.

Lemma rebase_app p a b : rebase p (a ++ b) = rebase p a ++ rebase p b.
Proof. destruct p; simpl; [reflexivity|apply map_app]. Qed.

Lemma rebase_nil p : rebase p [] = [].
Proof. now destruct p. Qed.

Lemma at_gather rs p : gather (map (fun r => at_ r p) rs) = at_ (gather rs) p.
Proof.
  destruct p as [|s p]; [now rewrite map_id|].
  unfold gather.
  assert (F : filter (fun r => negb (isOk r)) (map (fun r => at_ r (s :: p)) rs) =
              map (fun r => at_ r (s :: p)) (filter (fun r => negb (isOk r)) rs)).
  { induction rs as [|r rs IH]; [reflexivity|].
    cbn [map filter]. rewrite IH. now destruct r. }
  assert (E : forall l : list Result,
            flat_map errorsOf (map (fun r => at_ r (s :: p)) l) =
            map (fun e => under e (s :: p)) (flat_map errorsOf l)).
  { induction l as [|r l IH]; [reflexivity|].
    cbn [map flat_map]. rewrite IH, map_app. f_equal. now destruct r. }
  rewrite F, length_map, E.
  destruct (0 <? _)%nat.
  - reflexivity.
  - simpl. do 2 f_equal. rewrite map_map. apply map_ext. now intros [v|es].
Qed.

Lemma related_bind {A B A' B'} p (R : A -> A' -> Prop) (S : B -> B' -> Prop)
  (c1 : Comp A) (c2 : Comp A') (k1 : A -> Comp B) (k2 : A' -> Comp B') :
  related p R c1 c2 ->
  (forall a a', R a a' -> related p S (k1 a) (k2 a')) ->
  related p S (bind c1 k1) (bind c2 k2).
Proof.
  destruct c1 as [a|e1], c2 as [a'|e2]; simpl; try tauto.
  intros H Hk. now apply Hk.
Qed.

Lemma related_traverse {A B B'} p (R : B -> B' -> Prop)
  (g1 : A -> Comp B) (g2 : A -> Comp B') (xs : list A) :
  (forall x, In x xs -> related p R (g1 x) (g2 x)) ->
  related p (Forall2 R) (traverse g1 xs) (traverse g2 xs).
Proof.
  induction xs as [|x xs IH]; intros H; simpl; [constructor|].
  eapply related_bind; [apply H; now left|].
  intros y y' Hy.
  eapply related_bind; [apply IH; intros; apply H; now right|].
  intros ys ys' Hys. simpl. now constructor.
Qed.

Lemma related_filterComp {A} p (g1 g2 : A -> Comp bool) (xs : list A) :
  (forall x, In x xs -> related p eq (g1 x) (g2 x)) ->
  related p eq (filterComp g1 xs) (filterComp g2 xs).
Proof.
  induction xs as [|x xs IH]; intros H; simpl; [reflexivity|].
  eapply related_bind; [apply H; now left|].
  intros b b' <-.
  eapply related_bind; [apply IH; intros; apply H; now right|].
  intros ys ys' <-. reflexivity.
Qed.

Lemma stepType_related v p q : related p eq (stepType v q) (stepType v (p ++ q)).
Proof. destruct v; reflexivity. Qed.

Lemma isOptional_related p q : forall v,
  related p eq (isOptional v q) (isOptional v (p ++ q)).
Proof.
  assert (G : forall w, related p eq
                (ty <- stepType w q ;; Done (ty =? optionalType))
                (ty <- stepType w (p ++ q) ;; Done (ty =? optionalType))).
  { intros w. eapply related_bind; [apply stepType_related|].
    now intros t t' <-. }
  fix IH 1. intros v.
  destruct v; try apply (G _).
  destruct items as [|v0 items]; [apply (G (SOther VUndefined))|].
  simpl. apply IH.
Qed.

Lemma checkStart_related v p q :
  related p eq (checkStart v q) (checkStart v (p ++ q)).
Proof.
  unfold checkStart. destruct (negb _); [reflexivity|].
  eapply related_bind; [apply stepType_related|].
  now intros t t' <-.
Qed.

Lemma checkFollows_related p q rest : forall prev,
  related p eq (checkFollows prev rest q) (checkFollows prev rest (p ++ q)).
Proof.
  induction rest as [|curr rest IH]; intros prev; simpl; [reflexivity|].
  eapply related_bind; [apply stepType_related|]. intros x x' <-.
  eapply related_bind; [apply stepType_related|]. intros y y' <-.
  destruct (isCompatible x y); [apply IH|reflexivity].
Qed.

Lemma relocated_basic g err q d p :
  relocated p (basic g err q d) (basic g err (p ++ q) d).
Proof.
  intros x. unfold basic. destruct (g x) as [[|]|]; simpl;
    [now rewrite at_ok|now rewrite at_fail|reflexivity].
Qed.

Lemma cmap_related {A B} p (F1 : A -> Completion Result) (F2 : B -> Completion Result)
  (xs : list A) (ys : list B) :
  Forall2 (fun a b => F2 b = relocateOutcome p (F1 a)) xs ys ->
  cmap F2 ys =
  match cmap F1 xs with
  | Normal rs => Normal (map (fun r => at_ r p) rs)
  | Throw e => Throw e
  end.
Proof.
  induction 1 as [|a b xs ys Hab _ IH]; simpl; [reflexivity|].
  rewrite Hab, IH. destruct (F1 a) as [r|e]; simpl; [|reflexivity].
  now destruct (cmap F1 xs).
Qed.

Lemma relocated_objectCheck {rt : JsRuntime} ek rk (pvs1 pvs2 : list (string * FnV)) q p :
  Forall2 (fun kc1 kc2 => fst kc2 = fst kc1 /\ relocated p (snd kc1) (snd kc2))
          pvs1 pvs2 ->
  relocated p (objectCheck ek rk pvs1 q) (objectCheck ek rk pvs2 (p ++ q)).
Proof.
  intros H x. unfold objectCheck.
  destruct (objectKeys x) as [keys|]; simpl; [|reflexivity].
  destruct (0 <? _)%nat; [simpl; now rewrite at_fail|].
  destruct (0 <? _)%nat; [simpl; now rewrite at_fail|].
  match goal with
  | |- context [cmap ?F pvs2] => rewrite (@cmap_related _ _ p F F pvs1 pvs2)
  end.
  2:{ eapply Forall2_impl; [|exact H].
      intros [k1 v1] [k2 v2] [Hk Hv]. simpl in Hk, Hv. subst k2.
      destruct (getProp x k1) as [xk|]; simpl; [|reflexivity].
      rewrite Hv. destruct (v1 xk) as [r|]; simpl; [|reflexivity].
      now rewrite at_rmap. }
  match goal with
  | |- context [cmap ?g pvs1] => destruct (cmap g pvs1) as [rs|]
  end; simpl; [|reflexivity].
  now rewrite at_gather, at_rmap.
Qed.

Lemma Forall2_withIndex {A B} (R : A -> B -> Prop) (xs : list A) (ys : list B) :
  Forall2 R xs ys ->
  forall n,
    Forall2 (fun a b => fst b = fst a /\ R (snd a) (snd b))
            (combine (seq n (List.length xs)) xs)
            (combine (seq n (List.length ys)) ys).
Proof.
  induction 1 as [|x y xs ys Hxy _ IH]; intros n; simpl; constructor; auto.
Qed.

Lemma relocated_indexedCheck {rt : JsRuntime} n (ivs1 ivs2 : list FnV) err q p :
  Forall2 (relocated p) ivs1 ivs2 ->
  relocated p (indexedCheck n ivs1 err q) (indexedCheck n ivs2 err (p ++ q)).
Proof.
  intros H x. unfold indexedCheck.
  destruct (getProp x "length") as [len|]; simpl; [|reflexivity].
  destruct (negb _); [simpl; now rewrite at_fail|].
  match goal with
  | |- context [cmap ?F (withIndex ivs2)] =>
      rewrite (@cmap_related _ _ p F F (withIndex ivs1) (withIndex ivs2))
  end.
  2:{ eapply Forall2_impl; [|exact (Forall2_withIndex H 0)].
      intros [i1 v1] [i2 v2] [Hi Hv]. simpl in Hi, Hv. subst i2.
      destruct (getProp x (natToString i1)) as [xk|]; simpl; [|reflexivity].
      apply Hv. }
  match goal with
  | |- context [cmap ?g (withIndex ivs1)] =>
      destruct (cmap g (withIndex ivs1)) as [rs|]
  end; simpl; [|reflexivity].
  now rewrite at_gather.
Qed.

Lemma relocated_oneOfLoop p (vs1 vs2 : list FnV) x :
  Forall2 (relocated p) vs1 vs2 ->
  forall errors,
    oneOfLoop vs2 (rebase p errors) x = relocateOutcome p (oneOfLoop vs1 errors x).
Proof.
  induction 1 as [|v1 v2 vs1 vs2 Hv _ IH]; intros errors; simpl.
  - now rewrite at_Failure.
  - rewrite Hv. destruct (v1 x) as [[value|es]|]; simpl.
    + now rewrite !at_ok.
    + rewrite at_Failure, <- rebase_app. apply IH.
    + reflexivity.
Qed.

Lemma relocated_chainCheck p (cs1 cs2 : list FnV) :
  Forall2 (relocated p) cs1 cs2 -> relocated p (chainCheck cs1) (chainCheck cs2).
Proof.
  intros H x. unfold chainCheck.
  assert (G : forall acc,
            fold_left chainStep cs2 (relocateOutcome p acc) =
            relocateOutcome p (fold_left chainStep cs1 acc)).
  { induction H as [|v1 v2 cs1 cs2 Hv _ IH]; intros acc; simpl; [reflexivity|].
    rewrite <- IH. f_equal.
    destruct acc as [[value|es]|]; simpl.
    - rewrite at_ok. apply Hv.
    - now rewrite at_Failure.
    - reflexivity. }
  rewrite <- G. simpl. now rewrite at_ok.
Qed.

Lemma Forall2_same {A} (l l' : list A) : Forall2 eq l l' -> l = l'.
Proof. induction 1; congruence. Qed.

Section Relocation.

Context {rt : JsRuntime}.
Variable compile0 : Compiler.
Variable p : Path.
Hypothesis compile0_relocates :
  forall c q, related p (relocated p) (compile0 c q) (compile0 c (p ++ q)).

Lemma compile0_extended c q step :
  related p (relocated p) (compile0 c (extendPath q step))
          (compile0 c (extendPath (p ++ q) step)).
Proof.
  unfold extendPath. rewrite <- app_assoc. apply compile0_relocates.
Qed.

Lemma compileStep_related v q :
  related p (relocated p) (compileStep compile0 v q) (compileStep compile0 v (p ++ q)).
Proof.
  destruct v; simpl.
  - unfold compileBasic.
    repeat match goal with
           | |- context [if ?c then _ else _] => destruct c
           end; try apply relocated_basic. reflexivity.
  - intros x. unfold compileFunction.
    destruct (fn x) as [[r|w]|e]; simpl;
      [now rewrite at_at|now rewrite at_fail|now rewrite at_fail].
  - unfold compilePredicate. destruct err as [e|]; [|reflexivity].
    destruct (String.length e =? 0)%nat; [reflexivity|].
    intros x. unfold predicateCheck.
    destruct (fn x) as [[ | |[|]| | | | | ]|]; simpl;
      first [now rewrite at_ok|now rewrite at_fail].
  - unfold compileOptional.
    eapply related_bind; [apply compile0_relocates|].
    intros g f Hgf. rewrite (Hgf fallback).
    destruct (g fallback) as [[value|es]|]; simpl.
    + rewrite at_ok. intros x. unfold optionalCheck.
      destruct (isNullish x); [simpl; now rewrite at_ok|apply Hgf].
    + rewrite at_Failure. reflexivity.
    + reflexivity.
  - unfold compileEnum. destruct options; try reflexivity.
    destruct (0 <? _)%nat; [reflexivity|]. apply relocated_basic.
  - unfold compileObject.
    eapply related_bind.
    { apply related_filterComp. intros [k s] _.
      eapply related_bind; [apply isOptional_related|]. now intros b b' <-. }
    intros required required' <-.
    eapply related_bind.
    { apply related_traverse
        with (R := fun kc1 kc2 : string * FnV =>
                     fst kc2 = fst kc1 /\ relocated p (snd kc1) (snd kc2)).
      intros [k s] _.
      eapply related_bind; [apply compile0_extended|].
      intros g f Hgf. simpl. auto. }
    intros pvs1 pvs2 Hpvs. simpl. now apply relocated_objectCheck.
  - unfold compileIndexed.
    eapply related_bind.
    { apply related_traverse with (R := relocated p).
      intros [ix s] _. apply compile0_extended. }
    intros ivs1 ivs2 Hivs. simpl. now apply relocated_indexedCheck.
  - unfold compileOneOf.
    eapply related_bind.
    { apply related_traverse with (R := relocated p).
      intros [ix s] _. apply compile0_extended. }
    intros vs1 vs2 Hvs. simpl. intros x. unfold oneOfCheck.
    pose proof (relocated_oneOfLoop x Hvs []) as L.
    rewrite rebase_nil in L. exact L.
  - reflexivity.
  - reflexivity.
Qed.

Lemma compileChain_related vs q :
  related p (relocated p) (compileChain compile0 vs q) (compileChain compile0 vs (p ++ q)).
Proof.
  unfold compileChain.
  destruct vs as [|v0 rest]; [reflexivity|].
  eapply related_bind; [apply checkStart_related|]. intros _ _ _.
  destruct rest as [|v1 rest]; [apply compileStep_related|].
  eapply related_bind.
  { apply related_traverse with (R := eq). intros v _.
    eapply related_bind; [apply stepType_related|]. now intros t t' <-. }
  intros typed typed' Ht. apply Forall2_same in Ht. subst typed'.
  eapply related_bind with (R := eq).
  { unfold checkAdjacent. destruct (mergeGroups typed); [reflexivity|].
    apply checkFollows_related. }
  intros _ _ _.
  eapply related_bind.
  { apply related_traverse with (R := relocated p).
    intros m _. apply compileStep_related. }
  intros cs1 cs2 Hcs. simpl. now apply relocated_chainCheck.
Qed.

Lemma compileWith_related s q :
  related p (relocated p) (compileWith compile0 s q) (compileWith compile0 s (p ++ q)).
Proof.
  destruct s; unfold compileWith; try apply compileChain_related;
    (eapply related_bind; [apply checkStart_related|];
     intros _ _ _; apply compileStep_related).
Qed.

End Relocation.

Lemma compileFuel_related {rt : JsRuntime} p n : forall s q,
  related p (relocated p) (compileFuel n s q) (compileFuel n s (p ++ q)).
Proof.
  induction n as [|n IH]; intros s q; [reflexivity|].
  simpl. now apply compileWith_related.
Qed.

(** X19: the path a schema is compiled at only relocates. Compiled under
    a longer path [p ++ q], a schema compiles exactly when it compiles at
    [q]; the check then gives, on every input, the result of the check
    compiled at [q] rebased under [p] (the same value on success, the same
    errors with [p] prepended to their paths, the same thrown error); and
    when compilation throws, it throws the same error moved under [p]. In
    particular a schema that compiles at the root compiles at every path,
    to the root check with its errors rebased under that path. *)
Theorem compile_path_only_relocates {rt : JsRuntime} (s : Schema) (p q : Path) :
  match compile s q, compile s (p ++ q) with
  | Done g, Done f =>
      forall x, f x = match g x with
                      | Normal r => Normal (at_ r p)
                      | Throw e => Throw e
                      end
  | Raise e1, Raise e2 => e2 = relocateExn p e1
  | _, _ => False
  end
  /\ (forall g, compile s [] = Done g ->
        exists f, compile s p = Done f
                  /\ forall x, f x = match g x with
                                     | Normal r => Normal (at_ r p)
                                     | Throw e => Throw e
                                     end).
Proof.
  split; [apply (compileFuel_related p (S (depth s)) s q)|].
  intros g Hg.
  pose proof (compileFuel_related p (S (depth s)) s []) as H.
  rewrite app_nil_r in H. fold (compile s []) in H. fold (compile s p) in H.
  rewrite Hg in H. destruct (compile s p) as [f|]; [|contradiction].
  exists f. split; [reflexivity|exact H].
Qed.

Lemma compile_path_only_relocates_witness :
  exists g f,
    @compile nanRuntime (indexed [SStr "string"]) [] = Done g
    /\ @compile nanRuntime (indexed [SStr "string"]) [PKey "a"] = Done f
    /\ g (VArr [num 1]) = Normal (Failure [mkVError [PIndex 0] "Not a string" None])
    /\ f (VArr [num 1]) =
       Normal (Failure [mkVError [PKey "a"; PIndex 0] "Not a string" None]).
Proof.
  eexists.
  destruct (proj2 (@compile_path_only_relocates nanRuntime
                     (indexed [SStr "string"]) [PKey "a"] []) _ eq_refl)
    as [f [Hf Hx]].
  exists f. split; [reflexivity|]. split; [exact Hf|]. split; [reflexivity|].
  exact (Hx (VArr [num 1])).
Defined.

(** ** Chains of caller code *)

Lemma isCompatible_universal x y :
  x = predType \/ x = functionType \/ y = predType \/ y = functionType ->
  isCompatible x y = true.
Proof.
  intros H. unfold isCompatible.
  destruct (String.eqb_spec x predType); [reflexivity|].
  destruct (String.eqb_spec y predType); [reflexivity|].
  destruct (String.eqb_spec x functionType); [reflexivity|].
  destruct (String.eqb_spec y functionType); [reflexivity|].
  exfalso. tauto.
Qed.

Lemma callerStep_kind v p :
  isCallerStep v = true ->
  exists t, stepType v p = Done t /\ (t = predType \/ t = functionType)
            /\ isMergeable v = false /\ checkStart v p = Done tt.
Proof.
  destruct v; try discriminate; intros _.
  - exists functionType. repeat split. now right.
  - exists predType. repeat split. now left.
Qed.

Lemma callerStep_compiles {rt : JsRuntime} (compile0 : Compiler) v p :
  isCallerStep v = true -> exists c, compileStep compile0 v p = Done c.
Proof.
  destruct v; try discriminate; simpl; [eauto|].
  destruct err as [e|]; [|discriminate].
  destruct e; [discriminate|]. simpl. eauto.
Qed.

Lemma callers_follow p rest : forall prev,
  isCallerStep prev = true -> forallb isCallerStep rest = true ->
  exists last, checkFollows prev rest p = Done last.
Proof.
  induction rest as [|curr rest IH]; intros prev Hp Hr; simpl; [eauto|].
  apply andb_true_iff in Hr as [Hc Hr].
  destruct (callerStep_kind prev p Hp) as [x [-> [Hx _]]].
  destruct (callerStep_kind curr p Hc) as [y [-> _]]. cbn [bind].
  rewrite isCompatible_universal by tauto. now apply IH.
Qed.

Lemma callers_compile {rt : JsRuntime} (compile0 : Compiler) p vs :
  forallb isCallerStep vs = true ->
  exists cs, traverse (fun v => compileStep compile0 v p) vs = Done cs.
Proof.
  induction vs as [|v vs IH]; simpl; [eauto|].
  intros H. apply andb_true_iff in H as [Hv Hvs].
  destruct (callerStep_compiles compile0 v p Hv) as [c ->].
  destruct (IH Hvs) as [cs ->]. simpl. eauto.
Qed.

Lemma callers_typed p vs :
  forallb isCallerStep vs = true ->
  exists typed,
    traverse (fun v => ty <- stepType v p ;; Done (ty, v)) vs = Done typed
    /\ mergeGroups typed = vs.
Proof.
  intros H.
  assert (T : exists typed,
            traverse (fun v => ty <- stepType v p ;; Done (ty, v)) vs = Done typed).
  { induction vs as [|v vs IH]; simpl; [eauto|].
    apply andb_true_iff in H as [Hv Hvs].
    destruct (callerStep_kind v p Hv) as [t [-> _]].
    destruct (IH Hvs) as [typed ->]. simpl. eauto. }
  destruct T as [typed Ht]. exists typed. split; [exact Ht|].
  rewrite mergeGroups_plain; [apply (typed_steps _ _ Ht)|].
  apply traverse_Forall2 in Ht.
  eapply Forall2_Forall_r; [exact Ht|].
  intros v [t v'] Hin. simpl.
  destruct (stepType v p) as [t'|] eqn:Hv; simpl; [|discriminate].
  intros [= <- <-]. eapply not_mergeable_kind; [exact Hv|].
  rewrite forallb_forall in H.
  now destruct (callerStep_kind v p (H _ Hin)) as [? [_ [_ [? _]]]].
Qed.

(** X20: predicate and function steps are compatible with every
    neighbour: a non-empty chain made only of functions and of predicates
    that have a message always compiles, whatever their order and number. *)
Theorem caller_chains_always_compile {rt : JsRuntime} (items : list Schema) (p : Path) :
  flat items <> [] ->
  forallb isCallerStep (flat items) = true ->
  exists f, compile (SArr items) p = Done f.
Proof.
  intros Hne Hall. rewrite compile_chain.
  destruct (flat items) as [|v0 [|v1 rest]] eqn:Hflat; [congruence| |].
  - simpl in Hall. rewrite andb_true_r in Hall. unfold compileChain.
    destruct (callerStep_kind v0 p Hall) as [t [_ [_ [_ ->]]]]. cbn [bind].
    now apply callerStep_compiles.
  - rewrite compileChain_long.
    assert (H0 : isCallerStep v0 = true) by (simpl in Hall; now apply andb_true_iff in Hall).
    destruct (callerStep_kind v0 p H0) as [t [_ [_ [_ ->]]]]. cbn [bind].
    destruct (callers_typed p _ Hall) as [typed [Ht Hm]].
    rewrite Ht. cbn [bind]. rewrite Hm. cbn [checkAdjacent].
    destruct (callers_follow p (v1 :: rest) v0 H0) as [last ->].
    { simpl in Hall. now apply andb_true_iff in Hall. }
    cbn [bind].
    destruct (callers_compile compile p _ Hall) as [cs ->]. simpl. eauto.
Qed.

Lemma caller_chains_always_compile_witness :
  flat [SFn (fun x => Normal (RetOther x));
        SArr [predicate (fun x => Normal x) (Some "no") None;
              SFn (fun _ => Throw (mkJsError "Error" "oops"))]] <> []
  /\ exists f,
       @compile nanRuntime
         (SArr [SFn (fun x => Normal (RetOther x));
                SArr [predicate (fun x => Normal x) (Some "no") None;
                      SFn (fun _ => Throw (mkJsError "Error" "oops"))]]) [] = Done f.
Proof.
  split; [discriminate|].
  exact (@caller_chains_always_compile nanRuntime
           [SFn (fun x => Normal (RetOther x));
            SArr [predicate (fun x => Normal x) (Some "no") None;
                  SFn (fun _ => Throw (mkJsError "Error" "oops"))]] []
           ltac:(discriminate) eq_refl).
Defined.

(** ** Empty composites *)

(** X21: composites without members compile, and their checks behave as
    follows on every input. A oneOf without branches fails with no error
    at all. An enum without options refuses every value. An indexed
    validator without entries reads the length of its input, which throws
    on null and undefined: it returns the empty array when the length is
    the number 0, as for the empty array and for the empty string, and
    fails with the length it found otherwise, as for every other array. An
    object without fields reads the keys of its input, which throws on
    null and undefined: it returns the empty object when there is no key,
    as for the empty object, a number or a boolean, and reports all the
    keys as unexpected otherwise. *)
Theorem empty_composites {rt : JsRuntime} (p : Path) :
  (exists f, compile (oneOf []) p = Done f
             /\ forall x, f x = Normal (Failure []))
  /\ (exists f, compile (mkEnum []) p = Done f
                /\ forall x, f x = Normal (fail "Unexpected value" p
                                                (Some (expected (VArr [])))))
  /\ (exists f, compile (indexed []) p = Done f
                /\ (forall x, f x =
                      cbind (getProp x "length") (fun len =>
                        Normal (if strictEqNum len (ofNat 0)
                                then Success (VArr [])
                                else fail "Expected array with 0 entries" p
                                          (Some (found len)))))
                /\ f (VArr []) = Normal (Success (VArr []))
                /\ f (VStr "") = Normal (Success (VArr []))
                /\ forall x xs, f (VArr (x :: xs)) =
                     Normal (fail "Expected array with 0 entries" p
                                  (Some (found (VNum (ofNat (S (List.length xs))))))))
  /\ (exists f, compile (object []) p = Done f
                /\ (forall x, f x =
                      cbind (objectKeys x) (fun keys =>
                        Normal (match keys with
                                | [] => Success (VObj [])
                                | _ :: _ =>
                                    fail "Found unexpected properties" p
                                         (Some (unexpected (VArr (map VStr keys))))
                                end)))
                /\ f (VObj []) = Normal (Success (VObj []))
                /\ (forall n, f (VNum n) = Normal (Success (VObj [])))
                /\ (forall b, f (VBool b) = Normal (Success (VObj [])))
                /\ forall kv props, f (VObj (kv :: props)) =
                     Normal (fail "Found unexpected properties" p
                                  (Some (unexpected
                                           (VArr (map VStr (map fst (kv :: props)))))))).
Proof.
  assert (E : forall keys : list string,
            filter (fun k => negb (includesKey [] k)) keys = keys).
  { induction keys as [|k ks IH]; simpl; [reflexivity|]. f_equal. exact IH. }
  split; [|split; [|split]].
  - eexists. split; [now rewrite compile_oneOf|]. reflexivity.
  - eexists. split; [unfold mkEnum; now rewrite compile_step|]. reflexivity.
  - eexists. split; [now rewrite compile_indexed|].
    assert (G : forall x,
              indexedCheck 0 [] "Expected array with 0 entries" p x =
              cbind (getProp x "length") (fun len =>
                Normal (if strictEqNum len (ofNat 0)
                        then Success (VArr [])
                        else fail "Expected array with 0 entries" p
                                  (Some (found len))))).
    { intros x. unfold indexedCheck.
      destruct (getProp x "length") as [len|e]; [|reflexivity].
      cbn [cbind]. now destruct (strictEqNum len (ofNat 0)). }
    split; [exact G|]. split; [|split].
    + change (indexedCheck 0 [] "Expected array with 0 entries" p (VArr []) =
              Normal (Success (VArr []))).
      rewrite G, length_of_array. reflexivity.
    + change (indexedCheck 0 [] "Expected array with 0 entries" p (VStr "") =
              Normal (Success (VArr []))).
      rewrite G, length_of_string. reflexivity.
    + intros x xs.
      change (indexedCheck 0 [] "Expected array with 0 entries" p (VArr (x :: xs)) =
              Normal (fail "Expected array with 0 entries" p
                           (Some (found (VNum (ofNat (S (List.length xs)))))))).
      rewrite G, length_of_array. cbn [cbind].
      rewrite strictEqNum_length. reflexivity.
  - eexists. split; [now rewrite compile_object|].
    assert (G : forall x,
              objectCheck [] [] [] p x =
              cbind (objectKeys x) (fun keys =>
                Normal (match keys with
                        | [] => Success (VObj [])
                        | _ :: _ =>
                            fail "Found unexpected properties" p
                                 (Some (unexpected (VArr (map VStr keys))))
                        end))).
    { intros x. unfold objectCheck.
      destruct (objectKeys x) as [keys|e]; [|reflexivity].
      cbn [cbind filter List.length Nat.ltb Nat.leb]. rewrite E.
      now destruct keys. }
    split; [exact G|]. split; [reflexivity|]. split; [reflexivity|].
    split; [reflexivity|].
    intros kv props.
    change (objectCheck [] [] [] p (VObj (kv :: props)) =
            Normal (fail "Found unexpected properties" p
                         (Some (unexpected
                                  (VArr (map VStr (map fst (kv :: props)))))))).
    rewrite G. reflexivity.
Qed.

(** ** Instances of the properties above *)

Lemma gather_succeeds_iff_all_witness :
  gather [Success (num 1); Success (VStr "a")] = Success (VArr [num 1; VStr "a"])
  /\ VArr [num 1; VStr "a"] = VArr (map valueOf [Success (num 1); Success (VStr "a")]).
Proof.
  split; [reflexivity|].
  exact (proj1 (proj1 (proj2 (gather_succeeds_iff_all
                                [Success (num 1); Success (VStr "a")]))
                      (VArr [num 1; VStr "a"]) eq_refl)).
Defined.

Lemma number_integer_accepts_safe_integers_witness :
  safeInteger (num 3)
  /\ exists f,
       @compile nanRuntime (SArr [SStr "number"; SStr "integer"]) [] = Done f
       /\ f (num 3) = Normal (Success (num 3)).
Proof.
  assert (S3 : safeInteger (num 3)).
  { exists (3 # 1)%Q, 3%Z. split; [reflexivity|]. split; [reflexivity|].
    split; discriminate. }
  split; [exact S3|].
  destruct (@number_integer_accepts_safe_integers nanRuntime []) as [f [Hf [_ Hx]]].
  exists f. split; [exact Hf|].
  exact (proj2 (proj1 (Hx (num 3))) S3).
Defined.

Lemma nonempty_after_string_or_array_witness :
  (exists s, VStr "a" = VStr s /\ s <> "")
  /\ exists f,
       @compile nanRuntime (SArr [SStr "string"; SStr "non-empty"]) [] = Done f
       /\ f (VStr "a") = Normal (Success (VStr "a")).
Proof.
  assert (N : exists s, VStr "a" = VStr s /\ s <> "").
  { exists "a". split; [reflexivity|discriminate]. }
  split; [exact N|].
  destruct (proj1 (@nonempty_after_string_or_array nanRuntime []))
    as [f [Hf [_ [Hx _]]]].
  exists f. split; [exact Hf|].
  exact (proj2 (Hx (VStr "a")) N).
Defined.
